(** * react-native-cli-bump-version: a shallow embedding of [src/index.ts]

    The development follows the source file from top to bottom:

    - text (JavaScript strings as sequences of code units) and the
      Number values the program can produce;
    - the helpers [split], [parseDecimal], [parseSemVer], [matchFirst],
      [incrementSemVer], together with the fragment of the RegExp engine
      the six patterns of the source need;
    - the file managers ([BaseFileManager], [PBXManager],
      [BuildGradleManager], [PackageJSONManager]) as state transformers
      over a disk and three cached buffers;
    - the orchestrator [ProjectFilesManager] ([bumpCodes], [syncSemver],
      [dryRun], [run], [saveVersionFile]);
    - the entry points [apiVersioner] and [versioner], with the
      configuration the React Native CLI hands over.

    Theorems about the embedding come after the definitions. *)

From Stdlib Require Import ZArith Ascii List Lia Bool DecimalString.
From Stdlib Require String DecimalPos.
From stdpp Require Import base list gmap.

Set Default Proof Using "Type".

(** ** Text *)

(** A JavaScript string is a finite sequence of code units.  All the text
    the program inspects (digits, quotes, dots, the keywords of the two
    platform files) lies in the Latin-1 range, so a code unit is modelled
    as an [ascii] and a string as a list of them. *)
Definition str : Type := list ascii.

Declare Scope str_scope.
Delimit Scope str_scope with str.
Bind Scope str_scope with str.

Inductive literal : Set :=
| lit_nil
| lit_cons (c : ascii) (l : literal).

Fixpoint literal_of_bytes (l : list Byte.byte) : literal :=
  match l with
  | [] => lit_nil
  | b :: l => lit_cons (ascii_of_byte b) (literal_of_bytes l)
  end.

Fixpoint bytes_of_literal (l : literal) : list Byte.byte :=
  match l with
  | lit_nil => []
  | lit_cons c l => byte_of_ascii c :: bytes_of_literal l
  end.

#[warnings="-via-type-mismatch,-via-type-remapping"]
String Notation str literal_of_bytes bytes_of_literal
  (via literal mapping [[nil] => lit_nil, [cons] => lit_cons]) : str_scope.

Open Scope str_scope.
Open Scope Z_scope.

Definition str_eqb (a b : str) : bool := bool_decide (a = b).

(** [s.startsWith(p)], used by the embedding of [split]. *)
Fixpoint starts_with (p s : str) : bool :=
  match p, s with
  | [], _ => true
  | _ :: _, [] => false
  | a :: p', b :: s' => if Ascii.eqb a b then starts_with p' s' else false
  end.

(** ** Number values *)

(** Every Number the program computes comes out of [parseInt], [+ 1] or
    unary [+] on a digit string, so it is NaN, an infinity, or a binary64
    value that is an integer.  [Fin z] stands for the double whose value is
    the integer [z]; the two zeros are identified (they print alike, and
    [-0 + 1] is [1]). *)
Inductive number : Set :=
| NaN
| Inf (negative : bool)
| Fin (z : Z).

(** Rounding of a mathematical integer to the nearest binary64 value,
    ties to even: integers of at most 53 bits are exact, longer ones keep
    their 53 leading bits, and a result of 2^1024 or more overflows. *)
Definition round64 (z : Z) : number :=
  let a := Z.abs z in
  let bits := Z.log2 a + 1 in
  if bits <=? 53 then Fin z
  else
    let sh := bits - 53 in
    let q := Z.shiftr a sh in
    let r := Z.land a (Z.ones sh) in
    let half := Z.shiftl 1 (sh - 1) in
    let q' := if (half <? r) || ((r =? half) && Z.odd q) then q + 1 else q in
    let m := Z.shiftl q' sh in
    if 2 ^ 1024 <=? m then Inf (z <? 0) else Fin (Z.sgn z * m).

(** [a + b] on Numbers. *)
Definition num_add (a b : number) : number :=
  match a, b with
  | NaN, _ | _, NaN => NaN
  | Inf s1, Inf s2 => if Bool.eqb s1 s2 then Inf s1 else NaN
  | Inf s, Fin _ | Fin _, Inf s => Inf s
  | Fin x, Fin y => round64 (x + y)
  end.

Definition isNaN (n : number) : bool :=
  match n with NaN => true | _ => false end.

(** [Number.MAX_SAFE_INTEGER] is 2^53 - 1. *)
Definition MAX_SAFE_INTEGER : Z := 2 ^ 53 - 1.

Definition safe_integer (z : Z) : Prop := Z.abs z <= MAX_SAFE_INTEGER.

(** *** Decimal numerals *)

(** The value of a decimal digit: the code units 48 to 57. *)
Definition digit_value (c : ascii) : option Z :=
  let code := Z.of_N (N_of_ascii c) in
  if (48 <=? code) && (code <=? 57) then Some (code - 48) else None.

Definition is_digit (c : ascii) : bool :=
  match digit_value c with Some _ => true | None => false end.

(** The decimal numeral of an integer: ["0"], ["42"], ["-7"]. *)
Definition decimal (z : Z) : str :=
  String.list_ascii_of_string (NilZero.string_of_int (Z.to_int z)).

(** *** Number::toString *)

(** For a positive integer double [z], the digits printed are those of the
    integer with the fewest significant digits that still rounds to [z]
    (the closest to [z] if there are several, the one with the even last
    digit on a tie).  [shortest e z] looks for it among the multiples of
    [10^e], then of [10^(e-1)], and so on down to the multiples of 1. *)
Fixpoint shortest (e : nat) (z : Z) : Z :=
  let p := 10 ^ Z.of_nat e in
  let lo := (z / p) * p in
  let hi := lo + p in
  let ok v :=
    (0 <? v) && match round64 v with Fin w => w =? z | _ => false end in
  let next := match e with O => z | S e' => shortest e' z end in
  match ok lo, ok hi with
  | true, true =>
      if z - lo <? hi - z then lo
      else if hi - z <? z - lo then hi
      else if Z.even (lo / p) then lo else hi
  | true, false => lo
  | false, true => hi
  | false, false => next
  end.

Fixpoint strip_zeros (rev_digits : str) : str :=
  match rev_digits with
  | "0"%char :: t => strip_zeros t
  | _ => rev_digits
  end.

(** Digits of a positive integer that is at least 10^21, in the
    exponential form [d.ddde+n]. *)
Definition exponential (v : Z) : str :=
  let ds := decimal v in
  let n := Z.of_nat (length ds) in
  match rev (strip_zeros (rev ds)) with
  | [] => ds
  | [d] => d :: "e+" ++ decimal (n - 1)
  | d :: rest => d :: "." ++ rest ++ "e+" ++ decimal (n - 1)
  end.

Definition positive_to_string (z : Z) : str :=
  let v := shortest (length (decimal z)) z in
  if v <? 10 ^ 21 then decimal v else exponential v.

Definition num_to_string (n : number) : str :=
  match n with
  | NaN => "NaN"
  | Inf false => "Infinity"
  | Inf true => "-Infinity"
  | Fin z =>
      if z =? 0 then "0"
      else if z <? 0 then "-" ++ positive_to_string (- z)
      else positive_to_string z
  end.

(** *** parseInt *)

(** White space and line terminators below U+0100: TAB, LF, VT, FF, CR,
    SP and NBSP. *)
Definition is_white_space (c : ascii) : bool :=
  match c with
  | "009"%char | "010"%char | "011"%char | "012"%char | "013"%char
  | " "%char | "160"%char => true
  | _ => false
  end.

Fixpoint trim_start (s : str) : str :=
  match s with
  | c :: s' => if is_white_space c then trim_start s' else s
  | [] => []
  end.

(** The longest prefix of decimal digits, as digit values. *)
Fixpoint leading_digits (s : str) : list Z :=
  match s with
  | c :: s' =>
      match digit_value c with
      | Some d => d :: leading_digits s'
      | None => []
      end
  | [] => []
  end.

Definition digits_to_Z (ds : list Z) : Z :=
  fold_left (fun acc d => 10 * acc + d) ds 0.

(** [parseInt(s, 10)]: leading white space is skipped, one sign is
    accepted, then the longest run of digits is read; anything after it is
    ignored and no digit at all gives NaN.  The mathematical value is
    rounded to a Number (for numerals of more than 20 significant digits
    ECMAScript leaves the low digits to the implementation; V8 rounds the
    exact value, which is what is written here). *)
Definition parseInt (s : str) : number :=
  let s1 := trim_start s in
  let '(negative, s2) :=
    match s1 with
    | "-"%char :: t => (true, t)
    | "+"%char :: t => (false, t)
    | _ => (false, s1)
    end in
  match leading_digits s2 with
  | [] => NaN
  | ds => round64 (if negative then - digits_to_Z ds else digits_to_Z ds)
  end.

(** ** Failures *)

(** What a [throw] carries: an [Error] built by the program with its
    message, the [TypeError] raised when a property of [undefined] is read,
    the [SyntaxError] of [JSON.parse], or the failure of a file-system
    call. *)
Inductive exn : Type :=
| Error (message : str)
| TypeError (property : str)
| SyntaxError (message : str)
| SystemError (code : str) (path : str).

(** A computation either returns a value or throws. *)
Inductive outcome (A : Type) : Type :=
| Ok (a : A)
| Throw (e : exn).
Arguments Ok {A} a.
Arguments Throw {A} e.

(** [ToString] of a value that is a string or [undefined], as applied
    inside a string built with placeholders and by [parseInt] to its
    argument. *)
Definition ToString (v : option str) : str :=
  match v with
  | Some s => s
  | None => "undefined"
  end.

(** ** Helpers *)

(** [str.split(sep)]: the pieces between the occurrences of [sep], found
    from left to right.  [skip] counts the code units of a separator that
    are still to be passed over.  An empty separator cuts between code
    units. *)
Fixpoint split_go (sep : str) (skip : nat) (s : str) : list str :=
  match s with
  | [] => [[]]
  | c :: s' =>
      match skip with
      | S k => split_go sep k s'
      | O =>
          if starts_with sep s then [] :: split_go sep (length sep - 1) s'
          else
            match split_go sep 0 s' with
            | piece :: pieces => (c :: piece) :: pieces
            | [] => [[c]]
            end
      end
  end.

Definition split (sep : str) (s : str) : list str :=
  match sep with
  | [] => map (fun c => [c]) s
  | _ => split_go sep 0 s
  end.

Definition parseDecimal (it : str) : number := parseInt it.

Definition parseSemVer (s : str) : list number :=
  map parseDecimal (split "." s).

(** [x + 1] where [x] is an array element that may be missing:
    [undefined + 1] is NaN. *)
Definition plus_one (x : option number) : number :=
  match x with
  | Some n => num_add n (Fin 1)
  | None => NaN
  end.

(** [array.join(sep)] on an array of numbers; a missing element
    ([undefined]) is printed as the empty string. *)
Definition element_to_string (x : option number) : str :=
  match x with
  | Some n => num_to_string n
  | None => []
  end.

Fixpoint join (sep : str) (l : list (option number)) : str :=
  match l with
  | [] => []
  | [x] => element_to_string x
  | x :: l' => element_to_string x ++ sep ++ join sep l'
  end.

(** [type === "major"] for a [type] that may be [undefined]. *)
Definition is_kind (type : option str) (k : str) : bool :=
  match type with
  | Some t => str_eqb t k
  | None => false
  end.

Definition incrementSemVer (current : str) (type : option str) : outcome str :=
  let parts := parseSemVer current in
  let major := parts !! 0%nat in
  let minor := parts !! 1%nat in
  let patch := parts !! 2%nat in
  if is_kind type "major" then
    Ok (join "." [Some (plus_one major); Some (Fin 0); Some (Fin 0)])
  else if is_kind type "minor" then
    Ok (join "." [major; Some (plus_one minor); Some (Fin 0)])
  else if is_kind type "patch" then
    Ok (join "." [major; minor; Some (plus_one patch)])
  else
    Throw (Error ("'" ++ ToString type ++ "' is not a semver type")).

(** ** Regular expressions *)

(** The fragment of RegExp syntax that the six patterns of the source are
    written in: literal code units, the classes [\d], [.], [[...]] and
    [[^...]], sequence, alternation, the greedy quantifiers [*] and [+],
    and numbered capture groups. *)
Inductive char_class : Type :=
| Digit
| Dot
| OneOf (cs : str)
| NoneOf (cs : str).

Inductive regex : Type :=
| Eps
| Chr (c : ascii)
| Class (k : char_class)
| Seq (r1 r2 : regex)
| Alt (r1 r2 : regex)
| Star (r : regex)
| Group (i : nat) (r : regex).

Definition Plus (r : regex) : regex := Seq r (Star r).

(** A literal run of code units, as in [/versionCode /]. *)
Fixpoint Lit (s : str) : regex :=
  match s with
  | [] => Eps
  | [c] => Chr c
  | c :: s' => Seq (Chr c) (Lit s')
  end.

(** A RegExp object: the pattern and its [g] flag.  Every pattern of the
    source is a literal evaluated inside the method that uses it, so each
    call starts from a fresh object whose [lastIndex] is 0. *)
Record RegExp : Type := {
  pattern : regex;
  global : bool
}.

(** The line terminators below U+0100: LF and CR. *)
Definition is_line_terminator (c : ascii) : bool :=
  match c with
  | "010"%char | "013"%char => true
  | _ => false
  end.

Fixpoint mem (c : ascii) (cs : str) : bool :=
  match cs with
  | [] => false
  | d :: cs' => Ascii.eqb c d || mem c cs'
  end.

Definition in_class (k : char_class) (c : ascii) : bool :=
  match k with
  | Digit => is_digit c
  | Dot => negb (is_line_terminator c)
  | OneOf cs => mem c cs
  | NoneOf cs => negb (mem c cs)
  end.

(** The numbers of the groups inside a pattern. *)
Fixpoint groups (r : regex) : list nat :=
  match r with
  | Eps | Chr _ | Class _ => []
  | Seq r1 r2 | Alt r1 r2 => groups r1 ++ groups r2
  | Star r1 => groups r1
  | Group i r1 => i :: groups r1
  end.

(** The captures of a match in progress: group number to captured text,
    [None] for a group that has not taken part. *)
Definition captures : Type := nat -> option str.

Definition no_captures : captures := fun _ => None.

Definition set_capture (i : nat) (x : str) (c : captures) : captures :=
  fun j => if Nat.eqb j i then Some x else c j.

Definition reset_captures (l : list nat) (c : captures) : captures :=
  fun j => if existsb (Nat.eqb j) l then None else c j.

(** The backtracking matcher, in the continuation style of the ECMAScript
    specification: [matcher r s c k] matches [r] at the front of [s] and
    hands the rest of the input and the captures to [k]; when [k] fails the
    matcher tries its next choice.

    [repeat_matcher body k fuel s c] is the greedy loop of a starred
    pattern whose rounds are run by [body]: it tries one more round, and
    falls back to the continuation [k] when the round or what follows it
    fails.  A round that consumes nothing is rejected, so every round
    shortens the input and [length s] rounds of fuel are never used up. *)
Fixpoint repeat_matcher {R : Type}
    (body : str -> captures -> (str -> captures -> option R) -> option R)
    (k : str -> captures -> option R)
    (fuel : nat) (s : str) (c : captures) : option R :=
  match fuel with
  | O => k s c
  | S fuel' =>
      match
        body s c
          (fun s' c' =>
             if (length s' <? length s)%nat
             then repeat_matcher body k fuel' s' c'
             else None)
      with
      | Some x => Some x
      | None => k s c
      end
  end.

Fixpoint matcher {R : Type} (r : regex) (s : str) (c : captures)
    (k : str -> captures -> option R) : option R :=
  match r with
  | Eps => k s c
  | Chr a =>
      match s with
      | b :: s' => if Ascii.eqb a b then k s' c else None
      | [] => None
      end
  | Class cl =>
      match s with
      | b :: s' => if in_class cl b then k s' c else None
      | [] => None
      end
  | Seq r1 r2 => matcher r1 s c (fun s' c' => matcher r2 s' c' k)
  | Alt r1 r2 =>
      match matcher r1 s c k with
      | Some x => Some x
      | None => matcher r2 s c k
      end
  | Group i r1 =>
      matcher r1 s c
        (fun s' c' => k s' (set_capture i (take (length s - length s') s) c'))
  | Star r1 =>
      (* each round starts with the captures of the groups of [r1] cleared *)
      repeat_matcher
        (fun s' c' k' => matcher r1 s' (reset_captures (groups r1) c') k')
        k (length s) s c
  end.

(** The result of a successful [exec]: where the match starts, the text
    matched, and the captures. *)
Record match_result : Type := {
  index : nat;
  matched : str;
  groups_of : captures
}.

Definition match_at (r : regex) (i : nat) (s : str) : option match_result :=
  matcher r s no_captures
    (fun s' c =>
       Some {| index := i;
               matched := take (length s - length s') s;
               groups_of := c |}).

(** The leftmost match: [search r i s] tries every start position of [s],
    the end of the input included; [i] is the position of [s] in the whole
    subject. *)
Fixpoint search (r : regex) (i : nat) (s : str) : option match_result :=
  match match_at r i s with
  | Some mt => Some mt
  | None =>
      match s with
      | [] => None
      | _ :: s' => search r (S i) s'
      end
  end.

(** [reg.exec(value)] on a fresh RegExp: [None] stands for [null]. *)
Definition exec (reg : RegExp) (value : str) : option match_result :=
  search (pattern reg) 0 value.

(** The source destructures [[].concat(reg.exec(value))]: for a match this
    is the match array, whose element 1 is the first capture; for [null] it
    is the one-element array [[null]], whose element 1 is [undefined].
    Nothing is thrown in either case.  [None] stands for [undefined]. *)
Definition matchFirst (reg : RegExp) (value : str) : option str :=
  match exec reg value with
  | Some mt => groups_of mt 1%nat
  | None => None
  end.

(** *** String.prototype.replace *)

(** The text a capture contributes to a replacement: nothing when the
    group did not take part. *)
Definition capture_text (c : captures) (i : Z) : str :=
  match c (Z.to_nat i) with
  | Some x => x
  | None => []
  end.

(** Expansion of the [$] patterns of a replacement string (GetSubstitution):
    [$$], [$&], [$`], [$'], and [$n] or [$nn] when the pattern has that
    many groups; any other [$] stands for itself. *)
Fixpoint substitution (ngroups : Z) (before whole after : str) (c : captures)
    (tpl : str) : str :=
  let go := substitution ngroups before whole after c in
  match tpl with
  | [] => []
  | d :: rest =>
      if Ascii.eqb d "$" then
        match rest with
        | [] => [d]
        | c1 :: rest1 =>
            if Ascii.eqb c1 "$" then "$"%char :: go rest1
            else if Ascii.eqb c1 "&" then whole ++ go rest1
            else if Ascii.eqb c1 "`" then before ++ go rest1
            else if Ascii.eqb c1 "'" then after ++ go rest1
            else
              match digit_value c1 with
              | None => d :: go rest
              | Some d1 =>
                  let one_digit :=
                    if (1 <=? d1) && (d1 <=? ngroups)
                    then capture_text c d1 ++ go rest1
                    else d :: c1 :: go rest1 in
                  match rest1 with
                  | [] => one_digit
                  | c2 :: rest2 =>
                      match digit_value c2 with
                      | None => one_digit
                      | Some d2 =>
                          let i := 10 * d1 + d2 in
                          if ngroups <? i then one_digit
                          else if 1 <=? i then capture_text c i ++ go rest2
                          else d :: c1 :: c2 :: go rest2
                      end
                  end
              end
        end
      else d :: go rest
  end.

Definition replacement_for (r : regex) (subject : str) (mt : match_result)
    (tpl : str) : str :=
  substitution (Z.of_nat (length (groups r)))
    (take (index mt) subject) (matched mt)
    (drop (index mt + length (matched mt)) subject)
    (groups_of mt) tpl.

(** Replacement of every match, for a pattern with the [g] flag.
    [replace_from] returns the rewritten text of [subject] from position
    [pos] on.  After an empty match the search resumes one code unit
    further, and that code unit is copied. *)
Fixpoint replace_from (fuel : nat) (r : regex) (tpl subject : str) (pos : nat)
    : str :=
  match fuel with
  | O => drop pos subject
  | S fuel' =>
      match search r pos (drop pos subject) with
      | None => drop pos subject
      | Some mt =>
          let stop := (index mt + length (matched mt))%nat in
          take (index mt - pos) (drop pos subject)
          ++ replacement_for r subject mt tpl
          ++ match matched mt with
             | [] =>
                 take 1 (drop stop subject)
                 ++ (if (stop <? length subject)%nat
                     then replace_from fuel' r tpl subject (S stop)
                     else [])
             | _ :: _ => replace_from fuel' r tpl subject stop
             end
      end
  end.

(** [subject.replace(reg, tpl)] with a string replacement: the first match
    only, or every match when [reg] is global. *)
Definition replace (reg : RegExp) (tpl subject : str) : str :=
  if global reg then
    replace_from (S (length subject)) (pattern reg) tpl subject 0
  else
    match exec reg subject with
    | None => subject
    | Some mt =>
        take (index mt) subject
        ++ replacement_for (pattern reg) subject mt tpl
        ++ drop (index mt + length (matched mt)) subject
    end.

(** *** The patterns of the source *)

Definition squote : ascii := "'"%char.
Definition dquote : ascii := "034"%char.

(** The counter pattern of the project file, global: the text
    [CURRENT_PROJECT_VERSION = ], a group of one or more digits, and [;]. *)
Definition codeRegex : RegExp :=
  {| pattern :=
       Seq (Lit "CURRENT_PROJECT_VERSION = ")
         (Seq (Group 1 (Plus (Class Digit))) (Chr ";"));
     global := true |}.

(** The version pattern of the project file, global: the text
    [MARKETING_VERSION = ], a group of any run of code units of one line,
    and [;]. *)
Definition versionRegex : RegExp :=
  {| pattern :=
       Seq (Lit "MARKETING_VERSION = ")
         (Seq (Group 1 (Star (Class Dot))) (Chr ";"));
     global := true |}.

(** The counter pattern of the build file: the text [versionCode ] and a
    group of one or more digits. *)
Definition codeExp : RegExp :=
  {| pattern := Seq (Lit "versionCode ") (Group 1 (Plus (Class Digit)));
     global := false |}.

(** The pattern of the version name: the word [versionName], a space,
    and one group that is either a single-quoted or a double-quoted run of
    [.*] (the same quote on both sides). *)
Definition nameExp : RegExp :=
  {| pattern :=
       Seq (Lit "versionName ")
         (Group 1
            (Alt (Seq (Chr squote) (Seq (Star (Class Dot)) (Chr squote)))
                 (Seq (Chr dquote) (Seq (Star (Class Dot)) (Chr dquote)))));
     global := false |}.

(** The local [quotes] of [setVersionName]: one or more code units that
    are neither a double nor a single quote. *)
Definition quotes : RegExp :=
  {| pattern := Plus (Class (NoneOf [dquote; squote]));
     global := false |}.

(** The global pattern [getVersionName] strips the quotes with: one code
    unit that is a single or a double quote. *)
Definition quoteChars : RegExp :=
  {| pattern := Class (OneOf [squote; dquote]);
     global := true |}.

(** ** State and failure *)

(** A method runs on a state [S], changes it, and returns or throws; what
    it did to the state before throwing stays done. *)
Definition M (S A : Type) : Type := S -> outcome A * S.

Definition ret {S A} (a : A) : M S A := fun s => (Ok a, s).

Definition throw {S A} (e : exn) : M S A := fun s => (Throw e, s).

Definition bind {S A B} (m : M S A) (f : A -> M S B) : M S B :=
  fun s =>
    match m s with
    | (Ok a, s') => f a s'
    | (Throw e, s') => (Throw e, s')
    end.

Definition gets {S A} (f : S -> A) : M S A := fun s => (Ok (f s), s).

Definition modify {S} (f : S -> S) : M S unit := fun s => (Ok tt, f s).

(** Lifting a pure computation that may throw. *)
Definition lift {S A} (o : outcome A) : M S A := fun s => (o, s).

(** Running a computation on a part [T] of the state [S]. *)
Definition zoom {S T A} (view : S -> T) (update : T -> S -> S) (m : M T A)
    : M S A :=
  fun s => let '(r, t) := m (view s) in (r, update t s).

Definition when {S} (b : bool) (m : M S unit) : M S unit :=
  if b then m else ret tt.

Declare Scope monad_scope.
Delimit Scope monad_scope with monad.
Notation "x <- c1 ;; c2" := (bind c1 (fun x => c2))
  (at level 20, c1 at level 99, c2 at level 200) : monad_scope.
Notation "c1 ;; c2" := (bind c1 (fun _ => c2))
  (at level 100, c2 at level 200, right associativity) : monad_scope.
Open Scope monad_scope.

(** ** The file system and the console *)

(** The disk maps a path to the text of the file there.  [written] lists
    the calls of [fs.writeFileSync] in order and [console] the lines given
    to [console.log]. *)
Record World : Type := {
  disk : gmap str str;
  written : list (str * str);
  console : list str
}.

Definition write_disk (p data : str) (w : World) : World :=
  {| disk := <[p := data]> (disk w);
     written := written w ++ [(p, data)];
     console := console w |}.

Definition log_line (line : str) (w : World) : World :=
  {| disk := disk w;
     written := written w;
     console := console w ++ [line] |}.

(** The parsed manifest: its [version] member and the other members. *)
Record manifest : Type := {
  version : str;
  members : list (str * str)
}.

(** The record [saveVersionFile] serializes. *)
Record platform_info : Type := {
  versionName : option str;
  versionCode : number
}.

Record version_info : Type := {
  android : platform_info;
  ios : platform_info
}.

(** What Node and the JSON object give the program: [path.join],
    [require.resolve], and [JSON.parse] and [JSON.stringify] at the two
    types they are used at.  [write_error p] is the error, if any, that
    [fs.writeFileSync] raises when it has to create a file at [p], such
    as ENOENT for a directory that does not exist; the program creates
    and removes no directory, so this does not change during a run. *)
Class Runtime : Type := {
  path_join : list str -> str;
  require_resolve : str -> outcome str;
  JSON_parse : str -> outcome manifest;
  JSON_stringify_manifest : manifest -> str;
  JSON_stringify_info : version_info -> str;
  write_error : str -> option exn
}.

(** The result of a bump or set operation. *)
Record change (A B : Type) : Type := {
  current : A;
  next : B
}.
Arguments current {A B} c.
Arguments next {A B} c.

(** Unary [+] on the first capture of the counter pattern: [undefined]
    gives NaN and a run of digits its value.  (On other strings unary [+]
    differs from [parseInt]; none reaches it, the capture being [(\d+)].) *)
Definition to_number (v : option str) : number :=
  match v with
  | None => NaN
  | Some s =>
      if forallb is_digit s then
        match s with
        | [] => Fin 0
        | _ => round64 (digits_to_Z (leading_digits s))
        end
      else NaN
  end.

(** ** Managers *)

(** [basePath] is the result of calling the path function the manager was
    built with; [content] is the cached buffer, [None] for [null];
    [resolved] counts the calls of the path function so far. *)
Record BaseFileManager : Type := {
  basePath : outcome str;
  content : option str;
  resolved : nat
}.

Definition new_manager (path : outcome str) : BaseFileManager :=
  {| basePath := path; content := None; resolved := 0 |}.

Definition set_content (c : str) (m : BaseFileManager) : BaseFileManager :=
  {| basePath := basePath m; content := Some c; resolved := resolved m |}.

Definition count_resolve (m : BaseFileManager) : BaseFileManager :=
  {| basePath := basePath m; content := content m;
     resolved := S (resolved m) |}.

(** A manager together with the world it reads and writes. *)
Definition FM : Type := BaseFileManager * World.

(** [this.basePath()] *)
Definition call_basePath : M FM str :=
  fun '(m, w) => (basePath m, (count_resolve m, w)).

(** [fs.readFileSync(p, "utf8")] *)
Definition readFileSync {S} (world : S -> World) (p : str) : M S str :=
  fun s =>
    match disk (world s) !! p with
    | Some text => (Ok text, s)
    | None => (Throw (SystemError "ENOENT" p), s)
    end.

(** [writeFile(fPath, file)] as the managers call it.  A manager writes
    only a buffer it has loaded, so it overwrites the file it has read;
    in this model that write does not fail.  The version file is a new
    file, and its write can fail: see [saveVersionFile]. *)
Definition writeFile (fPath file : str) : M FM unit :=
  modify (fun '(m, w) => (m, write_disk fPath file w)).

(** [this.content = text] *)
Definition put_content (text : str) : M FM unit :=
  modify (fun '(m, w) => (set_content text m, w)).

Definition read : M FM str :=
  c <- gets (fun s => content (fst s)) ;;
  match c with
  | Some text => ret text
  | None =>
      p <- call_basePath ;;
      text <- readFileSync snd p ;;
      put_content text ;;
      ret text
  end.

(** [if (this.content)]: [null] and the empty string are both falsy. *)
Definition truthy (c : option str) : bool :=
  match c with
  | Some (_ :: _) => true
  | _ => false
  end.

Definition write : M FM unit :=
  c <- gets (fun s => content (fst s)) ;;
  match c with
  | Some ((_ :: _) as text) =>
      p <- call_basePath ;;
      writeFile p text
  | _ => ret tt
  end.

Module PBXManager.

Definition bumpProjectVersion : M FM (change number number) :=
  currentFile <- read ;;
  let currentCode :=
    parseDecimal (ToString (matchFirst codeRegex currentFile)) in
  let nextCode := num_add currentCode (Fin 1) in
  put_content
    (replace codeRegex
       ("CURRENT_PROJECT_VERSION = " ++ num_to_string nextCode ++ ";")
       currentFile) ;;
  ret {| current := currentCode; next := nextCode |}.

Definition setMarketingVersion (nextVersion : str)
    : M FM (change (option str) str) :=
  currentFile <- read ;;
  let currentVersion := matchFirst versionRegex currentFile in
  put_content
    (replace versionRegex ("MARKETING_VERSION = " ++ nextVersion ++ ";")
       currentFile) ;;
  ret {| current := currentVersion; next := nextVersion |}.

Definition getCurrentMarketingVersion : M FM (option str) :=
  currentFile <- read ;;
  ret (matchFirst versionRegex currentFile).

Definition getCurrentProjectVersion : M FM number :=
  currentFile <- read ;;
  ret (to_number (matchFirst codeRegex currentFile)).

End PBXManager.

Module BuildGradleManager.

Definition bumpCode : M FM (change number number) :=
  currentFile <- read ;;
  let versionMatch := matchFirst codeExp currentFile in
  let current := parseDecimal (ToString versionMatch) in
  let next := num_add current (Fin 1) in
  if isNaN next then
    throw (Error ("Invalid versionCode version parsed ("
                  ++ ToString versionMatch ++ ")"))
  else
    put_content
      (replace codeExp ("versionCode " ++ num_to_string next) currentFile) ;;
    ret {| current := current; next := next |}.

Definition setVersionName (next : str) : M FM (change str str) :=
  currentFile <- read ;;
  match matchFirst nameExp currentFile with
  | None => throw (TypeError "replace")
  | Some current =>
      let newVersionName := replace quotes next current in
      put_content
        (replace nameExp ("versionName " ++ newVersionName) currentFile) ;;
      ret {| current := current; next := next |}
  end.

Definition getVersionName : M FM str :=
  currentFile <- read ;;
  match matchFirst nameExp currentFile with
  | None => throw (TypeError "replace")
  | Some name => ret (replace quoteChars [] name)
  end.

Definition getVersionCode : M FM number :=
  currentFile <- read ;;
  ret (parseDecimal (ToString (matchFirst codeExp currentFile))).

End BuildGradleManager.

Module PackageJSONManager.

(** The manifest manager keeps the parsed manifest, not its text. *)
Record t : Type := {
  basePath : outcome str;
  content : option manifest;
  resolved : nat
}.

Definition new (path : outcome str) : t :=
  {| basePath := path; content := None; resolved := 0 |}.

Definition set_content (c : manifest) (m : t) : t :=
  {| basePath := basePath m; content := Some c; resolved := resolved m |}.

Definition count_resolve (m : t) : t :=
  {| basePath := basePath m; content := content m;
     resolved := S (resolved m) |}.

Definition call_basePath : M (t * World) str :=
  fun '(m, w) => (basePath m, (count_resolve m, w)).

Section WithRuntime.
Context {rt : Runtime}.

Definition read : M (t * World) manifest :=
  c <- gets (fun s => content (fst s)) ;;
  match c with
  | Some parsed => ret parsed
  | None =>
      p <- call_basePath ;;
      resolved_path <- lift (require_resolve p) ;;
      raw <- readFileSync snd resolved_path ;;
      parsed <- lift (JSON_parse raw) ;;
      modify (fun '(m, w) => (set_content parsed m, w)) ;;
      ret parsed
  end.

(** A parsed manifest is an object, hence truthy. *)
Definition write : M (t * World) unit :=
  c <- gets (fun s => content (fst s)) ;;
  match c with
  | Some parsed =>
      p <- call_basePath ;;
      modify (fun '(m, w) =>
                (m, write_disk p (JSON_stringify_manifest parsed) w))
  | None => ret tt
  end.

Definition getVersion : M (t * World) str :=
  parsed <- read ;;
  ret (version parsed).

Definition setVersion (next : str) : M (t * World) (change str str) :=
  current <- getVersion ;;
  modify (fun '(m, w) =>
            match content m with
            | Some parsed =>
                (set_content
                   {| version := next; members := members parsed |} m, w)
            | None => (m, w)
            end) ;;
  ret {| current := current; next := next |}.

End WithRuntime.

End PackageJSONManager.

(** ** The orchestrator *)

(** The configuration.  [type] is declared as one of the three release
    kinds but arrives from the command line as any string, or not at all;
    the two skip lists likewise hold arbitrary tokens.  The two path
    functions are given by what calling them yields. *)
Record Configs : Type := {
  type : option str;
  semver : option str;
  skipSemverFor : list str;
  skipCodeFor : list str;
  versionFile : option str;
  root : str;
  pbxprojPath : outcome str;
  buildGradlePath : outcome str
}.

(** [list.includes(x)] *)
Definition includes (l : list str) (x : str) : bool := existsb (str_eqb x) l.

(** [!type] and [versionFile && ...]: [undefined] and the empty string
    are falsy. *)
Definition falsy (v : option str) : bool := negb (truthy v).

Module ProjectFilesManager.

Record t : Type := {
  pbx : BaseFileManager;
  buildGradle : BaseFileManager;
  packageJSON : PackageJSONManager.t;
  world : World
}.

Definition on_pbx {A} (m : M FM A) : M t A :=
  zoom (fun s => (pbx s, world s))
    (fun '(m', w) s =>
       {| pbx := m'; buildGradle := buildGradle s;
          packageJSON := packageJSON s; world := w |}) m.

Definition on_buildGradle {A} (m : M FM A) : M t A :=
  zoom (fun s => (buildGradle s, world s))
    (fun '(m', w) s =>
       {| pbx := pbx s; buildGradle := m';
          packageJSON := packageJSON s; world := w |}) m.

Definition on_packageJSON {A} (m : M (PackageJSONManager.t * World) A)
    : M t A :=
  zoom (fun s => (packageJSON s, world s))
    (fun '(m', w) s =>
       {| pbx := pbx s; buildGradle := buildGradle s;
          packageJSON := m'; world := w |}) m.

Definition console_log (line : str) : M t unit :=
  modify (fun s =>
            {| pbx := pbx s; buildGradle := buildGradle s;
               packageJSON := packageJSON s;
               world := log_line line (world s) |}).

Section WithRuntime.
Context {rt : Runtime}.

(** [new ProjectFilesManager(configs)] in a given world. *)
Definition new (configs : Configs) (w : World) : t :=
  {| pbx := new_manager (pbxprojPath configs);
     buildGradle := new_manager (buildGradlePath configs);
     packageJSON :=
       PackageJSONManager.new
         (Ok (path_join [root configs; "package.json"]));
     world := w |}.

Definition syncSemver (configs : Configs) (semverString : str)
    : M t unit :=
  when (negb (includes (skipSemverFor configs) "ios"))
    (r <- on_pbx (PBXManager.setMarketingVersion semverString) ;;
     console_log ("iOS project.pbxproj version: "
                  ++ ToString (current r) ++ " -> " ++ next r)) ;;
  when (negb (includes (skipSemverFor configs) "android"))
    (r <- on_buildGradle (BuildGradleManager.setVersionName semverString) ;;
     console_log ("Android gradle.build version: "
                  ++ current r ++ " -> " ++ next r)) ;;
  r <- on_packageJSON (PackageJSONManager.setVersion semverString) ;;
  console_log ("package.json: " ++ current r ++ " -> " ++ next r).

Definition bumpCodes (configs : Configs) : M t unit :=
  when (negb (includes (skipCodeFor configs) "ios"))
    (r <- on_pbx PBXManager.bumpProjectVersion ;;
     console_log ("iOS project.pbxproj code: "
                  ++ num_to_string (current r) ++ " -> "
                  ++ num_to_string (next r))) ;;
  when (negb (includes (skipCodeFor configs) "android"))
    (r <- on_buildGradle BuildGradleManager.bumpCode ;;
     console_log ("Android build.gradle code: "
                  ++ num_to_string (current r) ++ " -> "
                  ++ num_to_string (next r))).

(** [type ?? "minor"] *)
Definition type_or_minor (configs : Configs) : option str :=
  match type configs with
  | Some k => Some k
  | None => Some "minor"
  end.

Definition dryRun (configs : Configs) : M t unit :=
  current <- on_packageJSON PackageJSONManager.getVersion ;;
  next <- match semver configs with
          | Some v => ret v
          | None => lift (incrementSemVer current (type_or_minor configs))
          end ;;
  when (negb (includes (skipCodeFor configs) "all")) (bumpCodes configs) ;;
  when (negb (includes (skipSemverFor configs) "all"))
    (if falsy (type configs)
     then throw (Error "SemVer type not specified")
     else syncSemver configs next).

(** [saveVersionFile]: the four getters in the order of the object
    literal, then the write of the version file, which fails when the
    file cannot be created, then the line on the console. *)
Definition saveVersionFile (configs : Configs) (versionFile : str)
    : M t unit :=
  androidName <- on_buildGradle BuildGradleManager.getVersionName ;;
  androidCode <- on_buildGradle BuildGradleManager.getVersionCode ;;
  iosName <- on_pbx PBXManager.getCurrentMarketingVersion ;;
  iosCode <- on_pbx PBXManager.getCurrentProjectVersion ;;
  let info :=
    {| android := {| versionName := Some androidName;
                     versionCode := androidCode |};
       ios := {| versionName := iosName; versionCode := iosCode |} |} in
  let filePath := path_join [root configs; versionFile] in
  match write_error filePath with
  | Some e => throw e
  | None =>
      modify (fun s =>
                {| pbx := pbx s; buildGradle := buildGradle s;
                   packageJSON := packageJSON s;
                   world := write_disk filePath (JSON_stringify_info info)
                              (world s) |})
  end ;;
  console_log ("Version file saved at: " ++ filePath).

Definition run (configs : Configs) : M t unit :=
  dryRun configs ;;
  on_pbx write ;;
  on_buildGradle write ;;
  on_packageJSON PackageJSONManager.write ;;
  match versionFile configs with
  | Some ((_ :: _) as name) => saveVersionFile configs name
  | _ => ret tt
  end.

(** The steps of [dryRun] that come before the test of the release
    kind, returning the target version they computed. *)
Definition before_kind_check (configs : Configs) : M t str :=
  current <- on_packageJSON PackageJSONManager.getVersion ;;
  next <- match semver configs with
          | Some v => ret v
          | None => lift (incrementSemVer current (type_or_minor configs))
          end ;;
  when (negb (includes (skipCodeFor configs) "all")) (bumpCodes configs) ;;
  ret next.

End WithRuntime.

End ProjectFilesManager.

(** ** Vocabulary of the statements *)

(** The operations of a file manager, for statements about sequences of
    calls.  A sequence stops at the first call that throws, as the program
    catches nothing. *)
Inductive operation : Type :=
| op_read
| op_write
| op_bumpProjectVersion
| op_setMarketingVersion (nextVersion : str)
| op_getCurrentMarketingVersion
| op_getCurrentProjectVersion
| op_bumpCode
| op_setVersionName (next : str)
| op_getVersionName
| op_getVersionCode.

Definition perform (o : operation) : M FM unit :=
  match o with
  | op_read => read ;; ret tt
  | op_write => write
  | op_bumpProjectVersion => PBXManager.bumpProjectVersion ;; ret tt
  | op_setMarketingVersion v => PBXManager.setMarketingVersion v ;; ret tt
  | op_getCurrentMarketingVersion =>
      PBXManager.getCurrentMarketingVersion ;; ret tt
  | op_getCurrentProjectVersion =>
      PBXManager.getCurrentProjectVersion ;; ret tt
  | op_bumpCode => BuildGradleManager.bumpCode ;; ret tt
  | op_setVersionName v => BuildGradleManager.setVersionName v ;; ret tt
  | op_getVersionName => BuildGradleManager.getVersionName ;; ret tt
  | op_getVersionCode => BuildGradleManager.getVersionCode ;; ret tt
  end.

Fixpoint perform_all (ops : list operation) : M FM unit :=
  match ops with
  | [] => ret tt
  | o :: ops' => perform o ;; perform_all ops'
  end.

Definition is_write (o : operation) : bool :=
  match o with op_write => true | _ => false end.

Definition count_writes (ops : list operation) : nat :=
  length (filter (fun o => is_write o = true) ops).

(** A configuration with another release kind. *)
Definition with_type (k : option str) (configs : Configs) : Configs :=
  {| type := k;
     semver := semver configs;
     skipSemverFor := skipSemverFor configs;
     skipCodeFor := skipCodeFor configs;
     versionFile := versionFile configs;
     root := root configs;
     pbxprojPath := pbxprojPath configs;
     buildGradlePath := buildGradlePath configs |}.

(** The rest of the line: the code units before the first line
    terminator. *)
Fixpoint line_rest (s : str) : str :=
  match s with
  | [] => []
  | c :: s' => if is_line_terminator c then [] else c :: line_rest s'
  end.

Definition is_quote (c : ascii) : bool := mem c [dquote; squote].

(** The disk and the list of writes are the same in [w'] as in [w]. *)
Definition untouched (w w' : World) : Prop :=
  disk w' = disk w /\ written w' = written w.

(** A computation that writes no file, whatever state it starts from and
    whether it returns or throws. *)
Definition read_only {S A} (world : S -> World) (f : M S A) : Prop :=
  forall s, untouched (world s) (world (snd (f s))).

(** The calls of the path function a manager can still make without
    writing: one if its buffer is not loaded yet, none afterwards. *)
Definition pending_resolve (m : BaseFileManager) : nat :=
  match content m with
  | Some _ => 0
  | None => 1
  end.

(** [s.indexOf(needle)]: the position of the first occurrence. *)
Fixpoint index_from (needle : str) (i : nat) (s : str) : option nat :=
  if starts_with needle s then Some i
  else
    match s with
    | [] => None
    | _ :: s' => index_from needle (S i) s'
    end.

Definition indexOf (needle s : str) : option nat := index_from needle 0 s.

(** The greedy loop of a starred class, by recursion on the input: what
    [matcher (Star (Class cl))] computes (lemma [matcher_star_class]). *)
Fixpoint star_class {R : Type} (cl : char_class)
    (k : str -> captures -> option R) (s : str) (c : captures) : option R :=
  match s with
  | b :: s' =>
      if in_class cl b then
        match star_class cl k s' c with
        | Some x => Some x
        | None => k s c
        end
      else k s c
  | [] => k s c
  end.

(** [pieces.join(sep)] on an array of strings. *)
Fixpoint join_strings (sep : str) (pieces : list str) : str :=
  match pieces with
  | [] => []
  | [x] => x
  | x :: rest => x ++ sep ++ join_strings sep rest
  end.

(** The digits of a decimal numeral, the most significant first. *)
Fixpoint uint_digits (d : Decimal.uint) : list Z :=
  match d with
  | Decimal.Nil => []
  | Decimal.D0 d' => 0 :: uint_digits d'
  | Decimal.D1 d' => 1 :: uint_digits d'
  | Decimal.D2 d' => 2 :: uint_digits d'
  | Decimal.D3 d' => 3 :: uint_digits d'
  | Decimal.D4 d' => 4 :: uint_digits d'
  | Decimal.D5 d' => 5 :: uint_digits d'
  | Decimal.D6 d' => 6 :: uint_digits d'
  | Decimal.D7 d' => 7 :: uint_digits d'
  | Decimal.D8 d' => 8 :: uint_digits d'
  | Decimal.D9 d' => 9 :: uint_digits d'
  end.

(** A part of the state that a computation leaves as it found it,
    whatever state it starts from and whether it returns or throws. *)
Definition keeps {S A X} (part : S -> X) (f : M S A) : Prop :=
  forall s, part (snd (f s)) = part s.

(** A text made of marked fields: before each field comes any text, then
    the mark [lead], the value of the field and the closing text [close];
    [tail] follows the last field. *)
Fixpoint fields_text (lead close : str) (fields : list (str * str))
    (tail : str) : str :=
  match fields with
  | [] => tail
  | (before, value) :: more =>
      before ++ lead ++ value ++ close ++ fields_text lead close more tail
  end.

(** A phase leaves a platform out when its skip list names the platform
    or names "all". *)
Definition skips (l : list str) (platform : str) : bool :=
  includes l platform || includes l "all".

(** The steps of [run] that come before the version file: the dry run
    and the three writes. *)
Definition write_phase {rt : Runtime} (configs : Configs)
    : M ProjectFilesManager.t unit :=
  ProjectFilesManager.dryRun configs ;;
  ProjectFilesManager.on_pbx write ;;
  ProjectFilesManager.on_buildGradle write ;;
  ProjectFilesManager.on_packageJSON PackageJSONManager.write.

(** The paths of the three managers, as their path functions give
    them. *)
Definition paths (s : ProjectFilesManager.t)
    : outcome str * outcome str * outcome str :=
  (basePath (ProjectFilesManager.pbx s),
   basePath (ProjectFilesManager.buildGradle s),
   PackageJSONManager.basePath (ProjectFilesManager.packageJSON s)).

(** [q] is the path of none of the three managers. *)
Definition off_paths (q : str) (s : ProjectFilesManager.t) : Prop :=
  basePath (ProjectFilesManager.pbx s) <> Ok q
  /\ basePath (ProjectFilesManager.buildGradle s) <> Ok q
  /\ PackageJSONManager.basePath (ProjectFilesManager.packageJSON s) <> Ok q.

(** A computation that leaves the file at [q] alone whenever [q] is the
    path of none of the three managers. *)
Definition spares {A} (q : str) (f : M ProjectFilesManager.t A) : Prop :=
  forall s,
    off_paths q s ->
    disk (ProjectFilesManager.world (snd (f s))) !! q
    = disk (ProjectFilesManager.world s) !! q.

(** The fields of [fields_text lead close fields tail] are where the
    pattern of the field will find them: [lead] occurs neither in the text
    before a field (its first occurrence in [before ++ lead] is the one at
    the end) nor in [tail], and [value_ok] holds of every value together
    with the text that follows its closing text. *)
Fixpoint fields_ok (lead close : str) (value_ok : str -> str -> Prop)
    (fields : list (str * str)) (tail : str) : Prop :=
  match fields with
  | [] => indexOf lead tail = None
  | (before, value) :: more =>
      indexOf lead (before ++ lead) = Some (length before)
      /\ value_ok value (fields_text lead close more tail)
      /\ fields_ok lead close value_ok more tail
  end.

(** The value of a counter field is a non-empty run of digits. *)
Definition counter_value (value rest : str) : Prop :=
  value <> [] /\ forallb is_digit value = true.

(** The value of a version field holds no line terminator, and no [;]
    follows on the line after the one that closes the field. *)
Definition version_value (value rest : str) : Prop :=
  forallb (fun c => negb (is_line_terminator c)) value = true
  /\ ~ In ";"%char (line_rest rest).

(** The same fields with another value in each. *)
Definition with_value (value : str) (fields : list (str * str))
    : list (str * str) :=
  map (fun f => (fst f, value)) fields.

(** The path a manager writes at, if its path function returns one. *)
Definition written_path (p : outcome str) : list str :=
  match p with
  | Ok q => [q]
  | Throw _ => []
  end.

(** The path of the version file, if one is asked for. *)
Definition version_file_path {rt : Runtime} (configs : Configs) : list str :=
  match versionFile configs with
  | Some ((_ :: _) as name) => [path_join [root configs; name]]
  | _ => []
  end.

(** The places [run] can write at, in the order of its writes: the
    project file, the build file, the manifest and the version file. *)
Definition targets {rt : Runtime} (configs : Configs)
    (s : ProjectFilesManager.t) : list str :=
  written_path (basePath (ProjectFilesManager.pbx s))
  ++ written_path (basePath (ProjectFilesManager.buildGradle s))
  ++ written_path
       (PackageJSONManager.basePath (ProjectFilesManager.packageJSON s))
  ++ version_file_path configs.

(** A computation that only appends to the list of writes, and whose
    writes go, in this order and at most once each, to some of the
    [places]. *)
Definition writes_within {A} (places : ProjectFilesManager.t -> list str)
    (f : M ProjectFilesManager.t A) : Prop :=
  forall s,
    exists added,
      written (ProjectFilesManager.world (snd (f s)))
      = written (ProjectFilesManager.world s) ++ added
      /\ sublist (map fst added) (places s).

(** ** The entry points *)

(** [apiVersioner(configs)] is [new ProjectFilesManager(configs)]. *)
Definition apiVersioner {rt : Runtime} (configs : Configs) (w : World)
    : ProjectFilesManager.t :=
  ProjectFilesManager.new configs w.

(** [subject.replace(pat, tpl)] with a string pattern: the first
    occurrence of [pat] is replaced, the [$] patterns of [tpl] being
    expanded as for a pattern without groups. *)
Definition replace_string (pat tpl subject : str) : str :=
  match indexOf pat subject with
  | None => subject
  | Some i =>
      let before := take i subject in
      let after := drop (i + length pat) subject in
      before ++ substitution 0 before pat after no_captures tpl ++ after
  end.

(** What the React Native CLI hands to [versioner]: the project
    configuration, every part of which may be missing, and the raw values
    of the command-line flags. *)
Module XcodeProject.
Record t : Type := { name : str }.
End XcodeProject.

Module Ios.
Record t : Type := {
  sourceDir : option str;
  pbxprojPath : option str;
  xcodeProject : option XcodeProject.t
}.
End Ios.

Module Android.
Record t : Type := {
  sourceDir : option str;
  appName : option str
}.
End Android.

Module Project.
Record t : Type := {
  ios : option Ios.t;
  android : option Android.t
}.
End Project.

Module CliConfigs.
Record t : Type := {
  root : option str;
  project : option Project.t
}.
End CliConfigs.

Module CliArgs.
Record t : Type := {
  skipCodeFor : option str;
  skipSemverFor : option str;
  versionFile : option str;
  semver : option str;
  type : option str
}.
End CliArgs.

(** The message of the error thrown by [required]. *)
Definition required_message (value name : str) : str :=
  "Value for " ++ name ++ " is '" ++ value
  ++ "', maybe RN cli broke compatibility?".

(** [required(value, name)] on a string that may be missing: [undefined]
    and the empty string are falsy. *)
Definition required_string (value : option str) (name : str) : outcome str :=
  match value with
  | Some ((_ :: _) as v) => Ok v
  | _ => Throw (Error (required_message (ToString value) name))
  end.

(** [required(value, name)] on an object that may be missing. *)
Definition required_object {A} (value : option A) (name : str) : outcome A :=
  match value with
  | Some v => Ok v
  | None => Throw (Error (required_message "undefined" name))
  end.

(** Sequencing of computations that may throw, outside any state. *)
Definition and_then {A B} (o : outcome A) (f : A -> outcome B) : outcome B :=
  match o with
  | Ok a => f a
  | Throw e => Throw e
  end.

(** [flag ? flag.split(" ") : []] *)
Definition skip_list (flag : option str) : list str :=
  match flag with
  | Some ((_ :: _) as tokens) => split " " tokens
  | _ => []
  end.

(** [cliConfigs?.project?.ios] and [cliConfigs?.project?.android] *)
Definition project_ios (cliConfigs : CliConfigs.t) : option Ios.t :=
  match CliConfigs.project cliConfigs with
  | Some p => Project.ios p
  | None => None
  end.

Definition project_android (cliConfigs : CliConfigs.t) : option Android.t :=
  match CliConfigs.project cliConfigs with
  | Some p => Project.android p
  | None => None
  end.

Module Versioner.
Section WithRuntime.
Context {rt : Runtime}.

(** What calling the [pbxprojPath] function built by [versioner] yields. *)
Definition pbxprojPath_of (cliConfigs : CliConfigs.t) : outcome str :=
  and_then (required_object (project_ios cliConfigs) "project.ios")
    (fun iosProject =>
       match Ios.pbxprojPath iosProject with
       | Some ((_ :: _) as explicit) => Ok explicit
       | _ =>
           and_then
             (required_string (Ios.sourceDir iosProject)
                "project.ios.sourceDir")
             (fun dir =>
                and_then
                  (required_object (Ios.xcodeProject iosProject)
                     "project.ios.xcodeProject")
                  (fun xcode =>
                     Ok (path_join
                           [dir;
                            replace_string ".xcworkspace" ".xcodeproj"
                              (XcodeProject.name xcode);
                            "project.pbxproj"])))
       end).

(** What calling the [buildGradlePath] function yields. *)
Definition buildGradlePath_of (cliConfigs : CliConfigs.t) : outcome str :=
  and_then (required_object (project_android cliConfigs) "project.android")
    (fun androidProject =>
       and_then
         (required_string (Android.sourceDir androidProject)
            "project.android.sourceDir")
         (fun dir =>
            and_then
              (required_string (Android.appName androidProject)
                 "project.android.appName")
              (fun app => Ok (path_join [dir; app; "build.gradle"])))).

(** [versioner(cliConfigs, cliArgs)]: [None] stands for the [undefined]
    returned when everything is skipped; otherwise the result is the
    configuration whose manager [apiVersioner] builds.  Of the members of
    that configuration only [root] is computed at once; the two path
    functions are built, not called. *)
Definition versioner (cliConfigs : CliConfigs.t) (cliArgs : CliArgs.t)
    : M World (option Configs) :=
  if is_kind (CliArgs.skipCodeFor cliArgs) "all"
     && is_kind (CliArgs.skipSemverFor cliArgs) "all"
  then
    modify (log_line "Skipped version update") ;;
    ret None
  else
    root <- lift (required_string (CliConfigs.root cliConfigs) "root") ;;
    ret (Some
           {| type := CliArgs.type cliArgs;
              semver := CliArgs.semver cliArgs;
              skipSemverFor := skip_list (CliArgs.skipSemverFor cliArgs);
              skipCodeFor := skip_list (CliArgs.skipCodeFor cliArgs);
              versionFile := CliArgs.versionFile cliArgs;
              root := root;
              pbxprojPath := pbxprojPath_of cliConfigs;
              buildGradlePath := buildGradlePath_of cliConfigs |}).

End WithRuntime.
End Versioner.

(** ** A small runtime for the examples *)

(** Enough of Node to run the examples: paths are joined with a slash,
    [require.resolve] finds every path, and the manifest is the one-member
    object whose text is [{"version":"V"}]. *)
Module Demo.

Definition join_paths (parts : list str) : str :=
  match parts with
  | [] => "."
  | p :: ps => fold_left (fun acc q => acc ++ "/" ++ q) ps p
  end.

Definition manifest_open : str :=
  "{" ++ dquote :: "version" ++ dquote :: ":" ++ [dquote].

Definition manifest_close : str := [dquote; "}"%char].

Definition parse (raw : str) : outcome manifest :=
  let body := drop (length manifest_open) raw in
  let v := take (length body - length manifest_close) body in
  if str_eqb raw (manifest_open ++ v ++ manifest_close) && negb (mem dquote v)
  then Ok {| version := v; members := [] |}
  else Throw (SyntaxError "Unexpected token").

Definition newline : str := ["010"%char].

Definition stringify_manifest (m : manifest) : str :=
  "{" ++ newline ++ "  " ++ dquote :: "version" ++ dquote :: ": "
  ++ dquote :: version m ++ dquote :: newline ++ "}".

Definition stringify_platform (p : platform_info) : str :=
  "{" ++ match versionName p with
         | Some n =>
             dquote :: "versionName" ++ dquote :: ":"
             ++ dquote :: n ++ dquote :: ","
         | None => []
         end
  ++ dquote :: "versionCode" ++ dquote :: ":"
  ++ (if isNaN (versionCode p) then "null" else num_to_string (versionCode p))
  ++ "}".

Definition stringify_info (i : version_info) : str :=
  "{" ++ dquote :: "android" ++ dquote :: ":" ++ stringify_platform (android i)
  ++ "," ++ dquote :: "ios" ++ dquote :: ":" ++ stringify_platform (ios i)
  ++ "}".

Definition runtime : Runtime :=
  {| path_join := join_paths;
     require_resolve := Ok;
     JSON_parse := parse;
     JSON_stringify_manifest := stringify_manifest;
     JSON_stringify_info := stringify_info;
     write_error := fun _ => None |}.

(** The files of the example in the README: manifest 1.10.6, project
    counter 24, build counter 23. *)
Definition manifest_text (v : str) : str :=
  manifest_open ++ v ++ manifest_close.

Definition pbxproj_text : str :=
  "CURRENT_PROJECT_VERSION = 24;" ++ newline
  ++ "MARKETING_VERSION = 1.10.6;" ++ newline
  ++ "CURRENT_PROJECT_VERSION = 24;" ++ newline
  ++ "MARKETING_VERSION = 1.10.6;" ++ newline.

Definition gradle_text : str :=
  "    versionCode 23" ++ newline
  ++ "    versionName " ++ dquote :: "1.10.6" ++ dquote :: newline.

Definition pbxproj_path : str := "/app/ios/App.xcodeproj/project.pbxproj".

Definition gradle_path : str := "/app/android/app/build.gradle".

Definition files : gmap str str :=
  {[ "/app/package.json" := manifest_text "1.10.6";
     pbxproj_path := pbxproj_text;
     gradle_path := gradle_text ]}.

(** A manager whose buffer holds [text], loaded by one call of its path
    function. *)
Definition loaded (path text : str) : BaseFileManager :=
  {| basePath := Ok path; content := Some text; resolved := 1 |}.

Definition world : World :=
  {| disk := files; written := []; console := [] |}.

Definition configs : Configs :=
  {| type := Some "patch";
     semver := None;
     skipSemverFor := [];
     skipCodeFor := [];
     versionFile := Some "version.json";
     root := "/app";
     pbxprojPath := Ok pbxproj_path;
     buildGradlePath := Ok gradle_path |}.

End Demo.

(** * Properties *)

(** ** The example of the README *)

(** A patch release on manifest 1.10.6 with counters 24 and 23: [run]
    reports the five changes and the version file, in this order.  (The
    old value of the build file is reported with its quotes.) *)
Example run_on_the_README_project :
  let s := @ProjectFilesManager.new Demo.runtime Demo.configs Demo.world in
  let result := @ProjectFilesManager.run Demo.runtime Demo.configs s in
  fst result = Ok tt
  /\ console (ProjectFilesManager.world (snd result))
     = [ "iOS project.pbxproj code: 24 -> 25";
         "Android build.gradle code: 23 -> 24";
         "iOS project.pbxproj version: 1.10.6 -> 1.10.7";
         "Android gradle.build version: " ++ dquote :: "1.10.6"
           ++ dquote :: " -> 1.10.7";
         "package.json: 1.10.6 -> 1.10.7";
         "Version file saved at: /app/version.json" ]
  /\ map fst (written (ProjectFilesManager.world (snd result)))
     = [ Demo.pbxproj_path; Demo.gradle_path; "/app/package.json";
         "/app/version.json" ].
Proof. repeat split; vm_compute; reflexivity. Qed.

(** ** The runtime functions on known values *)

Example parseInt_examples :
  parseInt "  -42abc" = Fin (-42)
  /\ parseInt "+7" = Fin 7
  /\ parseInt "1e3" = Fin 1
  /\ parseInt "" = NaN
  /\ parseInt "undefined" = NaN
  /\ parseInt "9007199254740993" = Fin 9007199254740992.
Proof. repeat split; vm_compute; reflexivity. Qed.

(** 2^60 and 2^70 are doubles; they print with the shortest digits that
    read back as the same double. *)
Example num_to_string_examples :
  num_to_string (Fin (-42)) = "-42"
  /\ num_to_string (Fin (2 ^ 60)) = "1152921504606847000"
  /\ num_to_string (Fin (2 ^ 70)) = "1.1805916207174113e+21"
  /\ num_to_string (Fin (10 ^ 21)) = "1e+21"
  /\ num_to_string (num_add (Fin (2 ^ 53)) (Fin 1)) = "9007199254740992".
Proof. repeat split; vm_compute; reflexivity. Qed.

Example split_examples :
  split "." "1.10.6" = ["1"; "10"; "6"]
  /\ split "." "" = [[]]
  /\ split "." "a..b." = ["a"; []; "b"; []]
  /\ split "ab" "xabyabab" = ["x"; "y"; []; []].
Proof. repeat split; reflexivity. Qed.

(** Versions with fewer than three components: the missing ones are
    [undefined], which adds to NaN and joins as the empty string. *)
Example incrementSemVer_short_versions :
  incrementSemVer "1.10" (Some "patch") = Ok "1.10.NaN"
  /\ incrementSemVer "1" (Some "patch") = Ok "1..NaN"
  /\ incrementSemVer "1" (Some "major") = Ok "2.0.0"
  /\ incrementSemVer "1.2.3.4" (Some "minor") = Ok "1.3.0".
Proof. repeat split; vm_compute; reflexivity. Qed.

Example replace_examples :
  replace codeExp "versionCode 24" "a versionCode 23 versionCode 23"
  = "a versionCode 24 versionCode 23"
  /\ replace codeRegex "CURRENT_PROJECT_VERSION = 25;"
       "CURRENT_PROJECT_VERSION = 24; CURRENT_PROJECT_VERSION = 7;"
     = "CURRENT_PROJECT_VERSION = 25; CURRENT_PROJECT_VERSION = 25;"
  /\ replace nameExp "[$1|$$|$&|$2]" "x versionName '1.0' y"
     = "x ['1.0'|$|versionName '1.0'|$2] y"
  /\ replace {| pattern := Star (Chr "a"); global := true |} "-" "baac"
     = "-b--c-".
Proof. repeat split; vm_compute; reflexivity. Qed.

(** ** Numbers inside the safe range *)

Lemma round64_exact (v : Z) : Z.abs v < 2 ^ 53 -> round64 v = Fin v.
Proof.
  intros Hv. unfold round64.
  assert (Hbits : Z.log2 (Z.abs v) + 1 <= 53).
  { destruct (Z.eq_dec (Z.abs v) 0) as [-> | Hne]; [cbn; lia |].
    assert (Z.log2 (Z.abs v) < 53); [| lia].
    apply Z.log2_lt_pow2; lia. }
  apply Z.leb_le in Hbits. now rewrite Hbits.
Qed.

Lemma round64_safe (v : Z) : Z.abs v <= 2 ^ 53 -> round64 v = Fin v.
Proof.
  intros Hv.
  destruct (Z.eq_dec (Z.abs v) (2 ^ 53)) as [Heq | Hne].
  - assert (Hcases : v = 2 ^ 53 \/ v = - 2 ^ 53) by lia.
    destruct Hcases as [-> | ->]; vm_compute; reflexivity.
  - apply round64_exact. lia.
Qed.

(** Beyond 2^53 rounding never comes back below it, and only 2^53 + 1
    rounds to 2^53 itself. *)
Lemma round64_large (v w : Z) :
  2 ^ 53 < v -> round64 v = Fin w ->
  2 ^ 53 <= w /\ (w = 2 ^ 53 -> v = 2 ^ 53 + 1).
Proof.
  intros Hv. unfold round64.
  rewrite (Z.abs_eq v) by lia.
  assert (Hlog : 53 <= Z.log2 v) by (apply Z.log2_le_pow2; lia).
  destruct (Z.log2_spec v) as [Hlo Hhi]; [lia |].
  set (L := Z.log2 v) in *.
  replace (L + 1 <=? 53) with false by (symmetry; apply Z.leb_gt; lia).
  replace (L + 1 - 53) with (L - 52) by lia.
  set (sh := L - 52).
  assert (Hsh : 1 <= sh) by (unfold sh; lia).
  rewrite Z.shiftr_div_pow2 by lia.
  rewrite Z.land_ones by lia.
  set (q := v / 2 ^ sh). set (r := v mod 2 ^ sh).
  assert (Hpow : 2 ^ L = 2 ^ 52 * 2 ^ sh).
  { rewrite <- Z.pow_add_r by lia. f_equal. unfold sh. lia. }
  assert (Hsucc : 2 ^ Z.succ L = 2 * 2 ^ L) by (apply Z.pow_succ_r; lia).
  assert (Hp : 2 <= 2 ^ sh).
  { change 2 with (2 ^ 1) at 1. apply Z.pow_le_mono_r; lia. }
  assert (Hv_eq : v = 2 ^ sh * q + r) by (apply Z.div_mod; lia).
  assert (Hr : 0 <= r < 2 ^ sh) by (apply Z.mod_pos_bound; lia).
  assert (Hq : 2 ^ 52 <= q) by nia.
  set (q' := if (_ || _)%bool then q + 1 else q).
  assert (Hq' : q <= q' <= q + 1) by (unfold q'; destruct (_ || _)%bool; lia).
  rewrite Z.shiftl_mul_pow2 by lia.
  destruct (2 ^ 1024 <=? q' * 2 ^ sh); [discriminate |].
  intros [= <-].
  rewrite Z.sgn_pos by lia.
  split; [nia |].
  intros Hw.
  assert (Hsh1 : 2 ^ sh = 2) by nia.
  assert (q' = 2 ^ 52) by nia.
  assert (Hqq : q = 2 ^ 52) by lia.
  assert (Hr01 : r = 0 \/ r = 1) by lia.
  destruct Hr01 as [Hr0 | Hr1]; [exfalso | lia].
  lia.
Qed.

Lemma shortest_safe (e : nat) (z : Z) :
  0 < z <= 2 ^ 53 -> shortest e z = z.
Proof.
  intros Hz. induction e as [| e IH].
  - cbn [shortest]. rewrite Z.pow_0_r, Z.div_1_r, Z.mul_1_r.
    rewrite (round64_safe z) by lia.
    replace (0 <? z) with true by (symmetry; apply Z.ltb_lt; lia).
    rewrite Z.eqb_refl. cbn [andb].
    destruct (_ && _)%bool; [| reflexivity].
    replace (z - z <? z + 1 - z) with true by (symmetry; apply Z.ltb_lt; lia).
    reflexivity.
  - cbn [shortest]. rewrite IH.
    set (p := 10 ^ Z.of_nat (S e)).
    assert (Hp10 : exists p', p = 10 * p' /\ 0 < p').
    { exists (10 ^ Z.of_nat e). unfold p.
      rewrite Nat2Z.inj_succ, Z.pow_succ_r by lia. split; [reflexivity |].
      apply Z.pow_pos_nonneg; lia. }
    destruct Hp10 as (p' & Hp' & Hp'pos).
    assert (Hp : 0 < p) by lia.
    set (lo := z / p * p).
    assert (Hlo : 0 <= lo <= z /\ z < lo + p).
    { unfold lo. pose proof (Z.mul_div_le z p Hp).
      pose proof (Z.mul_succ_div_gt z p Hp).
      pose proof (Z.div_pos z p). nia. }
    assert (Hhi : (0 <? lo + p) &&
                  match round64 (lo + p) with Fin w => w =? z | _ => false end
                  = false).
    { destruct (Z_le_gt_dec (lo + p) (2 ^ 53)) as [Hle | Hgt].
      - rewrite round64_safe by lia.
        replace (lo + p =? z) with false by (symmetry; apply Z.eqb_neq; lia).
        apply andb_false_r.
      - destruct (round64 (lo + p)) as [| | w] eqn:Hr; try apply andb_false_r.
        destruct (round64_large (lo + p) w ltac:(lia) Hr) as [Hw Hw'].
        replace (w =? z) with false; [apply andb_false_r |].
        symmetry. apply Z.eqb_neq. intros ->.
        assert (z = 2 ^ 53) by lia.
        specialize (Hw' ltac:(assumption)).
        unfold lo in Hw'. rewrite Hp' in Hw'. lia. }
    rewrite Hhi.
    destruct ((0 <? lo) && _)%bool eqn:Hok; [| reflexivity].
    apply andb_prop in Hok as [_ Hok].
    rewrite round64_safe in Hok by lia.
    apply Z.eqb_eq in Hok. exact Hok.
Qed.

Lemma decimal_negative (z : Z) : z < 0 -> decimal z = "-" ++ decimal (- z).
Proof. destruct z; [lia | lia |]. intros _. reflexivity. Qed.

(** Inside the safe range a Number prints as the decimal numeral of its
    value. *)
Lemma num_to_string_safe (z : Z) :
  Z.abs z <= 2 ^ 53 -> num_to_string (Fin z) = decimal z.
Proof.
  intros Hz. unfold num_to_string.
  assert (Hpos : forall v, 0 < v <= 2 ^ 53 -> positive_to_string v = decimal v).
  { intros v Hv. unfold positive_to_string. rewrite shortest_safe by exact Hv.
    replace (v <? 10 ^ 21) with true; [reflexivity |].
    symmetry. apply Z.ltb_lt. lia. }
  destruct (Z.eqb_spec z 0) as [-> | Hne]; [reflexivity |].
  destruct (Z.ltb_spec z 0).
  - rewrite decimal_negative by assumption. rewrite Hpos by lia. reflexivity.
  - apply Hpos. lia.
Qed.

Lemma plus_one_safe (x : Z) :
  safe_integer x -> num_add (Fin x) (Fin 1) = Fin (x + 1).
Proof.
  unfold safe_integer, MAX_SAFE_INTEGER. intros Hx. cbn [num_add].
  apply round64_safe. lia.
Qed.

(** ** [split] at a one-unit separator *)

Lemma split_go_piece (d : ascii) (a : str) :
  ~ In d a -> split_go [d] 0 a = [a].
Proof.
  induction a as [| c a IH]; intros Hd; [reflexivity |].
  cbn [split_go starts_with].
  destruct (Ascii.eqb_spec d c) as [-> | Hne].
  - exfalso. apply Hd. now left.
  - rewrite IH; [reflexivity |]. intros Hin. apply Hd. now right.
Qed.

Lemma split_go_cut (d : ascii) (a rest : str) :
  ~ In d a -> split_go [d] 0 (a ++ d :: rest) = a :: split_go [d] 0 rest.
Proof.
  induction a as [| c a IH]; intros Hd.
  - cbn [app split_go starts_with]. rewrite Ascii.eqb_refl. reflexivity.
  - cbn [app split_go starts_with].
    destruct (Ascii.eqb_spec d c) as [-> | Hne].
    + exfalso. apply Hd. now left.
    + rewrite IH; [reflexivity |]. intros Hin. apply Hd. now right.
Qed.

Lemma parseSemVer_three (a b c : str) :
  ~ In "."%char a -> ~ In "."%char b -> ~ In "."%char c ->
  parseSemVer (a ++ "." ++ b ++ "." ++ c)
  = [parseInt a; parseInt b; parseInt c].
Proof.
  intros Ha Hb Hc. unfold parseSemVer, split, parseDecimal.
  change (a ++ "." ++ b ++ "." ++ c)
    with (a ++ "."%char :: b ++ "."%char :: c).
  rewrite split_go_cut by assumption.
  rewrite split_go_cut by assumption.
  rewrite split_go_piece by assumption.
  reflexivity.
Qed.

Lemma is_kind_other (kind : option str) (k : str) :
  kind <> Some k -> is_kind kind k = false.
Proof.
  intros Hne. destruct kind as [t |]; [| reflexivity].
  unfold is_kind, str_eqb. apply bool_decide_eq_false. congruence.
Qed.

Lemma is_kind_same (k : str) : is_kind (Some k) k = true.
Proof. unfold is_kind, str_eqb. now apply bool_decide_eq_true. Qed.

(** ** The increment of a version *)

(** C1 (amended): for dot-free components that [parseInt] reads as
    integers within the safe range, [incrementSemVer] returns
    "{major+1}.0.0" for major, "{major}.{minor+1}.0" for minor and
    "{major}.{minor}.{patch+1}" for patch, each number printed as its
    decimal numeral. *)
Theorem incrementSemVer_increments (a b c : str) (x y z : Z) :
  ~ In "."%char a -> ~ In "."%char b -> ~ In "."%char c ->
  parseInt a = Fin x -> parseInt b = Fin y -> parseInt c = Fin z ->
  safe_integer x -> safe_integer y -> safe_integer z ->
  incrementSemVer (a ++ "." ++ b ++ "." ++ c) (Some "major")
  = Ok (decimal (x + 1) ++ ".0.0")
  /\ incrementSemVer (a ++ "." ++ b ++ "." ++ c) (Some "minor")
     = Ok (decimal x ++ "." ++ decimal (y + 1) ++ ".0")
  /\ incrementSemVer (a ++ "." ++ b ++ "." ++ c) (Some "patch")
     = Ok (decimal x ++ "." ++ decimal y ++ "." ++ decimal (z + 1)).
Proof.
  intros Ha Hb Hc Hx Hy Hz Sx Sy Sz.
  unfold incrementSemVer.
  rewrite parseSemVer_three by assumption.
  rewrite Hx, Hy, Hz.
  cbn [lookup list_lookup plus_one].
  rewrite !plus_one_safe by assumption.
  assert (Hprint : forall v, safe_integer v ->
                             num_to_string (Fin v) = decimal v).
  { intros v Hv. apply num_to_string_safe.
    unfold safe_integer, MAX_SAFE_INTEGER in Hv. lia. }
  assert (Hsucc : forall v, safe_integer v ->
                            num_to_string (Fin (v + 1)) = decimal (v + 1)).
  { intros v Hv. apply num_to_string_safe.
    unfold safe_integer, MAX_SAFE_INTEGER in Hv. lia. }
  cbn [join element_to_string].
  repeat split.
  - rewrite is_kind_same, Hsucc by assumption. reflexivity.
  - rewrite is_kind_other, is_kind_same by discriminate.
    rewrite Hsucc, Hprint by assumption. reflexivity.
  - rewrite !is_kind_other, is_kind_same by discriminate.
    rewrite Hsucc, !Hprint by assumption. reflexivity.
Qed.

Lemma incrementSemVer_increments_witness :
  incrementSemVer "1.10.6" (Some "major") = Ok "2.0.0"
  /\ incrementSemVer "1.10.6" (Some "minor") = Ok "1.11.0"
  /\ incrementSemVer "1.10.6" (Some "patch") = Ok "1.10.7".
Proof.
  apply (incrementSemVer_increments "1" "10" "6" 1 10 6);
    try (unfold safe_integer, MAX_SAFE_INTEGER; simpl; lia);
    try reflexivity;
    simpl; intuition discriminate.
Defined.

(** C1, as stated, fails on a component outside the safe range: at 2^53
    the sum [major + 1] rounds back to 2^53 and no component grows. *)
Lemma incrementSemVer_beyond_safe_range :
  parseInt "9007199254740992" = Fin 9007199254740992
  /\ incrementSemVer "9007199254740992.0.0" (Some "major")
     = Ok "9007199254740992.0.0"
  /\ incrementSemVer "9007199254740992.0.0" (Some "major")
     <> Ok (decimal (9007199254740992 + 1) ++ ".0.0").
Proof.
  split; [vm_compute; reflexivity |].
  split; [vm_compute; reflexivity |].
  vm_compute. discriminate.
Qed.

(** C8: a release kind that is none of "major", "minor" and "patch",
    [undefined] included, makes [incrementSemVer] throw the error
    "'<kind>' is not a semver type", whatever the version string. *)
Theorem incrementSemVer_invalid_kind (V : str) (kind : option str) :
  kind <> Some "major" -> kind <> Some "minor" -> kind <> Some "patch" ->
  incrementSemVer V kind
  = Throw (Error ("'" ++ ToString kind ++ "' is not a semver type")).
Proof.
  intros Hmajor Hminor Hpatch. unfold incrementSemVer.
  rewrite !is_kind_other by assumption. reflexivity.
Qed.

Lemma incrementSemVer_invalid_kind_witness :
  incrementSemVer "1.2.3" None
  = Throw (Error "'undefined' is not a semver type")
  /\ incrementSemVer "1.2.3" (Some "release")
     = Throw (Error "'release' is not a semver type").
Proof.
  split.
  - apply (incrementSemVer_invalid_kind "1.2.3" None); discriminate.
  - apply (incrementSemVer_invalid_kind "1.2.3" (Some "release"));
      discriminate.
Defined.

(** ** The matcher on the patterns of the source *)

Lemma matcher_Seq {R} (r1 r2 : regex) (s : str) (c : captures)
    (k : str -> captures -> option R) :
  matcher (Seq r1 r2) s c k
  = matcher r1 s c (fun s' c' => matcher r2 s' c' k).
Proof. reflexivity. Qed.

Lemma matcher_Alt {R} (r1 r2 : regex) (s : str) (c : captures)
    (k : str -> captures -> option R) :
  matcher (Alt r1 r2) s c k
  = match matcher r1 s c k with
    | Some x => Some x
    | None => matcher r2 s c k
    end.
Proof. reflexivity. Qed.

Lemma matcher_Group {R} (i : nat) (r : regex) (s : str) (c : captures)
    (k : str -> captures -> option R) :
  matcher (Group i r) s c k
  = matcher r s c
      (fun s' c' => k s' (set_capture i (take (length s - length s') s) c')).
Proof. reflexivity. Qed.

Lemma matcher_Lit {R} (l s : str) (c : captures)
    (k : str -> captures -> option R) :
  matcher (Lit l) s c k
  = if starts_with l s then k (drop (length l) s) c else None.
Proof.
  revert s. induction l as [| a l IH]; intros s; [reflexivity |].
  destruct l as [| a' l'].
  - destruct s as [| b s]; [reflexivity |]. cbn.
    destruct (Ascii.eqb a b); [| reflexivity]. now rewrite drop_0.
  - change (Lit (a :: a' :: l')) with (Seq (Chr a) (Lit (a' :: l'))).
    cbn [matcher]. destruct s as [| b s]; [reflexivity |].
    cbn [starts_with]. destruct (Ascii.eqb a b); [| reflexivity].
    rewrite IH. reflexivity.
Qed.

Lemma starts_with_app (l s : str) : starts_with l (l ++ s) = true.
Proof.
  induction l as [| a l IH]; [reflexivity |].
  cbn [app starts_with]. now rewrite Ascii.eqb_refl.
Qed.

Lemma matcher_star_class {R} (cl : char_class) (s : str) (c : captures)
    (k : str -> captures -> option R) :
  matcher (Star (Class cl)) s c k = star_class cl k s c.
Proof.
  cbn [matcher groups].
  enough (H : forall fuel s c, (length s <= fuel)%nat ->
            repeat_matcher
              (fun s' c' k' => matcher (Class cl) s' (reset_captures [] c') k')
              k fuel s c
            = star_class cl k s c) by (apply H; lia).
  clear s c. induction fuel as [| fuel IH]; intros s c Hlen.
  - destruct s; [reflexivity | cbn in Hlen; lia].
  - destruct s as [| b s]; [reflexivity |].
    cbn [repeat_matcher matcher star_class].
    destruct (in_class cl b); [| reflexivity].
    replace (length s <? length (b :: s))%nat with true
      by (symmetry; apply Nat.ltb_lt; cbn; lia).
    rewrite IH by (cbn in Hlen; lia).
    reflexivity.
Qed.

Lemma star_class_run {R} (cl : char_class) (k : str -> captures -> option R)
    (u t : str) (c : captures) (x : R) :
  forallb (in_class cl) u = true ->
  star_class cl k t c = Some x ->
  star_class cl k (u ++ t) c = Some x.
Proof.
  intros Hu Ht. induction u as [| b u IH]; [exact Ht |].
  cbn in Hu. apply andb_prop in Hu as [Hb Hu].
  cbn [app star_class]. rewrite Hb, IH by exact Hu. reflexivity.
Qed.

Lemma star_class_some {R} (cl : char_class) (k : str -> captures -> option R)
    (s : str) (c : captures) (x : R) :
  star_class cl k s c = Some x ->
  exists u t, s = u ++ t /\ forallb (in_class cl) u = true /\ k t c = Some x.
Proof.
  induction s as [| b s IH]; intros H.
  - exists [], []. auto.
  - cbn [star_class] in H.
    destruct (in_class cl b) eqn:Hb.
    + destruct (star_class cl k s c) as [y |] eqn:Hs.
      * destruct (IH H) as (u & t & -> & Hu & Hk).
        exists (b :: u), t. cbn. rewrite Hb. auto.
      * exists [], (b :: s). auto.
    + exists [], (b :: s). auto.
Qed.

Lemma take_front {A} (a b : list A) :
  take (length (a ++ b) - length b) (a ++ b) = a.
Proof.
  rewrite length_app. replace (length a + length b - length b)%nat
    with (length a) by lia.
  now rewrite take_app_length.
Qed.

Lemma search_some (r : regex) (i : nat) (s : str) (mt : match_result) :
  search r i s = Some mt ->
  exists j, match_at r (i + j) (drop j s) = Some mt.
Proof.
  revert i. induction s as [| b s IH]; intros i H; cbn [search] in H.
  - destruct (match_at r i []) eqn:Hm; [| discriminate].
    exists 0%nat. rewrite Nat.add_0_r. now rewrite <- H.
  - destruct (match_at r i (b :: s)) eqn:Hm.
    + exists 0%nat. rewrite Nat.add_0_r, drop_0. now rewrite <- H.
    + destruct (IH _ H) as [j Hj]. exists (S j).
      cbn [drop]. now rewrite Nat.add_succ_r.
Qed.

Lemma digit_is_plain (d : ascii) :
  is_digit d = true ->
  is_white_space d = false /\ d <> "-"%char /\ d <> "+"%char.
Proof.
  destruct d as [[] [] [] [] [] [] [] []]; intros H;
    vm_compute in H; try discriminate H; repeat split; discriminate.
Qed.

(** Whatever the counter pattern captures is a non-empty run of digits. *)
Lemma codeExp_capture (i : nat) (s : str) (mt : match_result) :
  match_at (pattern codeExp) i s = Some mt ->
  exists d ds, groups_of mt 1%nat = Some (d :: ds)
               /\ is_digit d = true /\ forallb is_digit ds = true.
Proof.
  unfold match_at, codeExp, pattern, Plus.
  cbn [matcher]. rewrite matcher_Lit.
  destruct (starts_with _ s); [| discriminate].
  set (s1 := drop _ s). clearbody s1.
  destruct s1 as [| d s2]; [discriminate |].
  change (in_class Digit d) with (is_digit d).
  destruct (is_digit d) eqn:Hd; [| discriminate].
  change (repeat_matcher _ ?k (length s2) s2 ?c)
    with (matcher (Star (Class Digit)) s2 c k).
  rewrite matcher_star_class. intros H.
  apply star_class_some in H as (u & t & -> & Hu & Hk).
  inversion Hk; subst; clear Hk. cbn [groups_of].
  exists d, u. split; [| auto].
  unfold set_capture. cbn [Nat.eqb].
  f_equal. apply (take_front (d :: u) t).
Qed.

Lemma round64_not_NaN (v : Z) : isNaN (round64 v) = false.
Proof.
  unfold round64. destruct (_ <=? 53); [reflexivity |].
  destruct (2 ^ 1024 <=? _); reflexivity.
Qed.

Lemma plus_one_not_NaN (n : number) :
  isNaN n = false -> isNaN (num_add n (Fin 1)) = false.
Proof.
  destruct n; cbn; [discriminate | reflexivity |].
  intros _. apply round64_not_NaN.
Qed.

Lemma parseInt_digits (d : ascii) (ds : str) :
  is_digit d = true -> isNaN (parseInt (d :: ds)) = false.
Proof.
  intros Hd.
  destruct d as [[] [] [] [] [] [] [] []];
    vm_compute in Hd; try discriminate Hd;
    unfold parseInt; cbn -[round64 digits_to_Z]; apply round64_not_NaN.
Qed.

Lemma parseInt_unsigned (d : ascii) (s : str) :
  is_digit d = true ->
  parseInt (d :: s) = round64 (digits_to_Z (leading_digits (d :: s))).
Proof.
  intros Hd.
  destruct d as [[] [] [] [] [] [] [] []];
    vm_compute in Hd; try discriminate Hd;
    unfold parseInt; cbn -[round64 digits_to_Z]; reflexivity.
Qed.

Lemma matchFirst_codeExp (buf : str) :
  exec codeExp buf <> None ->
  exists d ds, matchFirst codeExp buf = Some (d :: ds)
               /\ is_digit d = true /\ forallb is_digit ds = true.
Proof.
  unfold matchFirst.
  destruct (exec codeExp buf) as [mt |] eqn:He; [| congruence].
  intros _. apply search_some in He as [j Hj].
  apply codeExp_capture in Hj as (d & ds & Hcap & Hd & Hds).
  exists d, ds. auto.
Qed.

(** ** The build counter *)

(** C10: when the counter pattern matches the buffer, [bumpCode] does not
    throw the "Invalid versionCode" error.  What the pattern captures is a
    non-empty run of digits; [parseInt] reads it as the value of these
    digits rounded to a Number, which is not NaN; and the call returns
    this Number as [current] and [current + 1] as [next] (with the
    addition of Numbers, which is the integer successor inside the safe
    range), the buffer being rewritten with [next]. *)
Theorem bumpCode_never_invalid (m : BaseFileManager) (w : World) (buf : str)
    (s1 : FM) :
  read (m, w) = (Ok buf, s1) ->
  exec codeExp buf <> None ->
  exists (d : ascii) (ds : str),
    let n := parseInt (d :: ds) in
    matchFirst codeExp buf = Some (d :: ds)
    /\ forallb is_digit (d :: ds) = true
    /\ n = round64 (digits_to_Z (leading_digits (d :: ds)))
    /\ isNaN n = false
    /\ BuildGradleManager.bumpCode (m, w)
       = (Ok {| current := n; next := num_add n (Fin 1) |},
          (set_content
             (replace codeExp
                ("versionCode " ++ num_to_string (num_add n (Fin 1))) buf)
             (fst s1),
           snd s1))
    /\ (forall z, n = Fin z -> safe_integer z ->
                  num_add n (Fin 1) = Fin (z + 1)).
Proof.
  intros Hread Hmatch.
  destruct (matchFirst_codeExp buf Hmatch) as (d & ds & Hfirst & Hd & Hds).
  exists d, ds. intros n.
  pose proof (parseInt_digits d ds Hd) as Hn. fold n in Hn.
  split; [exact Hfirst |].
  split; [cbn [forallb]; now rewrite Hd, Hds |].
  split; [now apply parseInt_unsigned |].
  split; [exact Hn |]. split.
  - unfold BuildGradleManager.bumpCode, bind. rewrite Hread, Hfirst.
    cbn [ToString]. unfold parseDecimal. fold n.
    rewrite (plus_one_not_NaN _ Hn).
    destruct s1 as [m1 w1]. reflexivity.
  - intros z Hz Hsafe. rewrite Hz. now apply plus_one_safe.
Qed.

Lemma bumpCode_never_invalid_witness :
  exists (d : ascii) (ds : str),
    let n := parseInt (d :: ds) in
    matchFirst codeExp Demo.gradle_text = Some (d :: ds)
    /\ forallb is_digit (d :: ds) = true
    /\ n = round64 (digits_to_Z (leading_digits (d :: ds)))
    /\ isNaN n = false
    /\ BuildGradleManager.bumpCode
         (Demo.loaded Demo.gradle_path Demo.gradle_text, Demo.world)
       = (Ok {| current := n; next := num_add n (Fin 1) |},
          (set_content
             (replace codeExp
                ("versionCode " ++ num_to_string (num_add n (Fin 1)))
                Demo.gradle_text)
             (Demo.loaded Demo.gradle_path Demo.gradle_text),
           Demo.world))
    /\ (forall z, n = Fin z -> safe_integer z ->
                  num_add n (Fin 1) = Fin (z + 1)).
Proof.
  apply (bumpCode_never_invalid
           (Demo.loaded Demo.gradle_path Demo.gradle_text)
           Demo.world Demo.gradle_text
           (Demo.loaded Demo.gradle_path Demo.gradle_text, Demo.world)).
  - reflexivity.
  - vm_compute. discriminate.
Defined.

(** ** The lazy load and the conditional write *)

Lemma read_loaded (m : BaseFileManager) (w : World) (text : str) :
  content m = Some text -> read (m, w) = (Ok text, (m, w)).
Proof. intros H. unfold read, bind, gets. cbn. now rewrite H. Qed.

(** What a successful [read] leaves behind: the text is cached, the world
    is as before, and the path function was called only if the buffer was
    not loaded. *)
Lemma read_ok (m0 m : BaseFileManager) (w0 w : World) (text : str) :
  read (m0, w0) = (Ok text, (m, w)) ->
  content m = Some text /\ basePath m = basePath m0 /\ w = w0
  /\ (resolved m = resolved m0 + pending_resolve m0)%nat.
Proof.
  unfold read, bind, gets, call_basePath, readFileSync, put_content, modify,
    ret, pending_resolve.
  cbn [fst snd]. destruct (content m0) as [c |] eqn:Hc.
  - intros [= <- <- <-]. rewrite Hc. repeat split; try assumption. lia.
  - destruct (basePath m0) as [p | e] eqn:Hp; [| discriminate].
    cbn [snd]. destruct (disk w0 !! p); [| discriminate].
    intros [= <- <- <-]. cbn. repeat split; try assumption. lia.
Qed.

(** C2, as stated, fails: on a buffer without a counter line the accessor
    returns [undefined], and [bumpProjectVersion] returns normally with
    NaN for both values, the buffer unchanged. *)
Lemma matchFirst_returns_on_no_match :
  exec codeRegex "no counter here" = None
  /\ matchFirst codeRegex "no counter here" = None
  /\ PBXManager.bumpProjectVersion
       (Demo.loaded Demo.pbxproj_path "no counter here", Demo.world)
     = (Ok {| current := NaN; next := NaN |},
        (Demo.loaded Demo.pbxproj_path "no counter here", Demo.world)).
Proof. repeat split; vm_compute; reflexivity. Qed.

(** C2 (amended): on a buffer the pattern does not match, [matchFirst]
    returns [undefined] and throws nothing.  In the build-file manager the
    missing value is then fatal before anything is changed: [bumpCode]
    throws "Invalid versionCode version parsed (undefined)", and
    [setVersionName] and [getVersionName] throw a TypeError; manager, disk
    and list of writes are as before. *)
Theorem no_match_is_undefined (value : str) (m : BaseFileManager) (w : World) :
  content m = Some value ->
  (forall reg, exec reg value = None -> matchFirst reg value = None)
  /\ (exec codeExp value = None ->
      BuildGradleManager.bumpCode (m, w)
      = (Throw (Error "Invalid versionCode version parsed (undefined)"),
         (m, w)))
  /\ (exec nameExp value = None ->
      (forall next,
          BuildGradleManager.setVersionName next (m, w)
          = (Throw (TypeError "replace"), (m, w)))
      /\ BuildGradleManager.getVersionName (m, w)
         = (Throw (TypeError "replace"), (m, w))).
Proof.
  intros Hc.
  assert (Hundef : forall reg, exec reg value = None ->
                               matchFirst reg value = None).
  { intros reg H. unfold matchFirst. now rewrite H. }
  split; [exact Hundef |]. split.
  - intros H. unfold BuildGradleManager.bumpCode, bind.
    rewrite (read_loaded m w value Hc), (Hundef _ H). reflexivity.
  - intros H. split; [intros next |].
    + unfold BuildGradleManager.setVersionName, bind.
      rewrite (read_loaded m w value Hc), (Hundef _ H). reflexivity.
    + unfold BuildGradleManager.getVersionName, bind.
      rewrite (read_loaded m w value Hc), (Hundef _ H). reflexivity.
Qed.

Lemma no_match_is_undefined_witness :
  matchFirst codeExp "versionName '1.0'" = None
  /\ BuildGradleManager.bumpCode
       (Demo.loaded Demo.gradle_path "versionName '1.0'", Demo.world)
     = (Throw (Error "Invalid versionCode version parsed (undefined)"),
        (Demo.loaded Demo.gradle_path "versionName '1.0'", Demo.world)).
Proof.
  destruct (no_match_is_undefined "versionName '1.0'"
              (Demo.loaded Demo.gradle_path "versionName '1.0'") Demo.world
              eq_refl)
    as (Hundef & Hbump & _).
  split.
  - apply Hundef. vm_compute. reflexivity.
  - apply Hbump. vm_compute. reflexivity.
Defined.

(** C6, as stated, fails on an empty file: the buffer is populated by the
    read (it is the empty string, not [null]), yet [write] calls neither
    the path function nor [writeFile]. *)
Lemma write_skips_empty_buffer :
  let w := {| disk := {[ "/app/empty.gradle" := [] ]};
              written := []; console := [] |} in
  (read ;; write) (new_manager (Ok "/app/empty.gradle"), w)
  = (Ok tt,
     ({| basePath := Ok "/app/empty.gradle";
         content := Some [];
         resolved := 1 |}, w)).
Proof. vm_compute. reflexivity. Qed.

(** C6 (amended): [write] persists the buffer to the backing path if and
    only if a read has populated it with a non-empty text: after a
    successful [read] of [text], [write] is a no-op when [text] is empty
    and otherwise calls the path function and writes [text] at the path;
    on a manager that never read, [write] is a no-op that touches no
    file. *)
Theorem write_after_read (m0 m : BaseFileManager) (w0 w : World)
    (text p : str) :
  basePath m0 = Ok p ->
  read (m0, w0) = (Ok text, (m, w)) ->
  write (m, w)
  = match text with
    | [] => (Ok tt, (m, w))
    | _ :: _ => (Ok tt, (count_resolve m, write_disk p text w))
    end
  /\ (forall path w', write (new_manager path, w')
                      = (Ok tt, (new_manager path, w'))).
Proof.
  intros Hp Hread. split; [| reflexivity].
  apply read_ok in Hread as (Hc & Hbase & _ & _).
  unfold write, bind, gets, call_basePath, writeFile, modify, ret.
  cbn [fst snd]. rewrite Hc.
  destruct text as [| ch text]; [reflexivity |].
  rewrite Hbase, Hp. reflexivity.
Qed.

Lemma write_after_read_witness :
  write (Demo.loaded Demo.gradle_path Demo.gradle_text, Demo.world)
  = (Ok tt,
     ({| basePath := Ok Demo.gradle_path;
         content := Some Demo.gradle_text;
         resolved := 2 |},
      write_disk Demo.gradle_path Demo.gradle_text Demo.world)).
Proof.
  apply (write_after_read
           (new_manager (Ok Demo.gradle_path))
           (Demo.loaded Demo.gradle_path Demo.gradle_text)
           Demo.world Demo.world Demo.gradle_text Demo.gradle_path).
  - reflexivity.
  - vm_compute. reflexivity.
Defined.

(** ** Calls of the path function *)

Ltac run_manager :=
  unfold perform, write,
    PBXManager.bumpProjectVersion, PBXManager.setMarketingVersion,
    PBXManager.getCurrentMarketingVersion, PBXManager.getCurrentProjectVersion,
    BuildGradleManager.bumpCode, BuildGradleManager.setVersionName,
    BuildGradleManager.getVersionName, BuildGradleManager.getVersionCode,
    read, bind, gets, call_basePath, readFileSync, writeFile, put_content,
    modify, ret, throw, pending_resolve;
  cbn [fst snd].

(** One operation: a read, get, bump or set calls the path function only
    to load the buffer; [write] calls it at most once more. *)
Lemma perform_resolved (o : operation) (m m' : BaseFileManager)
    (w w' : World) (r : outcome unit) :
  perform o (m, w) = (r, (m', w')) ->
  (resolved m'
   <= resolved m + pending_resolve m + (if is_write o then 1 else 0))%nat
  /\ (r = Ok tt ->
      (resolved m' + pending_resolve m'
       <= resolved m + pending_resolve m + (if is_write o then 1 else 0))%nat).
Proof.
  destruct o; run_manager;
    destruct (content m) as [text |] eqn:Hc;
    try destruct text;
    try destruct (basePath m) as [p | e]; cbn [fst snd];
    try destruct (disk w !! p); cbn [fst snd];
    repeat case_match;
    intros Heq; simplify_eq/=; rewrite ?Hc; split; try discriminate;
    intros; lia.
Qed.

Lemma perform_all_resolved (ops : list operation) (m m' : BaseFileManager)
    (w w' : World) (r : outcome unit) :
  perform_all ops (m, w) = (r, (m', w')) ->
  (resolved m' <= resolved m + pending_resolve m + count_writes ops)%nat.
Proof.
  revert m w. induction ops as [| o ops IH]; intros m w.
  - intros [= <- <- <-]. lia.
  - cbn [perform_all]. unfold bind at 1.
    destruct (perform o (m, w)) as [[[] | e] [m1 w1]] eqn:Ho;
      destruct (perform_resolved _ _ _ _ _ _ Ho) as [Hle Hok];
      assert (Hcount : (count_writes (o :: ops)
                        = (if is_write o then 1 else 0) + count_writes ops)%nat)
        by (unfold count_writes; cbn [filter];
            destruct o; cbn; reflexivity).
    + intros Hrest. apply IH in Hrest. specialize (Hok eq_refl). lia.
    + intros [= <- <- <-]. lia.
Qed.

(** C9, as stated, fails: [run] resolves the path of each file twice, once
    to read it and once more to write it back. *)
Lemma run_resolves_each_path_twice :
  let final :=
    snd (@ProjectFilesManager.run Demo.runtime Demo.configs
           (@ProjectFilesManager.new Demo.runtime Demo.configs Demo.world)) in
  resolved (ProjectFilesManager.pbx final) = 2%nat
  /\ resolved (ProjectFilesManager.buildGradle final) = 2%nat
  /\ PackageJSONManager.resolved (ProjectFilesManager.packageJSON final)
     = 2%nat
  /\ snd (perform_all [op_bumpCode; op_write]
            (new_manager (Ok Demo.gradle_path), Demo.world))
     = ({| basePath := Ok Demo.gradle_path;
           content := Some ("    versionCode 24" ++ Demo.newline
                            ++ "    versionName " ++ dquote :: "1.10.6"
                            ++ dquote :: Demo.newline);
           resolved := 2 |},
        write_disk Demo.gradle_path
          ("    versionCode 24" ++ Demo.newline
           ++ "    versionName " ++ dquote :: "1.10.6"
           ++ dquote :: Demo.newline)
          Demo.world).
Proof. repeat split; vm_compute; reflexivity. Qed.

(** C9 (amended): over any sequence of operations on a fresh manager, run
    until one of them throws, the path function is called at most once for
    all the reads, gets, bumps and sets together, and at most once more for
    each [write] in the sequence. *)
Theorem path_resolved_once_per_load_and_write (ops : list operation)
    (path : outcome str) (w : World) :
  (resolved (fst (snd (perform_all ops (new_manager path, w))))
   <= 1 + count_writes ops)%nat.
Proof.
  destruct (perform_all ops (new_manager path, w)) as [r [m' w']] eqn:H.
  apply perform_all_resolved in H. cbn in *. lia.
Qed.

(** ** Computations that write no file *)

Section ReadOnly.
Context {S : Type} (world : S -> World).

Lemma untouched_trans (w1 w2 w3 : World) :
  untouched w1 w2 -> untouched w2 w3 -> untouched w1 w3.
Proof. unfold untouched. intros [-> ->] [-> ->]. auto. Qed.

Lemma ro_ret {A} (a : A) : read_only world (ret a).
Proof. intros s. split; reflexivity. Qed.

Lemma ro_throw {A} (e : exn) : read_only world (@throw S A e).
Proof. intros s. split; reflexivity. Qed.

Lemma ro_lift {A} (o : outcome A) : read_only world (lift o).
Proof. intros s. split; reflexivity. Qed.

Lemma ro_gets {A} (f : S -> A) : read_only world (gets f).
Proof. intros s. split; reflexivity. Qed.

Lemma ro_bind {A B} (f : M S A) (g : A -> M S B) :
  read_only world f -> (forall a, read_only world (g a)) ->
  read_only world (bind f g).
Proof.
  intros Hf Hg s. unfold bind. specialize (Hf s).
  destruct (f s) as [[a | e] s1]; cbn [snd] in *; [| exact Hf].
  eapply untouched_trans; [exact Hf | apply Hg].
Qed.

Lemma ro_when (b : bool) (f : M S unit) :
  read_only world f -> read_only world (when b f).
Proof. destruct b; [auto | intros _; apply ro_ret]. Qed.

Lemma ro_modify (f : S -> S) :
  (forall s, untouched (world s) (world (f s))) ->
  read_only world (modify f).
Proof. intros H s. apply H. Qed.

Lemma ro_readFileSync (p : str) : read_only world (readFileSync world p).
Proof.
  intros s. unfold readFileSync. destruct (disk (world s) !! p);
    split; reflexivity.
Qed.

End ReadOnly.

Ltac read_only_step :=
  match goal with
  | |- read_only _ (ret _) => apply ro_ret
  | |- read_only _ (throw _) => apply ro_throw
  | |- read_only _ (lift _) => apply ro_lift
  | |- read_only _ (gets _) => apply ro_gets
  | |- read_only _ (readFileSync _ _) => apply ro_readFileSync
  | |- read_only _ (when _ _) => apply ro_when
  | |- read_only _ (bind _ _) => apply ro_bind; [| intros ?]
  | |- read_only _ (if ?b then _ else _) => destruct b
  | |- read_only _ (match ?x with _ => _ end) => destruct x
  end.

Ltac read_only := repeat read_only_step.

Lemma ro_call_basePath : read_only snd call_basePath.
Proof. intros [m w]. split; reflexivity. Qed.

Lemma ro_put_content (text : str) : read_only snd (put_content text).
Proof. intros [m w]. split; reflexivity. Qed.

Lemma ro_read : read_only snd read.
Proof.
  unfold read. read_only; auto using ro_call_basePath, ro_put_content.
Qed.

Lemma ro_bumpProjectVersion : read_only snd PBXManager.bumpProjectVersion.
Proof.
  unfold PBXManager.bumpProjectVersion.
  read_only; auto using ro_read, ro_put_content.
Qed.

Lemma ro_setMarketingVersion (v : str) :
  read_only snd (PBXManager.setMarketingVersion v).
Proof.
  unfold PBXManager.setMarketingVersion.
  read_only; auto using ro_read, ro_put_content.
Qed.

Lemma ro_bumpCode : read_only snd BuildGradleManager.bumpCode.
Proof.
  unfold BuildGradleManager.bumpCode.
  read_only; auto using ro_read, ro_put_content.
Qed.

Lemma ro_setVersionName (v : str) :
  read_only snd (BuildGradleManager.setVersionName v).
Proof.
  unfold BuildGradleManager.setVersionName.
  read_only; auto using ro_read, ro_put_content.
Qed.

Section Orchestrator.
Context {rt : Runtime}.
Import ProjectFilesManager.

Lemma ro_PackageJSON_read : read_only snd PackageJSONManager.read.
Proof.
  unfold PackageJSONManager.read. read_only.
  all: intros [m w]; split; reflexivity.
Qed.

Lemma ro_setVersion (v : str) :
  read_only snd (PackageJSONManager.setVersion v).
Proof.
  unfold PackageJSONManager.setVersion, PackageJSONManager.getVersion.
  read_only; try apply ro_PackageJSON_read.
  apply ro_modify; intros [m w].
  destruct (PackageJSONManager.content m); split; reflexivity.
Qed.

Lemma ro_getVersion : read_only snd PackageJSONManager.getVersion.
Proof.
  unfold PackageJSONManager.getVersion.
  read_only; try apply ro_PackageJSON_read.
Qed.

Lemma ro_on_pbx {A} (f : M FM A) :
  read_only snd f -> read_only world (on_pbx f).
Proof.
  intros Hf s. unfold on_pbx, zoom. specialize (Hf (pbx s, world s)).
  destruct (f (pbx s, world s)) as [r [m w]]. exact Hf.
Qed.

Lemma ro_on_buildGradle {A} (f : M FM A) :
  read_only snd f -> read_only world (on_buildGradle f).
Proof.
  intros Hf s. unfold on_buildGradle, zoom.
  specialize (Hf (buildGradle s, world s)).
  destruct (f (buildGradle s, world s)) as [r [m w]]. exact Hf.
Qed.

Lemma ro_on_packageJSON {A} (f : M (PackageJSONManager.t * World) A) :
  read_only snd f -> read_only world (on_packageJSON f).
Proof.
  intros Hf s. unfold on_packageJSON, zoom.
  specialize (Hf (packageJSON s, world s)).
  destruct (f (packageJSON s, world s)) as [r [m w]]. exact Hf.
Qed.

Lemma ro_console_log (line : str) : read_only world (console_log line).
Proof. intros s. split; reflexivity. Qed.

Lemma ro_bumpCodes (configs : Configs) :
  read_only world (bumpCodes configs).
Proof.
  unfold bumpCodes.
  read_only;
    auto using ro_on_pbx, ro_on_buildGradle, ro_console_log,
      ro_bumpProjectVersion, ro_bumpCode.
Qed.

Lemma ro_syncSemver (configs : Configs) (v : str) :
  read_only world (syncSemver configs v).
Proof.
  unfold syncSemver.
  read_only;
    auto using ro_on_pbx, ro_on_buildGradle, ro_on_packageJSON,
      ro_console_log, ro_setMarketingVersion, ro_setVersionName,
      ro_setVersion.
Qed.

Lemma ro_dryRun (configs : Configs) : read_only world (dryRun configs).
Proof.
  unfold dryRun.
  read_only;
    auto 6 using ro_on_packageJSON, ro_getVersion, ro_bumpCodes,
      ro_syncSemver, ro_on_pbx, ro_on_buildGradle,
      ro_bumpProjectVersion, ro_bumpCode, ro_setMarketingVersion,
      ro_setVersionName, ro_setVersion.
Qed.

(** C5: [dryRun] writes no file: whatever the configuration and the
    state it starts from, and whether it returns or throws, the disk and
    the list of writes are as before; and when it throws, [run] throws
    the same error in the same state, so every file on disk is as it was
    before the invocation. *)
Theorem dryRun_writes_nothing (configs : Configs) (s s' : t)
    (r : outcome unit) :
  dryRun configs s = (r, s') ->
  disk (world s') = disk (world s)
  /\ written (world s') = written (world s)
  /\ (forall e, r = Throw e -> run configs s = (Throw e, s')).
Proof.
  intros H. pose proof (ro_dryRun configs s) as Hro.
  rewrite H in Hro. destruct Hro as [Hdisk Hwritten].
  repeat split; [exact Hdisk | exact Hwritten |].
  intros e ->. unfold run, bind at 1. rewrite H. reflexivity.
Qed.

End Orchestrator.

(** ** The release kind in [dryRun] *)

Section ReleaseKind.
Context {rt : Runtime}.
Import ProjectFilesManager.

(** [dryRun] is [before_kind_check] followed by the guarded sync. *)
Lemma dryRun_split (configs : Configs) (s : t) :
  dryRun configs s
  = bind (before_kind_check configs)
      (fun next =>
         when (negb (includes (skipSemverFor configs) "all"))
           (if falsy (type configs)
            then throw (Error "SemVer type not specified")
            else syncSemver configs next)) s.
Proof.
  unfold dryRun, before_kind_check, bind.
  destruct (on_packageJSON PackageJSONManager.getVersion s)
    as [[cur | e] s1]; [| reflexivity].
  destruct (match semver configs with
            | Some v => ret v
            | None => lift (incrementSemVer cur (type_or_minor configs))
            end s1) as [[nx | e] s2]; [| reflexivity].
  destruct (when (negb (includes (skipCodeFor configs) "all"))
              (bumpCodes configs) s2) as [[[] | e] s3]; reflexivity.
Qed.

(** Without a release kind, and with version sync not skipped for all,
    [dryRun] throws in the state reached before the test of the kind. *)
Lemma dryRun_without_kind (configs : Configs) (s : t) :
  includes (skipSemverFor configs) "all" = false ->
  falsy (type configs) = true ->
  dryRun configs s
  = match before_kind_check configs s with
    | (Ok _, s1) => (Throw (Error "SemVer type not specified"), s1)
    | (Throw e, s1) => (Throw e, s1)
    end.
Proof.
  intros Hskip Hkind. rewrite dryRun_split. unfold bind.
  rewrite Hskip, Hkind. cbn [negb when].
  destruct (before_kind_check configs s) as [[v | e] s1]; reflexivity.
Qed.

(** C3 (amended): when the skip-version-sync list does not contain "all"
    and no release kind is given, [dryRun] always throws, and it stops in
    the state reached before the test of the kind, so no version is
    synced.  The error is "SemVer type not specified" when the steps that
    come before the test (the read of the manifest version, the target
    version, the counter bumps) all return; when one of them throws, the
    error is the one it throws. *)
Theorem dryRun_missing_kind (configs : Configs) (s : t) :
  includes (skipSemverFor configs) "all" = false ->
  type configs = None ->
  (exists e, dryRun configs s = (Throw e, snd (before_kind_check configs s)))
  /\ (forall v s1,
         before_kind_check configs s = (Ok v, s1) ->
         dryRun configs s
         = (Throw (Error "SemVer type not specified"), s1))
  /\ (forall e s1,
         before_kind_check configs s = (Throw e, s1) ->
         dryRun configs s = (Throw e, s1)).
Proof.
  intros Hskip Hkind.
  rewrite dryRun_without_kind by (rewrite ?Hkind; auto).
  destruct (before_kind_check configs s) as [[v | e] s1]; cbn [snd].
  - split; [eexists; reflexivity |]. split; [| discriminate].
    intros v' s1' [= <- <-]. reflexivity.
  - split; [eexists; reflexivity |]. split; [discriminate |].
    intros e' s1' [= <- <-]. reflexivity.
Qed.

(** C4 (amended): with an explicit target version, the value of the
    release kind does not matter as long as one is given: two kinds that
    are both non-empty strings (or any two kinds when "all" is in the
    skip-version-sync list) give the same outcome and the same final
    state; an absent kind still makes [dryRun] throw when sync is not
    skipped for all. *)
Theorem dryRun_override_ignores_kind (configs : Configs) (v : str)
    (k1 k2 : option str) (s : t) :
  semver configs = Some v ->
  (falsy k1 = falsy k2
   \/ includes (skipSemverFor configs) "all" = true) ->
  dryRun (with_type k1 configs) s = dryRun (with_type k2 configs) s
  /\ (includes (skipSemverFor configs) "all" = false ->
      exists e, fst (dryRun (with_type None configs) s) = Throw e).
Proof.
  intros Hv Hk. split.
  - unfold dryRun, bumpCodes, syncSemver. cbn [with_type semver type
      skipSemverFor skipCodeFor]. rewrite Hv.
    destruct Hk as [Hk | Hk]; rewrite Hk; reflexivity.
  - intros Hskip.
    rewrite (dryRun_without_kind (with_type None configs) s Hskip eq_refl).
    destruct (before_kind_check (with_type None configs) s)
      as [[v' | e] s1]; eexists; reflexivity.
Qed.

End ReleaseKind.

Lemma dryRun_missing_kind_witness :
  let configs := with_type None Demo.configs in
  let s := @ProjectFilesManager.new Demo.runtime configs Demo.world in
  @ProjectFilesManager.dryRun Demo.runtime configs s
  = (Throw (Error "SemVer type not specified"),
     snd (@ProjectFilesManager.before_kind_check Demo.runtime configs s)).
Proof.
  intros configs s.
  destruct (@ProjectFilesManager.before_kind_check Demo.runtime configs s)
    as [r s1] eqn:Hbefore.
  assert (Hr : r = Ok "1.11.0").
  { apply (f_equal fst) in Hbefore. vm_compute in Hbefore. now symmetry. }
  subst r.
  apply (proj1 (proj2 (@dryRun_missing_kind Demo.runtime configs s
                          eq_refl eq_refl))
           _ _ Hbefore).
Defined.

(** C3, as stated, fails: without a release kind and with version sync
    not skipped, [dryRun] throws another error than "SemVer type not
    specified" when a step before the test of the kind throws.  Here the
    build file has no counter, or the iOS project is not configured. *)
Lemma dryRun_missing_kind_other_error :
  let no_counter :=
    {| disk := <[Demo.gradle_path := "android { }"]> Demo.files;
       written := []; console := [] |} in
  let configs := with_type None Demo.configs in
  let no_ios :=
    {| type := None; semver := None;
       skipSemverFor := []; skipCodeFor := [];
       versionFile := None; root := "/app";
       pbxprojPath :=
         Throw (Error (required_message "undefined" "project.ios"));
       buildGradlePath := Ok Demo.gradle_path |} in
  includes (skipSemverFor configs) "all" = false
  /\ type configs = None
  /\ fst (@ProjectFilesManager.dryRun Demo.runtime configs
            (@ProjectFilesManager.new Demo.runtime configs no_counter))
     = Throw (Error "Invalid versionCode version parsed (undefined)")
  /\ includes (skipSemverFor no_ios) "all" = false
  /\ type no_ios = None
  /\ fst (@ProjectFilesManager.dryRun Demo.runtime no_ios
            (@ProjectFilesManager.new Demo.runtime no_ios Demo.world))
     = Throw (Error "Value for project.ios is 'undefined', maybe RN cli broke compatibility?").
Proof. repeat split; vm_compute; reflexivity. Qed.

(** C4, as stated, fails: with the override "2.0.0" and version sync not
    skipped, [dryRun] throws when the kind is absent and returns when the
    kind is "patch". *)
Lemma dryRun_override_needs_a_kind :
  let configs :=
    {| type := None; semver := Some "2.0.0";
       skipSemverFor := []; skipCodeFor := [];
       versionFile := None; root := "/app";
       pbxprojPath := Ok Demo.pbxproj_path;
       buildGradlePath := Ok Demo.gradle_path |} in
  let s := @ProjectFilesManager.new Demo.runtime configs Demo.world in
  fst (@ProjectFilesManager.dryRun Demo.runtime configs s)
  = Throw (Error "SemVer type not specified")
  /\ fst (@ProjectFilesManager.dryRun Demo.runtime
            (with_type (Some "patch") configs) s)
     = Ok tt.
Proof. split; vm_compute; reflexivity. Qed.

Lemma dryRun_override_ignores_kind_witness :
  let configs :=
    {| type := None; semver := Some "2.0.0";
       skipSemverFor := []; skipCodeFor := [];
       versionFile := None; root := "/app";
       pbxprojPath := Ok Demo.pbxproj_path;
       buildGradlePath := Ok Demo.gradle_path |} in
  let s := @ProjectFilesManager.new Demo.runtime configs Demo.world in
  @ProjectFilesManager.dryRun Demo.runtime
    (with_type (Some "patch") configs) s
  = @ProjectFilesManager.dryRun Demo.runtime
      (with_type (Some "release") configs) s.
Proof.
  intros configs s.
  apply (@dryRun_override_ignores_kind Demo.runtime configs "2.0.0"
           (Some "patch") (Some "release") s eq_refl).
  left. reflexivity.
Defined.

Lemma dryRun_writes_nothing_witness :
  let configs := with_type None Demo.configs in
  let s := @ProjectFilesManager.new Demo.runtime configs Demo.world in
  let res := @ProjectFilesManager.dryRun Demo.runtime configs s in
  disk (ProjectFilesManager.world (snd res)) = Demo.files
  /\ written (ProjectFilesManager.world (snd res)) = []
  /\ (forall e, fst res = Throw e ->
                @ProjectFilesManager.run Demo.runtime configs s
                = (Throw e, snd res)).
Proof.
  intros configs s res.
  apply (@dryRun_writes_nothing Demo.runtime configs s (snd res) (fst res)).
  unfold res. now destruct (ProjectFilesManager.dryRun configs s).
Defined.

(** ** The version name of the build file *)

Lemma substitution_plain (n : Z) (before whole after : str) (c : captures)
    (tpl : str) :
  ~ In "$"%char tpl -> substitution n before whole after c tpl = tpl.
Proof.
  induction tpl as [| d rest IH]; intros Hd; [reflexivity |].
  cbn [substitution].
  destruct (Ascii.eqb_spec d "$") as [-> | Hne].
  - exfalso. apply Hd. now left.
  - f_equal. apply IH. intros Hin. apply Hd. now right.
Qed.

(** Before the first occurrence of its leading text a pattern cannot
    match, so the search goes straight there. *)
Lemma search_skip (lead : str) (r : regex) (pre rest : str) (n : nat) :
  index_from lead n (pre ++ rest) = Some (n + length pre)%nat ->
  search (Seq (Lit lead) r) n (pre ++ rest)
  = search (Seq (Lit lead) r) (n + length pre) rest.
Proof.
  revert n. induction pre as [| b pre IH]; intros n Hidx.
  - cbn [app length]. now rewrite Nat.add_0_r.
  - cbn [app] in *. unfold index_from in Hidx. fold index_from in Hidx.
    destruct (starts_with lead (b :: pre ++ rest)) eqn:Hsw.
    + injection Hidx as Hidx. cbn [length] in Hidx. lia.
    + cbn [search]. unfold match_at at 1. cbn [matcher].
      rewrite matcher_Lit, Hsw.
      replace (n + length (b :: pre))%nat with (S n + length pre)%nat
        in * by (cbn [length]; lia).
      apply IH. exact Hidx.
Qed.

Lemma star_class_no_closing {R} (q : ascii) (post : str) (c : captures)
    (k : str -> captures -> option R) :
  is_line_terminator q = false ->
  ~ In q (line_rest post) ->
  star_class Dot (fun s' c' => matcher (Chr q) s' c' k) post c = None.
Proof.
  intros Hq. induction post as [| b post IH]; intros Hin; [reflexivity |].
  cbn [star_class in_class matcher line_rest] in *.
  destruct (is_line_terminator b) eqn:Hb; cbn [negb].
  - destruct (Ascii.eqb_spec q b) as [-> | _]; [congruence | reflexivity].
  - rewrite IH by (intros H; apply Hin; now right).
    destruct (Ascii.eqb_spec q b) as [-> | _]; [| reflexivity].
    exfalso. apply Hin. now left.
Qed.

(** A quoted run [q v q] followed by a line without another [q]: the
    greedy [.*] between the quotes ends at the closing quote. *)
Lemma quoted_run {R} (q : ascii) (v post : str) (c : captures)
    (k : str -> captures -> option R) (x : R) :
  is_line_terminator q = false ->
  forallb (fun ch => negb (is_line_terminator ch)) v = true ->
  ~ In q (line_rest post) ->
  k post c = Some x ->
  matcher (Seq (Chr q) (Seq (Star (Class Dot)) (Chr q)))
    (q :: v ++ q :: post) c k = Some x.
Proof.
  intros Hq Hv Hpost Hk. cbn [matcher]. rewrite Ascii.eqb_refl.
  change (repeat_matcher _ ?k' (length ?s) ?s ?c')
    with (matcher (Star (Class Dot)) s c' k').
  rewrite matcher_star_class.
  apply star_class_run; [exact Hv |].
  cbn [star_class in_class]. rewrite Hq. cbn [negb].
  pose proof (star_class_no_closing q post c k Hq Hpost) as Hnone.
  cbn [matcher] in Hnone. rewrite Hnone.
  now rewrite Ascii.eqb_refl.
Qed.

Lemma chr_mismatch {R} (q0 q : ascii) (r : regex) (s : str) (c : captures)
    (k : str -> captures -> option R) :
  q0 <> q -> matcher (Seq (Chr q0) r) (q :: s) c k = None.
Proof.
  intros Hne. cbn [matcher].
  destruct (Ascii.eqb_spec q0 q); [contradiction | reflexivity].
Qed.

(** The two alternatives of the version-name group on a quoted run. *)
Lemma quoted_alt {R} (q : ascii) (v post : str) (c : captures)
    (k : str -> captures -> option R) (x : R) :
  q = squote \/ q = dquote ->
  forallb (fun ch => negb (is_line_terminator ch)) v = true ->
  ~ In q (line_rest post) ->
  k post c = Some x ->
  matcher
    (Alt (Seq (Chr squote) (Seq (Star (Class Dot)) (Chr squote)))
         (Seq (Chr dquote) (Seq (Star (Class Dot)) (Chr dquote))))
    (q :: v ++ q :: post) c k = Some x.
Proof.
  intros Hq Hv Hpost Hk. rewrite matcher_Alt.
  destruct Hq as [-> | ->].
  - rewrite (quoted_run squote v post c k x); auto.
  - rewrite chr_mismatch by (unfold squote, dquote; discriminate).
    apply quoted_run; auto.
Qed.

Lemma quoted_text_split (q : ascii) (v post : str) :
  q :: v ++ q :: post = (q :: v ++ [q]) ++ post.
Proof. cbn [app]. now rewrite <- app_assoc. Qed.

(** The version-name pattern at the position of a quoted value. *)
Lemma nameExp_match_at (i : nat) (q : ascii) (v post : str) :
  q = squote \/ q = dquote ->
  forallb (fun ch => negb (is_line_terminator ch)) v = true ->
  ~ In q (line_rest post) ->
  exists mt,
    match_at (pattern nameExp) i ("versionName " ++ q :: v ++ q :: post)
    = Some mt
    /\ index mt = i
    /\ matched mt = "versionName " ++ q :: v ++ [q]
    /\ groups_of mt 1%nat = Some (q :: v ++ [q]).
Proof.
  intros Hq Hv Hpost.
  eexists. split; [| repeat split].
  - unfold match_at, nameExp, pattern.
    rewrite matcher_Seq, matcher_Lit, starts_with_app, drop_app_length.
    rewrite matcher_Group.
    erewrite quoted_alt; [reflexivity | assumption .. | reflexivity].
  - reflexivity.
  - cbn [matched]. rewrite quoted_text_split, app_assoc. apply take_front.
  - cbn [groups_of]. unfold set_capture. cbn [Nat.eqb]. f_equal.
    rewrite quoted_text_split. apply take_front.
Qed.

Lemma search_hit (r : regex) (i : nat) (s : str) (mt : match_result) :
  match_at r i s = Some mt -> search r i s = Some mt.
Proof. intros H. destruct s; cbn [search]; now rewrite H. Qed.

(** The first match of the version-name pattern in a buffer whose first
    "versionName " is followed by a quoted value. *)
Lemma nameExp_exec (pre : str) (q : ascii) (v post : str) :
  q = squote \/ q = dquote ->
  indexOf "versionName " (pre ++ "versionName " ++ q :: v ++ q :: post)
  = Some (length pre) ->
  forallb (fun ch => negb (is_line_terminator ch)) v = true ->
  ~ In q (line_rest post) ->
  exists mt,
    exec nameExp (pre ++ "versionName " ++ q :: v ++ q :: post) = Some mt
    /\ index mt = length pre
    /\ matched mt = "versionName " ++ q :: v ++ [q]
    /\ groups_of mt 1%nat = Some (q :: v ++ [q]).
Proof.
  intros Hq Hidx Hv Hpost.
  destruct (nameExp_match_at (length pre) q v post Hq Hv Hpost)
    as (mt & Hmt & Hfields).
  exists mt. split; [| exact Hfields].
  unfold exec. change (pattern nameExp) with
    (Seq (Lit "versionName ")
       (Group 1
          (Alt (Seq (Chr squote) (Seq (Star (Class Dot)) (Chr squote)))
               (Seq (Chr dquote) (Seq (Star (Class Dot)) (Chr dquote)))))).
  rewrite search_skip by exact Hidx.
  apply search_hit. exact Hmt.
Qed.

(** The local pattern [quotes] on a quoted value picks the text between
    the quotes. *)
Lemma quotes_exec (q : ascii) (v : str) :
  is_quote q = true ->
  v <> [] ->
  forallb (fun ch => negb (is_quote ch)) v = true ->
  exists mt,
    exec quotes (q :: v ++ [q]) = Some mt
    /\ index mt = 1%nat /\ matched mt = v.
Proof.
  intros Hq Hne Hv. destruct v as [| a v]; [congruence |].
  cbn [forallb] in Hv. apply andb_prop in Hv as [Ha Hv].
  eexists. split; [| split].
  - unfold exec, quotes, pattern, Plus. cbn [search].
    unfold match_at at 1. rewrite matcher_Seq. cbn [matcher in_class].
    change (mem q [dquote; squote]) with (is_quote q). rewrite Hq.
    cbn [negb app]. apply search_hit.
    unfold match_at. rewrite matcher_Seq. cbn [matcher in_class].
    change (mem a [dquote; squote]) with (is_quote a). rewrite Ha.
    change (repeat_matcher _ ?k' (length ?s) ?s ?c')
      with (matcher (Star (Class (NoneOf [dquote; squote]))) s c' k').
    rewrite matcher_star_class.
    erewrite star_class_run; [reflexivity | exact Hv |].
    cbn [star_class in_class].
    change (mem q [dquote; squote]) with (is_quote q). rewrite Hq.
    reflexivity.
  - reflexivity.
  - cbn [matched]. apply (take_front (a :: v) [q]).
Qed.

Lemma replace_quotes (q : ascii) (v next : str) :
  is_quote q = true ->
  v <> [] ->
  forallb (fun ch => negb (is_quote ch)) v = true ->
  ~ In "$"%char next ->
  replace quotes next (q :: v ++ [q]) = q :: next ++ [q].
Proof.
  intros Hq Hne Hv Hnext.
  destruct (quotes_exec q v Hq Hne Hv) as ([i mtext caps] & Hexec & Hi & Hm).
  cbn [index matched] in Hi, Hm. subst i mtext.
  unfold replace. cbn [global quotes]. rewrite Hexec.
  unfold replacement_for. cbn [index matched groups_of].
  rewrite substitution_plain by exact Hnext.
  cbn [take Nat.add drop]. rewrite drop_app_length. reflexivity.
Qed.

Lemma replace_nameExp (pre : str) (q : ascii) (v post tpl : str) :
  q = squote \/ q = dquote ->
  indexOf "versionName " (pre ++ "versionName " ++ q :: v ++ q :: post)
  = Some (length pre) ->
  forallb (fun ch => negb (is_line_terminator ch)) v = true ->
  ~ In q (line_rest post) ->
  ~ In "$"%char tpl ->
  replace nameExp tpl (pre ++ "versionName " ++ q :: v ++ q :: post)
  = pre ++ tpl ++ post.
Proof.
  intros Hq Hidx Hv Hpost Htpl.
  destruct (nameExp_exec pre q v post Hq Hidx Hv Hpost)
    as ([i mtext caps] & Hexec & Hi & Hm & _).
  cbn [index matched] in Hi, Hm. subst i mtext.
  unfold replace. cbn [global nameExp]. rewrite Hexec.
  unfold replacement_for. cbn [index matched groups_of].
  rewrite substitution_plain by exact Htpl.
  rewrite take_app_length. f_equal. f_equal.
  rewrite drop_app_add.
  replace ("versionName " ++ q :: v ++ q :: post)
    with (("versionName " ++ q :: v ++ [q]) ++ post).
  - apply drop_app_length.
  - rewrite <- app_assoc. f_equal. symmetry. apply quoted_text_split.
Qed.

Lemma not_in_app {A} (x : A) (l1 l2 : list A) :
  ~ In x l1 -> ~ In x l2 -> ~ In x (l1 ++ l2).
Proof. intros H1 H2 Hin. apply in_app_or in Hin. tauto. Qed.

(** C7 (amended): when the first "versionName " of the buffer is followed
    by a quoted value [q v q] whose text [v] is non-empty and holds no
    quote and no line break, no other [q] follows on the line, and [next]
    holds no [$], [setVersionName next] replaces exactly [v] by [next],
    keeps the quote character [q] on both sides and everything else of the
    buffer, and returns the pair of the quoted old value and [next]. *)
Theorem setVersionName_keeps_quotes (m : BaseFileManager) (w : World)
    (s1 : FM) (pre post v next : str) (q : ascii) :
  read (m, w) = (Ok (pre ++ "versionName " ++ q :: v ++ q :: post), s1) ->
  q = squote \/ q = dquote ->
  indexOf "versionName " (pre ++ "versionName " ++ q :: v ++ q :: post)
  = Some (length pre) ->
  v <> [] ->
  forallb (fun ch => negb (is_quote ch) && negb (is_line_terminator ch)) v
  = true ->
  ~ In q (line_rest post) ->
  ~ In "$"%char next ->
  BuildGradleManager.setVersionName next (m, w)
  = (Ok {| current := q :: v ++ [q]; next := next |},
     (set_content (pre ++ "versionName " ++ q :: next ++ q :: post) (fst s1),
      snd s1)).
Proof.
  intros Hread Hq Hidx Hne Hv Hpost Hnext.
  assert (Hv1 : forallb (fun ch => negb (is_quote ch)) v = true
                /\ forallb (fun ch => negb (is_line_terminator ch)) v = true).
  { clear -Hv. induction v as [| a v IH]; [auto |].
    cbn [forallb] in *. apply andb_prop in Hv as [Ha Hv].
    apply andb_prop in Ha as [-> ->]. destruct (IH Hv) as [-> ->]. auto. }
  destruct Hv1 as [Hvq Hvl].
  assert (Hqq : is_quote q = true) by (destruct Hq as [-> | ->]; reflexivity).
  assert (Hdollar : q <> "$"%char)
    by (destruct Hq as [-> | ->]; unfold squote, dquote; discriminate).
  destruct (nameExp_exec pre q v post Hq Hidx Hvl Hpost)
    as (mt & Hexec & _ & _ & Hcap).
  unfold BuildGradleManager.setVersionName, bind. rewrite Hread.
  unfold matchFirst. rewrite Hexec, Hcap.
  rewrite replace_quotes by assumption.
  rewrite replace_nameExp; try assumption.
  - destruct s1 as [m1 w1]. cbn [put_content modify fst snd ret].
    unfold put_content, modify, ret. cbn [fst snd].
    rewrite <- app_assoc. rewrite <- quoted_text_split. reflexivity.
  - apply not_in_app; [cbn; intuition discriminate |].
    intros [Heq | Hin]; [congruence |].
    apply in_app_or in Hin as [Hin | [Heq | []]]; [tauto | congruence].
Qed.

Lemma setVersionName_keeps_quotes_witness :
  let m := Demo.loaded Demo.gradle_path Demo.gradle_text in
  BuildGradleManager.setVersionName "1.10.7" (m, Demo.world)
  = (Ok {| current := dquote :: "1.10.6" ++ [dquote]; next := "1.10.7" |},
     (set_content
        ("    versionCode 23" ++ Demo.newline ++ "    versionName "
         ++ dquote :: "1.10.7" ++ dquote :: Demo.newline) m,
      Demo.world)).
Proof.
  intros m.
  apply (setVersionName_keeps_quotes m Demo.world (m, Demo.world)
           ("    versionCode 23" ++ Demo.newline ++ "    ")
           Demo.newline "1.10.6" "1.10.7" dquote).
  - reflexivity.
  - now right.
  - vm_compute. reflexivity.
  - discriminate.
  - vm_compute. reflexivity.
  - cbn. tauto.
  - cbn. intuition discriminate.
Defined.

(** C7, as stated, fails on two shapes of quoted value.  On an empty
    value the local pattern [quotes] finds no text between the quotes and
    the buffer stays as it was; on a value that holds a quote of the other
    kind only the text before that quote is replaced. *)
Lemma setVersionName_misses_some_values :
  let manager text := Demo.loaded Demo.gradle_path text in
  BuildGradleManager.setVersionName "1.2.4"
    (manager ("versionName " ++ [dquote; dquote]), Demo.world)
  = (Ok {| current := [dquote; dquote]; next := "1.2.4" |},
     (manager ("versionName " ++ [dquote; dquote]), Demo.world))
  /\ BuildGradleManager.setVersionName "1.2.4"
       (manager ("versionName " ++ dquote :: "it's" ++ [dquote]), Demo.world)
     = (Ok {| current := dquote :: "it's" ++ [dquote]; next := "1.2.4" |},
        (manager ("versionName " ++ dquote :: "1.2.4's" ++ [dquote]),
         Demo.world)).
Proof. split; vm_compute; reflexivity. Qed.
(** * Further properties *)

(** ** Cutting and joining *)

Lemma split_go_nonempty (d : ascii) (s : str) : split_go [d] 0 s <> [].
Proof.
  induction s as [| c s IH]; [discriminate |].
  cbn [split_go starts_with].
  destruct (Ascii.eqb d c); [discriminate |].
  destruct (split_go [d] 0 s); [contradiction | discriminate].
Qed.

Lemma join_split_go (d : ascii) (s : str) :
  join_strings [d] (split_go [d] 0 s) = s.
Proof.
  induction s as [| c s IH]; [reflexivity |].
  cbn [split_go starts_with length Nat.sub].
  pose proof (split_go_nonempty d s) as Hne.
  destruct (Ascii.eqb_spec d c) as [-> | Hdc].
  - destruct (split_go [c] 0 s) as [| p ps] eqn:Hs; [contradiction |].
    change (join_strings [c] ([] :: p :: ps))
      with ([] ++ [c] ++ join_strings [c] (p :: ps)).
    rewrite IH. reflexivity.
  - destruct (split_go [d] 0 s) as [| p ps] eqn:Hs; [contradiction |].
    destruct ps as [| p' ps]; cbn [join_strings app] in *; now rewrite <- IH.
Qed.

Lemma split_go_join (d : ascii) (p : str) (ps : list str) :
  Forall (fun x => ~ In d x) (p :: ps) ->
  split_go [d] 0 (join_strings [d] (p :: ps)) = p :: ps.
Proof.
  revert p. induction ps as [| p' ps IH]; intros p Hall.
  - cbn [join_strings]. apply split_go_piece. now inversion Hall.
  - inversion Hall as [| ? ? Hp Hrest]; subst.
    change (join_strings [d] (p :: p' :: ps))
      with (p ++ d :: join_strings [d] (p' :: ps)).
    rewrite split_go_cut by exact Hp.
    now rewrite IH.
Qed.

(** X1: [split] at a separator of one code unit never returns an empty
    array, joining its pieces with the separator gives the string back,
    and a non-empty list of pieces that do not hold the separator, joined
    by it, splits back into the same list. *)
Theorem split_join_round_trip (d : ascii) :
  (forall s, split [d] s <> [] /\ join_strings [d] (split [d] s) = s)
  /\ (forall pieces,
         pieces <> [] ->
         Forall (fun piece => ~ In d piece) pieces ->
         split [d] (join_strings [d] pieces) = pieces).
Proof.
  split.
  - intros s. split; [apply split_go_nonempty | apply join_split_go].
  - intros [| p ps] Hne Hall; [congruence |]. now apply split_go_join.
Qed.

Lemma split_join_round_trip_witness :
  split "." (join_strings "." ["1"; "10"; "6"]) = ["1"; "10"; "6"].
Proof.
  apply (proj2 (split_join_round_trip "."%char)); [discriminate |].
  repeat constructor; cbn; intuition discriminate.
Defined.

(** ** Decimal numerals read back *)

Lemma uint_text_digits (d : Decimal.uint) (rest : str) :
  leading_digits
    (String.list_ascii_of_string (NilEmpty.string_of_uint d) ++ rest)
  = uint_digits d ++ leading_digits rest.
Proof.
  induction d as [| d IH | d IH | d IH | d IH | d IH | d IH | d IH | d IH
                  | d IH | d IH];
    [reflexivity | ..];
    cbn [NilEmpty.string_of_uint String.list_ascii_of_string app
         leading_digits uint_digits];
    rewrite IH; reflexivity.
Qed.

Lemma uint_text_all_digits (d : Decimal.uint) :
  forallb is_digit (String.list_ascii_of_string (NilEmpty.string_of_uint d))
  = true.
Proof.
  induction d as [| d IH | d IH | d IH | d IH | d IH | d IH | d IH | d IH
                  | d IH | d IH];
    [reflexivity | ..];
    cbn [NilEmpty.string_of_uint String.list_ascii_of_string forallb];
    rewrite IH; reflexivity.
Qed.

Lemma of_uint_acc_digits (d : Decimal.uint) (acc : positive) :
  Z.pos (Pos.of_uint_acc d acc)
  = fold_left (fun a x => 10 * a + x) (uint_digits d) (Z.pos acc).
Proof.
  revert acc.
  induction d as [| d IH | d IH | d IH | d IH | d IH | d IH | d IH | d IH
                  | d IH | d IH]; intros acc;
    [reflexivity | ..];
    cbn [Pos.of_uint_acc uint_digits fold_left];
    rewrite IH; f_equal; lia.
Qed.

Lemma of_uint_digits (d : Decimal.uint) :
  Z.of_uint d = digits_to_Z (uint_digits d).
Proof.
  unfold Z.of_uint, digits_to_Z.
  induction d as [| d IH | d IH | d IH | d IH | d IH | d IH | d IH | d IH
                  | d IH | d IH];
    [reflexivity | exact IH | ..];
    cbn [Pos.of_uint uint_digits fold_left Z.of_N];
    rewrite of_uint_acc_digits; reflexivity.
Qed.

(** The numeral of a natural number is a non-empty run of digits whose
    value is the number. *)
Lemma decimal_numeral (z : Z) :
  0 <= z ->
  exists d : Decimal.uint,
    decimal z = String.list_ascii_of_string (NilEmpty.string_of_uint d)
    /\ d <> Decimal.Nil /\ Z.of_uint d = z.
Proof.
  intros Hz. destruct z as [| p | p]; [| | lia].
  - exists (Decimal.D0 Decimal.Nil). repeat split. discriminate.
  - exists (Pos.to_uint p). unfold decimal. cbn [Z.to_int NilZero.string_of_int].
    pose proof (DecimalPos.Unsigned.to_uint_nonnil p) as Hnil.
    split; [| split; [exact Hnil |]].
    + unfold NilZero.string_of_uint. now destruct (Pos.to_uint p).
    + unfold Z.of_uint. now rewrite DecimalPos.Unsigned.of_to.
Qed.

Lemma decimal_all_digits (z : Z) :
  0 <= z ->
  exists d ds, decimal z = d :: ds
               /\ is_digit d = true /\ forallb is_digit ds = true.
Proof.
  intros Hz. destruct (decimal_numeral z Hz) as (u & -> & Hnil & _).
  pose proof (uint_text_all_digits u) as Hall.
  destruct u; try congruence;
    cbn [NilEmpty.string_of_uint String.list_ascii_of_string forallb] in *;
    apply andb_prop in Hall as [Hd Hds]; eauto.
Qed.

Lemma decimal_leading_digits (z : Z) (rest : str) :
  0 <= z ->
  leading_digits rest = [] ->
  digits_to_Z (leading_digits (decimal z ++ rest)) = z.
Proof.
  intros Hz Hrest. destruct (decimal_numeral z Hz) as (u & -> & _ & Hval).
  rewrite uint_text_digits, Hrest, app_nil_r, <- of_uint_digits. exact Hval.
Qed.

(** [parseInt] reads a decimal numeral back, whatever follows it that is
    not a digit. *)
Lemma parseInt_decimal (z : Z) (rest : str) :
  leading_digits rest = [] ->
  parseInt (decimal z ++ rest) = round64 z.
Proof.
  intros Hrest.
  assert (Hpos : forall v, 0 <= v -> parseInt (decimal v ++ rest) = round64 v).
  { intros v Hv. destruct (decimal_all_digits v Hv) as (d & ds & Hdec & Hd & _).
    pose proof (decimal_leading_digits v rest Hv Hrest) as Hval.
    rewrite Hdec in *. cbn [app] in *.
    rewrite parseInt_unsigned by exact Hd. now rewrite Hval. }
  destruct (Z.le_gt_cases 0 z) as [Hz | Hz]; [now apply Hpos |].
  rewrite decimal_negative by lia.
  destruct (decimal_all_digits (- z) ltac:(lia)) as (d & ds & Hdec & Hd & _).
  pose proof (decimal_leading_digits (- z) rest ltac:(lia) Hrest) as Hval.
  rewrite Hdec in *. cbn [app] in *.
  unfold parseInt. cbn [trim_start is_white_space].
  destruct (leading_digits (d :: ds ++ rest)) as [| x xs] eqn:Hl.
  - cbn [leading_digits] in Hl. unfold is_digit in Hd.
    destruct (digit_value d); discriminate.
  - rewrite Hval. f_equal. lia.
Qed.

Lemma decimal_free_of (z : Z) (c : ascii) :
  is_digit c = false -> c <> "-"%char -> ~ In c (decimal z).
Proof.
  intros Hc Hminus.
  assert (Hpos : forall v, 0 <= v -> ~ In c (decimal v)).
  { intros v Hv. destruct (decimal_numeral v Hv) as (u & -> & _ & _).
    pose proof (uint_text_all_digits u) as Hall.
    intros Hin. rewrite forallb_forall in Hall.
    apply Hall in Hin. congruence. }
  destruct (Z.le_gt_cases 0 z) as [Hz | Hz]; [now apply Hpos |].
  rewrite decimal_negative by lia. intros [Heq | Hin]; [congruence |].
  revert Hin. apply Hpos. lia.
Qed.

(** ** The increment of a version, read back and at its edges *)

Lemma incrementSemVer_major (V : str) :
  incrementSemVer V (Some "major")
  = Ok (join "." [Some (plus_one (parseSemVer V !! 0%nat));
                  Some (Fin 0); Some (Fin 0)]).
Proof. unfold incrementSemVer. now rewrite is_kind_same. Qed.

Lemma incrementSemVer_minor (V : str) :
  incrementSemVer V (Some "minor")
  = Ok (join "." [parseSemVer V !! 0%nat;
                  Some (plus_one (parseSemVer V !! 1%nat)); Some (Fin 0)]).
Proof.
  unfold incrementSemVer.
  now rewrite is_kind_other, is_kind_same by discriminate.
Qed.

Lemma incrementSemVer_patch (V : str) :
  incrementSemVer V (Some "patch")
  = Ok (join "." [parseSemVer V !! 0%nat; parseSemVer V !! 1%nat;
                  Some (plus_one (parseSemVer V !! 2%nat))]).
Proof.
  unfold incrementSemVer.
  now rewrite !is_kind_other, is_kind_same by discriminate.
Qed.

Lemma print_safe (v : Z) :
  Z.abs v <= 2 ^ 53 ->
  num_to_string (Fin v) = decimal v
  /\ ~ In "."%char (decimal v)
  /\ parseInt (decimal v) = Fin v.
Proof.
  intros Hv. split; [now apply num_to_string_safe |]. split.
  - apply decimal_free_of; [reflexivity | discriminate].
  - rewrite <- (app_nil_r (decimal v)), parseInt_decimal by reflexivity.
    now apply round64_safe.
Qed.

(** X2: under the hypotheses of C1 the version that [incrementSemVer]
    prints reads back: [parseSemVer] of the result is the triple of the
    incremented components, so that a second increment starts from
    them. *)
Theorem incrementSemVer_reads_back (a b c : str) (x y z : Z) :
  ~ In "."%char a -> ~ In "."%char b -> ~ In "."%char c ->
  parseInt a = Fin x -> parseInt b = Fin y -> parseInt c = Fin z ->
  safe_integer x -> safe_integer y -> safe_integer z ->
  (exists V, incrementSemVer (a ++ "." ++ b ++ "." ++ c) (Some "major") = Ok V
             /\ parseSemVer V = [Fin (x + 1); Fin 0; Fin 0])
  /\ (exists V, incrementSemVer (a ++ "." ++ b ++ "." ++ c) (Some "minor")
                = Ok V
                /\ parseSemVer V = [Fin x; Fin (y + 1); Fin 0])
  /\ (exists V, incrementSemVer (a ++ "." ++ b ++ "." ++ c) (Some "patch")
                = Ok V
                /\ parseSemVer V = [Fin x; Fin y; Fin (z + 1)]).
Proof.
  unfold safe_integer, MAX_SAFE_INTEGER.
  intros Ha Hb Hc Hx Hy Hz Sx Sy Sz.
  rewrite incrementSemVer_major, incrementSemVer_minor, incrementSemVer_patch.
  rewrite parseSemVer_three by assumption.
  rewrite Hx, Hy, Hz. cbn [lookup list_lookup plus_one join element_to_string].
  rewrite !plus_one_safe by (unfold safe_integer, MAX_SAFE_INTEGER; lia).
  destruct (print_safe x ltac:(lia)) as (Px & Dx & Rx).
  destruct (print_safe y ltac:(lia)) as (Py & Dy & Ry).
  destruct (print_safe (x + 1) ltac:(lia)) as (Px1 & Dx1 & Rx1).
  destruct (print_safe (y + 1) ltac:(lia)) as (Py1 & Dy1 & Ry1).
  destruct (print_safe (z + 1) ltac:(lia)) as (Pz1 & Dz1 & Rz1).
  assert (H0 : ~ In "."%char "0") by (cbn; intuition discriminate).
  rewrite Px, Py, Px1, Py1, Pz1.
  change (num_to_string (Fin 0)) with "0".
  repeat split; eexists; (split; [reflexivity |]);
    rewrite parseSemVer_three by assumption;
    rewrite ?Rx, ?Ry, ?Rx1, ?Ry1, ?Rz1; reflexivity.
Qed.

Lemma incrementSemVer_reads_back_witness :
  exists V, incrementSemVer "1.10.6" (Some "patch") = Ok V
            /\ parseSemVer V = [Fin 1; Fin 10; Fin 7].
Proof.
  apply (incrementSemVer_reads_back "1" "10" "6" 1 10 6);
    try (unfold safe_integer, MAX_SAFE_INTEGER; simpl; lia);
    try reflexivity;
    simpl; intuition discriminate.
Defined.

Lemma incrementSemVer_parts (V W : str) (kind : option str) :
  parseSemVer V !! 0%nat = parseSemVer W !! 0%nat ->
  parseSemVer V !! 1%nat = parseSemVer W !! 1%nat ->
  parseSemVer V !! 2%nat = parseSemVer W !! 2%nat ->
  incrementSemVer V kind = incrementSemVer W kind.
Proof. intros H0 H1 H2. unfold incrementSemVer. now rewrite H0, H1, H2. Qed.

(** X3: [incrementSemVer] looks at the first three components only, and
    in the third at its leading numeral only: a fourth component, or a
    suffix after the patch number such as a pre-release tag, changes
    nothing in the result and is not carried over to it. *)
Theorem incrementSemVer_drops_the_rest (a b : str) (kind : option str) :
  ~ In "."%char a -> ~ In "."%char b ->
  (forall c extra,
      ~ In "."%char c ->
      incrementSemVer (a ++ "." ++ b ++ "." ++ c ++ "." ++ extra) kind
      = incrementSemVer (a ++ "." ++ b ++ "." ++ c) kind)
  /\ (forall z suffix,
         ~ In "."%char suffix ->
         leading_digits suffix = [] ->
         incrementSemVer (a ++ "." ++ b ++ "." ++ decimal z ++ suffix) kind
         = incrementSemVer (a ++ "." ++ b ++ "." ++ decimal z) kind).
Proof.
  intros Ha Hb. split.
  - intros c extra Hc.
    assert (Hlong : parseSemVer (a ++ "." ++ b ++ "." ++ c ++ "." ++ extra)
                    = parseInt a :: parseInt b :: parseInt c
                      :: map parseDecimal (split_go "." 0 extra)).
    { unfold parseSemVer, split, parseDecimal.
      change (a ++ "." ++ b ++ "." ++ c ++ "." ++ extra)
        with (a ++ "."%char :: b ++ "."%char :: c ++ "."%char :: extra).
      now rewrite !split_go_cut by assumption. }
    apply incrementSemVer_parts;
      rewrite Hlong, parseSemVer_three by assumption; reflexivity.
  - intros z suffix Hs Hlead.
    assert (Hz : ~ In "."%char (decimal z))
      by (apply decimal_free_of; [reflexivity | discriminate]).
    assert (Hread : parseInt (decimal z ++ suffix) = parseInt (decimal z)).
    { rewrite parseInt_decimal by exact Hlead.
      rewrite <- (app_nil_r (decimal z)).
      now rewrite parseInt_decimal. }
    apply incrementSemVer_parts;
      rewrite !parseSemVer_three
        by (try assumption; now apply not_in_app);
      cbn [lookup list_lookup]; now rewrite ?Hread.
Qed.

Lemma incrementSemVer_drops_the_rest_witness :
  incrementSemVer "1.2.3.4" (Some "patch")
  = incrementSemVer "1.2.3" (Some "patch")
  /\ incrementSemVer "1.2.3-beta" (Some "patch")
     = incrementSemVer "1.2.3" (Some "patch").
Proof.
  destruct (incrementSemVer_drops_the_rest "1" "2" (Some "patch"))
    as [Hextra Hsuffix]; [cbn; intuition discriminate .. |].
  split.
  - apply (Hextra "3" "4"). cbn; intuition discriminate.
  - apply (Hsuffix 3 "-beta"); [cbn; intuition discriminate | reflexivity].
Defined.

(** X4: a version with fewer than three components does not make
    [incrementSemVer] throw.  A missing component that is bumped becomes
    NaN, one that is carried over is printed as the empty string, and a
    first component that is not a numeral gives NaN.0.0 for major. *)
Theorem incrementSemVer_missing_components (a b : str) :
  ~ In "."%char a -> ~ In "."%char b ->
  incrementSemVer (a ++ "." ++ b) (Some "patch")
  = Ok (num_to_string (parseInt a) ++ "." ++ num_to_string (parseInt b)
        ++ ".NaN")
  /\ incrementSemVer a (Some "patch")
     = Ok (num_to_string (parseInt a) ++ "..NaN")
  /\ incrementSemVer a (Some "minor")
     = Ok (num_to_string (parseInt a) ++ ".NaN.0")
  /\ (parseInt a = NaN ->
      incrementSemVer a (Some "major") = Ok "NaN.0.0").
Proof.
  intros Ha Hb.
  assert (H2 : parseSemVer (a ++ "." ++ b) = [parseInt a; parseInt b]).
  { unfold parseSemVer, split, parseDecimal.
    change (a ++ "." ++ b) with (a ++ "."%char :: b).
    now rewrite split_go_cut, split_go_piece by assumption. }
  assert (H1 : parseSemVer a = [parseInt a]).
  { unfold parseSemVer, split, parseDecimal.
    now rewrite split_go_piece by assumption. }
  rewrite incrementSemVer_major, incrementSemVer_minor, !incrementSemVer_patch.
  rewrite H1, H2. cbn [lookup list_lookup plus_one join element_to_string].
  repeat split. intros ->. reflexivity.
Qed.

Lemma incrementSemVer_missing_components_witness :
  incrementSemVer "1.10" (Some "patch") = Ok "1.10.NaN"
  /\ incrementSemVer "1" (Some "patch") = Ok "1..NaN"
  /\ incrementSemVer "1" (Some "minor") = Ok "1.NaN.0"
  /\ (parseInt "1" = NaN -> incrementSemVer "1" (Some "major") = Ok "NaN.0.0").
Proof.
  apply (incrementSemVer_missing_components "1" "10");
    cbn; intuition discriminate.
Defined.

(** ** The buffer of a file manager *)

(** X5: a successful [read] caches the text: every later [read] returns
    it without calling the path function or looking at the disk, whatever
    the world has become.  A failed [read] leaves the buffer unloaded,
    after one call of the path function. *)
Theorem read_is_cached (m0 m : BaseFileManager) (w0 w : World)
    (r : outcome str) :
  read (m0, w0) = (r, (m, w)) ->
  match r with
  | Ok text => forall w2, read (m, w2) = (Ok text, (m, w2))
  | Throw _ => content m0 = None /\ content m = None
               /\ resolved m = S (resolved m0)
  end.
Proof.
  destruct r as [text | e]; intros Hread.
  - apply read_ok in Hread as (Hc & _). intros w2. now apply read_loaded.
  - revert Hread.
    unfold read, bind, gets, call_basePath, readFileSync, put_content, modify,
      ret.
    cbn [fst snd]. destruct (content m0) as [c |] eqn:Hc; [discriminate |].
    destruct (basePath m0) as [p | e0]; cbn [snd].
    + destruct (disk w0 !! p); [discriminate |].
      intros [= <- <- <-]. auto.
    + intros [= <- <- <-]. auto.
Qed.

Lemma read_is_cached_witness :
  let gone := {| disk := empty; written := []; console := [] |} in
  read (Demo.loaded Demo.gradle_path Demo.gradle_text, gone)
  = (Ok Demo.gradle_text,
     (Demo.loaded Demo.gradle_path Demo.gradle_text, gone)).
Proof.
  intros gone.
  apply (read_is_cached (new_manager (Ok Demo.gradle_path))
           (Demo.loaded Demo.gradle_path Demo.gradle_text)
           Demo.world Demo.world (Ok Demo.gradle_text)).
  vm_compute. reflexivity.
Defined.

(** X6: [write] never changes the buffer; a second [write] right after
    the first has the same outcome and leaves the disk as the first left
    it; and with an unloaded or empty buffer [write] does nothing at
    all. *)
Theorem write_twice (m : BaseFileManager) (w : World) :
  let first := write (m, w) in
  let second := write (snd first) in
  content (fst (snd first)) = content m
  /\ fst second = fst first
  /\ disk (snd (snd second)) = disk (snd (snd first))
  /\ (truthy (content m) = false -> first = (Ok tt, (m, w))).
Proof.
  unfold write, bind, gets, call_basePath, writeFile, modify, ret.
  cbn [fst snd].
  destruct (content m) as [[| ch text] |] eqn:Hc; cbn [fst snd];
    rewrite ?Hc; auto.
  destruct (basePath m) as [p | e] eqn:Hp; unfold count_resolve;
    repeat (progress (cbn [fst snd content basePath]; rewrite ?Hc, ?Hp));
    repeat split; try discriminate.
  unfold write_disk. cbn [disk]. apply insert_insert_eq.
Qed.

Lemma write_twice_witness :
  write (new_manager (Ok Demo.gradle_path), Demo.world)
  = (Ok tt, (new_manager (Ok Demo.gradle_path), Demo.world)).
Proof.
  pose proof (write_twice (new_manager (Ok Demo.gradle_path)) Demo.world)
    as H.
  cbv zeta in H. destruct H as (_ & _ & _ & H). apply H. reflexivity.
Defined.

(** ** Parts of the state a computation leaves alone *)

Section Frames.
Context {S X : Type} (part : S -> X).

Lemma keeps_ret {A} (a : A) : keeps part (ret a).
Proof. intros s. reflexivity. Qed.

Lemma keeps_throw {A} (e : exn) : keeps part (@throw S A e).
Proof. intros s. reflexivity. Qed.

Lemma keeps_lift {A} (o : outcome A) : keeps part (lift o).
Proof. intros s. reflexivity. Qed.

Lemma keeps_gets {A} (f : S -> A) : keeps part (gets f).
Proof. intros s. reflexivity. Qed.

Lemma keeps_bind {A B} (f : M S A) (g : A -> M S B) :
  keeps part f -> (forall a, keeps part (g a)) -> keeps part (bind f g).
Proof.
  intros Hf Hg s. unfold bind. specialize (Hf s).
  destruct (f s) as [[a | e] s1]; cbn [snd] in *; [| exact Hf].
  now rewrite Hg.
Qed.

Lemma keeps_when (b : bool) (f : M S unit) :
  (b = true -> keeps part f) -> keeps part (when b f).
Proof. destruct b; [auto | intros _; apply keeps_ret]. Qed.

(** One step of a sequence, on a given state. *)
Lemma kept_bind {A B} (f : M S A) (g : A -> M S B) (s : S) :
  part (snd (f s)) = part s ->
  (forall a s1, f s = (Ok a, s1) -> part (snd (g a s1)) = part s1) ->
  part (snd (bind f g s)) = part s.
Proof.
  intros Hf Hg. unfold bind.
  destruct (f s) as [[a | e] s1] eqn:Hfs; cbn [snd] in *; [| exact Hf].
  now rewrite (Hg a s1 eq_refl).
Qed.

End Frames.

Ltac keeps_step :=
  match goal with
  | |- keeps _ (ret _) => apply keeps_ret
  | |- keeps _ (throw _) => apply keeps_throw
  | |- keeps _ (lift _) => apply keeps_lift
  | |- keeps _ (gets _) => apply keeps_gets
  | |- keeps _ (when _ _) => apply keeps_when; intros ?
  | |- keeps _ (bind _ _) => apply keeps_bind; [| intros ?]
  | |- keeps _ (if ?b then _ else _) => destruct b
  | |- keeps _ (match ?x with _ => _ end) => destruct x
  end.

Section OrchestratorFrames.
Context {rt : Runtime}.
Import ProjectFilesManager.

Lemma on_pbx_keeps_buildGradle {A} (f : M FM A) :
  keeps buildGradle (on_pbx f).
Proof.
  intros s. unfold on_pbx, zoom.
  now destruct (f (pbx s, world s)) as [r [m w]].
Qed.

Lemma on_pbx_keeps_packageJSON {A} (f : M FM A) :
  keeps packageJSON (on_pbx f).
Proof.
  intros s. unfold on_pbx, zoom.
  now destruct (f (pbx s, world s)) as [r [m w]].
Qed.

Lemma on_buildGradle_keeps_pbx {A} (f : M FM A) :
  keeps pbx (on_buildGradle f).
Proof.
  intros s. unfold on_buildGradle, zoom.
  now destruct (f (buildGradle s, world s)) as [r [m w]].
Qed.

Lemma on_buildGradle_keeps_packageJSON {A} (f : M FM A) :
  keeps packageJSON (on_buildGradle f).
Proof.
  intros s. unfold on_buildGradle, zoom.
  now destruct (f (buildGradle s, world s)) as [r [m w]].
Qed.

Lemma on_packageJSON_keeps_pbx {A} (f : M (PackageJSONManager.t * World) A) :
  keeps pbx (on_packageJSON f).
Proof.
  intros s. unfold on_packageJSON, zoom.
  now destruct (f (packageJSON s, world s)) as [r [m w]].
Qed.

Lemma on_packageJSON_keeps_buildGradle {A}
    (f : M (PackageJSONManager.t * World) A) :
  keeps buildGradle (on_packageJSON f).
Proof.
  intros s. unfold on_packageJSON, zoom.
  now destruct (f (packageJSON s, world s)) as [r [m w]].
Qed.

Lemma console_log_keeps {X} (part : t -> X) (line : str) :
  (forall s w, part {| pbx := pbx s; buildGradle := buildGradle s;
                       packageJSON := packageJSON s; world := w |} = part s) ->
  keeps part (console_log line).
Proof. intros H s. apply H. Qed.

Lemma bumpCodes_keeps_packageJSON (configs : Configs) :
  keeps packageJSON (bumpCodes configs).
Proof.
  unfold bumpCodes. repeat keeps_step;
    auto using on_pbx_keeps_packageJSON, on_buildGradle_keeps_packageJSON;
    now apply console_log_keeps.
Qed.

Lemma includes_skipped (l : list str) (platform : str) (f : M t unit) :
  includes l platform = true -> when (negb (includes l platform)) f = ret tt.
Proof. now intros ->. Qed.

Lemma bumpCodes_keeps_pbx (configs : Configs) :
  includes (skipCodeFor configs) "ios" = true ->
  keeps pbx (bumpCodes configs).
Proof.
  intros Hskip. unfold bumpCodes. rewrite includes_skipped by exact Hskip.
  repeat keeps_step; auto using on_buildGradle_keeps_pbx;
    now apply console_log_keeps.
Qed.

Lemma bumpCodes_keeps_buildGradle (configs : Configs) :
  includes (skipCodeFor configs) "android" = true ->
  keeps buildGradle (bumpCodes configs).
Proof.
  intros Hskip. unfold bumpCodes.
  rewrite (includes_skipped _ "android") by exact Hskip.
  repeat keeps_step; auto using on_pbx_keeps_buildGradle;
    now apply console_log_keeps.
Qed.

Lemma syncSemver_keeps_pbx (configs : Configs) (v : str) :
  includes (skipSemverFor configs) "ios" = true ->
  keeps pbx (syncSemver configs v).
Proof.
  intros Hskip. unfold syncSemver. rewrite includes_skipped by exact Hskip.
  repeat keeps_step;
    auto using on_buildGradle_keeps_pbx, on_packageJSON_keeps_pbx;
    now apply console_log_keeps.
Qed.

Lemma syncSemver_keeps_buildGradle (configs : Configs) (v : str) :
  includes (skipSemverFor configs) "android" = true ->
  keeps buildGradle (syncSemver configs v).
Proof.
  intros Hskip. unfold syncSemver.
  rewrite (includes_skipped _ "android") by exact Hskip.
  repeat keeps_step;
    auto using on_pbx_keeps_buildGradle, on_packageJSON_keeps_buildGradle;
    now apply console_log_keeps.
Qed.

Lemma skips_cases (l : list str) (platform : str) :
  skips l platform = true ->
  includes l "all" = true
  \/ (includes l "all" = false /\ includes l platform = true).
Proof.
  unfold skips. destruct (includes l "all"); [auto |].
  rewrite orb_false_r. auto.
Qed.

Lemma dryRun_keeps_pbx (configs : Configs) :
  skips (skipCodeFor configs) "ios" = true ->
  skips (skipSemverFor configs) "ios" = true ->
  keeps pbx (dryRun configs).
Proof.
  intros Hcode Hsem. unfold dryRun.
  apply keeps_bind; [apply on_packageJSON_keeps_pbx | intros cur].
  apply keeps_bind; [repeat keeps_step | intros nx].
  apply keeps_bind; [| intros _].
  - apply skips_cases in Hcode as [-> | [-> Hios]]; cbn [negb when].
    + apply keeps_ret.
    + now apply bumpCodes_keeps_pbx.
  - apply skips_cases in Hsem as [-> | [-> Hios]]; cbn [negb when].
    + apply keeps_ret.
    + destruct (falsy (type configs)); [apply keeps_throw |].
      now apply syncSemver_keeps_pbx.
Qed.

Lemma dryRun_keeps_buildGradle (configs : Configs) :
  skips (skipCodeFor configs) "android" = true ->
  skips (skipSemverFor configs) "android" = true ->
  keeps buildGradle (dryRun configs).
Proof.
  intros Hcode Hsem. unfold dryRun.
  apply keeps_bind; [apply on_packageJSON_keeps_buildGradle | intros cur].
  apply keeps_bind; [repeat keeps_step | intros nx].
  apply keeps_bind; [| intros _].
  - apply skips_cases in Hcode as [-> | [-> Hios]]; cbn [negb when].
    + apply keeps_ret.
    + now apply bumpCodes_keeps_buildGradle.
  - apply skips_cases in Hsem as [-> | [-> Hios]]; cbn [negb when].
    + apply keeps_ret.
    + destruct (falsy (type configs)); [apply keeps_throw |].
      now apply syncSemver_keeps_buildGradle.
Qed.

Lemma write_unloaded (m : BaseFileManager) (w : World) :
  truthy (content m) = false -> write (m, w) = (Ok tt, (m, w)).
Proof.
  intros H. unfold write, bind, gets. cbn [fst].
  now destruct (content m) as [[| ch text] |].
Qed.

Lemma run_tail_without_version_file (configs : Configs) :
  truthy (versionFile configs) = false ->
  match versionFile configs with
  | Some ((_ :: _) as name) => saveVersionFile configs name
  | _ => ret tt
  end = ret tt.
Proof. now destruct (versionFile configs) as [[| ch name] |]. Qed.

Lemma run_keeps_pbx (configs : Configs) (s : t) :
  truthy (versionFile configs) = false ->
  skips (skipCodeFor configs) "ios" = true ->
  skips (skipSemverFor configs) "ios" = true ->
  truthy (content (pbx s)) = false ->
  pbx (snd (run configs s)) = pbx s.
Proof.
  intros Hfile Hcode Hsem Hcontent. unfold run.
  rewrite (run_tail_without_version_file configs Hfile).
  apply kept_bind; [now apply dryRun_keeps_pbx |].
  intros [] s1 Hdry.
  assert (Hpbx : pbx s1 = pbx s).
  { pose proof (dryRun_keeps_pbx configs Hcode Hsem s) as H.
    now rewrite Hdry in H. }
  apply kept_bind.
  - unfold on_pbx, zoom. rewrite write_unloaded by now rewrite Hpbx.
    reflexivity.
  - intros _ s2 _. revert s2.
    apply (keeps_bind pbx); [apply on_buildGradle_keeps_pbx | intros _].
    apply (keeps_bind pbx); [apply on_packageJSON_keeps_pbx | intros _].
    apply keeps_ret.
Qed.

Lemma run_keeps_buildGradle (configs : Configs) (s : t) :
  truthy (versionFile configs) = false ->
  skips (skipCodeFor configs) "android" = true ->
  skips (skipSemverFor configs) "android" = true ->
  truthy (content (buildGradle s)) = false ->
  buildGradle (snd (run configs s)) = buildGradle s.
Proof.
  intros Hfile Hcode Hsem Hcontent. unfold run.
  rewrite (run_tail_without_version_file configs Hfile).
  apply kept_bind; [now apply dryRun_keeps_buildGradle |].
  intros [] s1 Hdry.
  assert (Hgradle : buildGradle s1 = buildGradle s).
  { pose proof (dryRun_keeps_buildGradle configs Hcode Hsem s) as H.
    now rewrite Hdry in H. }
  apply kept_bind; [apply on_pbx_keeps_buildGradle |].
  intros [] s2 Hw.
  assert (Hgradle2 : buildGradle s2 = buildGradle s1).
  { pose proof (on_pbx_keeps_buildGradle write s1) as H.
    now rewrite Hw in H. }
  apply kept_bind.
  - unfold on_buildGradle, zoom.
    rewrite write_unloaded by now rewrite Hgradle2, Hgradle.
    reflexivity.
  - intros _ s3 _. revert s3.
    apply (keeps_bind buildGradle);
      [apply on_packageJSON_keeps_buildGradle | intros _].
    apply keeps_ret.
Qed.

(** X7: when no version file is asked for, a platform that both skip
    lists leave out (by its name or by "all") is not touched by [run]: if
    its buffer was not loaded its manager comes out as it went in, so its
    file is neither read nor written and its path function is never
    called. *)
Theorem run_leaves_skipped_platform (configs : Configs) (s : t) :
  truthy (versionFile configs) = false ->
  (skips (skipCodeFor configs) "ios" = true ->
   skips (skipSemverFor configs) "ios" = true ->
   truthy (content (pbx s)) = false ->
   pbx (snd (run configs s)) = pbx s)
  /\ (skips (skipCodeFor configs) "android" = true ->
      skips (skipSemverFor configs) "android" = true ->
      truthy (content (buildGradle s)) = false ->
      buildGradle (snd (run configs s)) = buildGradle s).
Proof.
  intros Hfile. split; intros; [apply run_keeps_pbx | apply run_keeps_buildGradle];
    assumption.
Qed.

End OrchestratorFrames.

Lemma run_leaves_skipped_platform_witness :
  let configs :=
    {| type := Some "patch"; semver := None;
       skipSemverFor := ["ios"]; skipCodeFor := ["ios"];
       versionFile := None; root := "/app";
       pbxprojPath :=
         Throw (Error (required_message "undefined" "project.ios"));
       buildGradlePath := Ok Demo.gradle_path |} in
  let s := @ProjectFilesManager.new Demo.runtime configs Demo.world in
  ProjectFilesManager.pbx (snd (@ProjectFilesManager.run Demo.runtime configs s))
  = new_manager (Throw (Error (required_message "undefined" "project.ios"))).
Proof.
  intros configs s.
  apply (proj1 (@run_leaves_skipped_platform Demo.runtime configs s eq_refl));
    reflexivity.
Defined.

(** ** The manifest *)

Section Manifest.
Context {rt : Runtime}.
Import ProjectFilesManager.

Lemma PackageJSON_read_ok (m m' : PackageJSONManager.t) (w w' : World)
    (parsed : manifest) :
  PackageJSONManager.read (m, w) = (Ok parsed, (m', w')) ->
  PackageJSONManager.content m' = Some parsed
  /\ PackageJSONManager.basePath m' = PackageJSONManager.basePath m
  /\ w' = w.
Proof.
  unfold PackageJSONManager.read, bind, gets, PackageJSONManager.call_basePath,
    lift, readFileSync, modify, ret.
  cbn [fst snd]. destruct (PackageJSONManager.content m) as [c |] eqn:Hc.
  - intros [= <- <- <-]. auto.
  - destruct (PackageJSONManager.basePath m) as [p | e] eqn:Hp;
      [| discriminate].
    destruct (require_resolve p) as [q | e]; [| discriminate].
    cbn [snd]. destruct (disk w !! q) as [raw |]; [| discriminate].
    destruct (JSON_parse raw) as [parsed' | e]; [| discriminate].
    intros [= <- <- <-]. auto.
Qed.

Lemma PackageJSON_read_loaded (m : PackageJSONManager.t) (w : World)
    (parsed : manifest) :
  PackageJSONManager.content m = Some parsed ->
  PackageJSONManager.read (m, w) = (Ok parsed, (m, w)).
Proof.
  intros H. unfold PackageJSONManager.read, bind, gets. cbn. now rewrite H.
Qed.

Lemma setVersion_ok (v : str) (m m' : PackageJSONManager.t) (w w' : World)
    (r : change str str) :
  PackageJSONManager.setVersion v (m, w) = (Ok r, (m', w')) ->
  exists (old : manifest) (m1 : PackageJSONManager.t),
    PackageJSONManager.read (m, w) = (Ok old, (m1, w))
    /\ m' = PackageJSONManager.set_content
              {| version := v; members := members old |} m1
    /\ r = {| current := version old; next := v |}
    /\ w' = w.
Proof.
  unfold PackageJSONManager.setVersion, PackageJSONManager.getVersion.
  unfold bind at 1 2.
  destruct (PackageJSONManager.read (m, w)) as [[old | e] [m1 w1]] eqn:Hread;
    [| discriminate].
  destruct (PackageJSON_read_ok _ _ _ _ _ Hread) as (Hc & _ & ->).
  unfold ret at 1. unfold bind, modify, ret. rewrite Hc.
  intros [= <- <- <-]. exists old, m1. auto.
Qed.

(** X8: after a successful [setVersion v] the world is unchanged,
    [getVersion] returns [v] from the cache whatever the world, the value
    reported as current is what [getVersion] returned before, and [write]
    serializes the manifest that was read with only its version replaced,
    at the unresolved path of the manager. *)
Theorem setVersion_then_getVersion (v : str) (m m' : PackageJSONManager.t)
    (w w' : World) (r : change str str) :
  PackageJSONManager.setVersion v (m, w) = (Ok r, (m', w')) ->
  w' = w
  /\ next r = v
  /\ PackageJSONManager.getVersion (m, w) = (Ok (current r), snd (PackageJSONManager.read (m, w)))
  /\ (forall w2, PackageJSONManager.getVersion (m', w2) = (Ok v, (m', w2)))
  /\ exists old,
       fst (PackageJSONManager.read (m, w)) = Ok old
       /\ forall p w2,
            PackageJSONManager.basePath m = Ok p ->
            PackageJSONManager.write (m', w2)
            = (Ok tt,
               (PackageJSONManager.count_resolve m',
                write_disk p
                  (JSON_stringify_manifest
                     {| version := v; members := members old |}) w2)).
Proof.
  intros Hset.
  destruct (setVersion_ok _ _ _ _ _ _ Hset) as (old & m1 & Hread & -> & -> & ->).
  destruct (PackageJSON_read_ok _ _ _ _ _ Hread) as (Hc & Hbase & _).
  split; [reflexivity |]. split; [reflexivity |]. split; [| split].
  - unfold PackageJSONManager.getVersion, bind. now rewrite Hread.
  - intros w2. unfold PackageJSONManager.getVersion, bind.
    now rewrite PackageJSON_read_loaded
      with (parsed := {| version := v; members := members old |}).
  - exists old. rewrite Hread. split; [reflexivity |].
    intros p w2 Hp.
    unfold PackageJSONManager.write, bind, gets,
      PackageJSONManager.call_basePath, modify.
    cbn [fst snd PackageJSONManager.content PackageJSONManager.set_content
         PackageJSONManager.basePath].
    now rewrite Hbase, Hp.
Qed.

Lemma getVersion_ok (m m' : PackageJSONManager.t) (w w' : World) (cur : str) :
  PackageJSONManager.getVersion (m, w) = (Ok cur, (m', w')) ->
  exists parsed,
    PackageJSONManager.content m' = Some parsed /\ version parsed = cur.
Proof.
  unfold PackageJSONManager.getVersion, bind.
  destruct (PackageJSONManager.read (m, w)) as [[old | e] [m1 w1]] eqn:Hread;
    [| discriminate].
  intros [= <- <- <-].
  destruct (PackageJSON_read_ok _ _ _ _ _ Hread) as (Hc & _). eauto.
Qed.

Lemma on_packageJSON_result {A} (f : M (PackageJSONManager.t * World) A)
    (s s' : t) (r : outcome A) :
  on_packageJSON f s = (r, s') ->
  f (packageJSON s, world s) = (r, (packageJSON s', world s')).
Proof.
  unfold on_packageJSON, zoom.
  destruct (f (packageJSON s, world s)) as [r0 [m w]].
  now intros [= <- <-].
Qed.

Lemma console_log_keeps_packageJSON (line : str) :
  keeps packageJSON (console_log line).
Proof. now intros s. Qed.

(** A sync that returns leaves the loaded manifest with the new version
    and its other members. *)
Lemma syncSemver_ok (configs : Configs) (v : str) (s s' : t)
    (old : manifest) :
  PackageJSONManager.content (packageJSON s) = Some old ->
  syncSemver configs v s = (Ok tt, s') ->
  PackageJSONManager.content (packageJSON s')
  = Some {| version := v; members := members old |}.
Proof.
  intros Hold. unfold syncSemver. unfold bind at 1.
  assert (Hios : keeps packageJSON
            (when (negb (includes (skipSemverFor configs) "ios"))
               (r <- on_pbx (PBXManager.setMarketingVersion v) ;;
                console_log ("iOS project.pbxproj version: "
                             ++ ToString (current r) ++ " -> " ++ next r))))
    by (repeat keeps_step;
        auto using on_pbx_keeps_packageJSON, console_log_keeps_packageJSON).
  specialize (Hios s).
  destruct (when _ _ s) as [[[] | e] s1]; cbn [snd] in Hios; [| discriminate].
  unfold bind at 1.
  assert (Handroid : keeps packageJSON
            (when (negb (includes (skipSemverFor configs) "android"))
               (r <- on_buildGradle (BuildGradleManager.setVersionName v) ;;
                console_log ("Android gradle.build version: "
                             ++ current r ++ " -> " ++ next r))))
    by (repeat keeps_step;
        auto using on_buildGradle_keeps_packageJSON,
          console_log_keeps_packageJSON).
  specialize (Handroid s1).
  destruct (when _ _ s1) as [[[] | e] s2]; cbn [snd] in Handroid;
    [| discriminate].
  unfold bind at 1.
  destruct (on_packageJSON (PackageJSONManager.setVersion v) s2)
    as [[r | e] s3] eqn:Hset; [| discriminate].
  apply on_packageJSON_result in Hset.
  destruct (setVersion_ok _ _ _ _ _ _ Hset) as (old' & m1 & Hread & Hm & _).
  rewrite (PackageJSON_read_loaded _ _ old) in Hread
    by now rewrite Handroid, Hios.
  injection Hread as <- <-.
  unfold console_log, modify. intros [= <-]. cbn [packageJSON].
  now rewrite Hm.
Qed.

(** What [dryRun] leaves of the manifest when it returns. *)
Lemma dryRun_manifest (configs : Configs) (s s' : t) :
  dryRun configs s = (Ok tt, s') ->
  exists (old : manifest) (target : str) (s1 : t),
    on_packageJSON PackageJSONManager.getVersion s = (Ok (version old), s1)
    /\ PackageJSONManager.content (packageJSON s1) = Some old
    /\ match semver configs with
       | Some v => target = v
       | None =>
           incrementSemVer (version old) (type_or_minor configs) = Ok target
       end
    /\ PackageJSONManager.content (packageJSON s')
       = Some (if includes (skipSemverFor configs) "all" then old
               else {| version := target; members := members old |}).
Proof.
  unfold dryRun. unfold bind at 1.
  destruct (on_packageJSON PackageJSONManager.getVersion s)
    as [[cur | e] s1] eqn:Hget; [| discriminate].
  assert (Hcur : exists old,
             PackageJSONManager.content (packageJSON s1) = Some old
             /\ version old = cur).
  { apply on_packageJSON_result in Hget. now apply getVersion_ok in Hget. }
  destruct Hcur as (old & Hold & <-).
  unfold bind at 1.
  destruct (match semver configs with
            | Some v => ret v
            | None =>
                lift (incrementSemVer (version old) (type_or_minor configs))
            end s1) as [[target | e] s2] eqn:Htarget; [| discriminate].
  assert (Hs2 : s2 = s1
                /\ match semver configs with
                   | Some v => target = v
                   | None =>
                       incrementSemVer (version old) (type_or_minor configs)
                       = Ok target
                   end).
  { destruct (semver configs); unfold ret, lift in Htarget;
      now inversion Htarget. }
  destruct Hs2 as [-> Hnext].
  unfold bind at 1.
  destruct (when (negb (includes (skipCodeFor configs) "all"))
              (bumpCodes configs) s1) as [[[] | e] s3] eqn:Hbump;
    [| discriminate].
  assert (Hs3 : packageJSON s3 = packageJSON s1).
  { assert (Hk : keeps packageJSON
                   (when (negb (includes (skipCodeFor configs) "all"))
                      (bumpCodes configs)))
      by (apply keeps_when; intros _; apply bumpCodes_keeps_packageJSON).
    specialize (Hk s1). now rewrite Hbump in Hk. }
  intros Hsync. exists old, target, s1.
  split; [reflexivity |]. split; [exact Hold |]. split; [exact Hnext |].
  destruct (includes (skipSemverFor configs) "all"); cbn [negb when] in Hsync.
  - unfold ret in Hsync. injection Hsync as <-. now rewrite Hs3.
  - destruct (falsy (type configs)); [discriminate |].
    apply (syncSemver_ok configs target s3 s' old); [| exact Hsync].
    now rewrite Hs3.
Qed.

(** X9: when [dryRun] returns, the manifest held in memory carries the
    target version (the override if one is given, else the increment of
    the version read), unless version sync is skipped for all, in which
    case it still carries the version read. *)
Theorem dryRun_sets_the_manifest_version (configs : Configs) (s s' : t) :
  dryRun configs s = (Ok tt, s') ->
  exists (cur target : str) (s1 : t),
    on_packageJSON PackageJSONManager.getVersion s = (Ok cur, s1)
    /\ match semver configs with
       | Some v => target = v
       | None => incrementSemVer cur (type_or_minor configs) = Ok target
       end
    /\ option_map version (PackageJSONManager.content (packageJSON s'))
       = Some (if includes (skipSemverFor configs) "all" then cur else target).
Proof.
  intros Hdry.
  destruct (dryRun_manifest configs s s' Hdry)
    as (old & target & s1 & Hget & _ & Htarget & Hcontent).
  exists (version old), target, s1.
  split; [exact Hget |]. split; [exact Htarget |].
  rewrite Hcontent. now destruct (includes (skipSemverFor configs) "all").
Qed.

(** X10: without an override, a release kind that is none of the three
    makes [dryRun] and [run] throw the error of [incrementSemVer] right
    after the read of the manifest, whatever the skip lists: the two
    platform managers, the console and the disk are as before. *)
Theorem dryRun_rejects_unknown_kind (configs : Configs) (k cur : str)
    (s s1 : t) :
  semver configs = None ->
  type configs = Some k ->
  k <> "major" -> k <> "minor" -> k <> "patch" ->
  on_packageJSON PackageJSONManager.getVersion s = (Ok cur, s1) ->
  dryRun configs s = (Throw (Error ("'" ++ k ++ "' is not a semver type")), s1)
  /\ run configs s
     = (Throw (Error ("'" ++ k ++ "' is not a semver type")), s1)
  /\ pbx s1 = pbx s /\ buildGradle s1 = buildGradle s
  /\ console (world s1) = console (world s)
  /\ untouched (world s) (world s1).
Proof.
  intros Hsemver Hkind Hmajor Hminor Hpatch Hget.
  assert (Hdry : dryRun configs s
                 = (Throw (Error ("'" ++ k ++ "' is not a semver type")), s1)).
  { unfold dryRun. unfold bind at 1. rewrite Hget, Hsemver.
    unfold bind at 1, type_or_minor, lift, incrementSemVer.
    rewrite Hkind, !is_kind_other by congruence. reflexivity. }
  split; [exact Hdry |]. split.
  - unfold run. unfold bind at 1. now rewrite Hdry.
  - pose proof (on_packageJSON_keeps_pbx PackageJSONManager.getVersion s)
      as Hpbx.
    pose proof (on_packageJSON_keeps_buildGradle PackageJSONManager.getVersion
                  s) as Hgradle.
    pose proof (ro_on_packageJSON _ ro_getVersion s) as Hro.
    rewrite Hget in Hpbx, Hgradle, Hro. cbn [snd] in *.
    repeat split; try assumption; try apply Hro.
    apply on_packageJSON_result in Hget.
    unfold PackageJSONManager.getVersion, bind in Hget.
    destruct (PackageJSONManager.read (packageJSON s, world s))
      as [[old | e] [m1 w1]] eqn:Hread; [| discriminate].
    destruct (PackageJSON_read_ok _ _ _ _ _ Hread) as (_ & _ & ->).
    now inversion Hget.
Qed.

End Manifest.

Lemma setVersion_then_getVersion_witness :
  let m' :=
    {| PackageJSONManager.basePath := Ok "/app/package.json";
       PackageJSONManager.content :=
         Some {| version := "2.0.0"; members := [] |};
       PackageJSONManager.resolved := 1 |} in
  let gone := {| disk := empty; written := []; console := [] |} in
  @PackageJSONManager.getVersion Demo.runtime (m', gone)
  = (Ok "2.0.0", (m', gone)).
Proof.
  intros m' gone.
  apply (@setVersion_then_getVersion Demo.runtime "2.0.0"
           (PackageJSONManager.new (Ok "/app/package.json")) m'
           Demo.world Demo.world
           {| current := "1.10.6"; next := "2.0.0" |}).
  vm_compute. reflexivity.
Defined.

Lemma dryRun_sets_the_manifest_version_witness :
  let s := @ProjectFilesManager.new Demo.runtime Demo.configs Demo.world in
  let s' := snd (@ProjectFilesManager.dryRun Demo.runtime Demo.configs s) in
  exists (cur target : str) (s1 : ProjectFilesManager.t),
    ProjectFilesManager.on_packageJSON
      (@PackageJSONManager.getVersion Demo.runtime) s = (Ok cur, s1)
    /\ incrementSemVer cur (Some "patch") = Ok target
    /\ option_map version
         (PackageJSONManager.content (ProjectFilesManager.packageJSON s'))
       = Some target.
Proof.
  intros s s'.
  apply (@dryRun_sets_the_manifest_version Demo.runtime Demo.configs s s').
  apply injective_projections; [vm_compute; reflexivity | reflexivity].
Defined.

Lemma dryRun_rejects_unknown_kind_witness :
  let configs := with_type (Some "release") Demo.configs in
  let s := @ProjectFilesManager.new Demo.runtime configs Demo.world in
  fst (@ProjectFilesManager.dryRun Demo.runtime configs s)
  = Throw (Error "'release' is not a semver type").
Proof.
  intros configs s.
  destruct (@dryRun_rejects_unknown_kind Demo.runtime configs "release"
              "1.10.6" s
              (snd (ProjectFilesManager.on_packageJSON
                      (@PackageJSONManager.getVersion Demo.runtime) s))
              eq_refl eq_refl)
    as [H _]; try discriminate.
  - apply injective_projections; [vm_compute; reflexivity | reflexivity].
  - now rewrite H.
Defined.

(** ** Where [run] writes, and where it stops *)

(** No operation of a file manager changes its path. *)
Lemma call_basePath_keeps_path :
  keeps (fun s : FM => basePath (fst s)) call_basePath.
Proof. now intros [m w]. Qed.

Lemma put_content_keeps_path (text : str) :
  keeps (fun s : FM => basePath (fst s)) (put_content text).
Proof. now intros [m w]. Qed.

Lemma writeFile_keeps_path (p text : str) :
  keeps (fun s : FM => basePath (fst s)) (writeFile p text).
Proof. now intros [m w]. Qed.

Lemma readFileSync_keeps {S X} (part : S -> X) (world : S -> World)
    (p : str) :
  keeps part (readFileSync world p).
Proof. intros s. unfold readFileSync. now destruct (disk (world s) !! p). Qed.

Lemma read_keeps_path : keeps (fun s : FM => basePath (fst s)) read.
Proof.
  unfold read. repeat keeps_step;
    auto using call_basePath_keeps_path, put_content_keeps_path,
      readFileSync_keeps.
Qed.

Lemma write_keeps_path : keeps (fun s : FM => basePath (fst s)) write.
Proof.
  unfold write. repeat keeps_step;
    auto using call_basePath_keeps_path, writeFile_keeps_path.
Qed.

Ltac path_kept :=
  repeat keeps_step;
  auto using read_keeps_path, write_keeps_path, put_content_keeps_path.

Lemma bumpProjectVersion_keeps_path :
  keeps (fun s : FM => basePath (fst s)) PBXManager.bumpProjectVersion.
Proof. unfold PBXManager.bumpProjectVersion. path_kept. Qed.

Lemma setMarketingVersion_keeps_path (v : str) :
  keeps (fun s : FM => basePath (fst s)) (PBXManager.setMarketingVersion v).
Proof. unfold PBXManager.setMarketingVersion. path_kept. Qed.

Lemma getCurrentMarketingVersion_keeps_path :
  keeps (fun s : FM => basePath (fst s)) PBXManager.getCurrentMarketingVersion.
Proof. unfold PBXManager.getCurrentMarketingVersion. path_kept. Qed.

Lemma getCurrentProjectVersion_keeps_path :
  keeps (fun s : FM => basePath (fst s)) PBXManager.getCurrentProjectVersion.
Proof. unfold PBXManager.getCurrentProjectVersion. path_kept. Qed.

Lemma bumpCode_keeps_path :
  keeps (fun s : FM => basePath (fst s)) BuildGradleManager.bumpCode.
Proof. unfold BuildGradleManager.bumpCode. path_kept. Qed.

Lemma setVersionName_keeps_path (v : str) :
  keeps (fun s : FM => basePath (fst s)) (BuildGradleManager.setVersionName v).
Proof. unfold BuildGradleManager.setVersionName. path_kept. Qed.

Lemma getVersionName_keeps_path :
  keeps (fun s : FM => basePath (fst s)) BuildGradleManager.getVersionName.
Proof. unfold BuildGradleManager.getVersionName. path_kept. Qed.

Lemma getVersionCode_keeps_path :
  keeps (fun s : FM => basePath (fst s)) BuildGradleManager.getVersionCode.
Proof. unfold BuildGradleManager.getVersionCode. path_kept. Qed.

Lemma ro_getCurrentMarketingVersion :
  read_only snd PBXManager.getCurrentMarketingVersion.
Proof.
  unfold PBXManager.getCurrentMarketingVersion. read_only; auto using ro_read.
Qed.

Lemma ro_getCurrentProjectVersion :
  read_only snd PBXManager.getCurrentProjectVersion.
Proof.
  unfold PBXManager.getCurrentProjectVersion. read_only; auto using ro_read.
Qed.

Lemma ro_getVersionName : read_only snd BuildGradleManager.getVersionName.
Proof.
  unfold BuildGradleManager.getVersionName. read_only; auto using ro_read.
Qed.

Lemma ro_getVersionCode : read_only snd BuildGradleManager.getVersionCode.
Proof.
  unfold BuildGradleManager.getVersionCode. read_only; auto using ro_read.
Qed.

Section Paths.
Context {rt : Runtime}.
Import ProjectFilesManager.

Lemma PackageJSON_read_keeps_path :
  keeps (fun s : PackageJSONManager.t * World =>
           PackageJSONManager.basePath (fst s))
    PackageJSONManager.read.
Proof.
  unfold PackageJSONManager.read. repeat keeps_step;
    auto using readFileSync_keeps; now intros [? ?].
Qed.

Lemma PackageJSON_write_keeps_path :
  keeps (fun s : PackageJSONManager.t * World =>
           PackageJSONManager.basePath (fst s))
    PackageJSONManager.write.
Proof.
  unfold PackageJSONManager.write. repeat keeps_step; now intros [? ?].
Qed.

Lemma getVersion_keeps_path :
  keeps (fun s : PackageJSONManager.t * World =>
           PackageJSONManager.basePath (fst s))
    PackageJSONManager.getVersion.
Proof.
  unfold PackageJSONManager.getVersion. repeat keeps_step.
  apply PackageJSON_read_keeps_path.
Qed.

Lemma setVersion_keeps_path (v : str) :
  keeps (fun s : PackageJSONManager.t * World =>
           PackageJSONManager.basePath (fst s))
    (PackageJSONManager.setVersion v).
Proof.
  unfold PackageJSONManager.setVersion. repeat keeps_step.
  - apply getVersion_keeps_path.
  - intros [m w]. cbn. now destruct (PackageJSONManager.content m).
Qed.

Lemma on_pbx_keeps_paths {A} (f : M FM A) :
  keeps (fun s : FM => basePath (fst s)) f -> keeps paths (on_pbx f).
Proof.
  intros Hf s. specialize (Hf (pbx s, world s)).
  unfold paths, on_pbx, zoom.
  destruct (f (pbx s, world s)) as [r [m w]]. cbn in *. now rewrite Hf.
Qed.

Lemma on_buildGradle_keeps_paths {A} (f : M FM A) :
  keeps (fun s : FM => basePath (fst s)) f -> keeps paths (on_buildGradle f).
Proof.
  intros Hf s. specialize (Hf (buildGradle s, world s)).
  unfold paths, on_buildGradle, zoom.
  destruct (f (buildGradle s, world s)) as [r [m w]]. cbn in *.
  now rewrite Hf.
Qed.

Lemma on_packageJSON_keeps_paths {A}
    (f : M (PackageJSONManager.t * World) A) :
  keeps (fun s : PackageJSONManager.t * World =>
           PackageJSONManager.basePath (fst s)) f ->
  keeps paths (on_packageJSON f).
Proof.
  intros Hf s. specialize (Hf (packageJSON s, world s)).
  unfold paths, on_packageJSON, zoom.
  destruct (f (packageJSON s, world s)) as [r [m w]]. cbn in *.
  now rewrite Hf.
Qed.

Lemma console_log_keeps_paths (line : str) : keeps paths (console_log line).
Proof. now intros s. Qed.

Ltac paths_kept :=
  repeat keeps_step;
  auto using on_pbx_keeps_paths, on_buildGradle_keeps_paths,
    on_packageJSON_keeps_paths, console_log_keeps_paths,
    bumpProjectVersion_keeps_path, setMarketingVersion_keeps_path,
    getCurrentMarketingVersion_keeps_path,
    getCurrentProjectVersion_keeps_path, bumpCode_keeps_path,
    setVersionName_keeps_path, getVersionName_keeps_path,
    getVersionCode_keeps_path, getVersion_keeps_path, setVersion_keeps_path,
    write_keeps_path, PackageJSON_write_keeps_path.

Lemma bumpCodes_keeps_paths (configs : Configs) :
  keeps paths (bumpCodes configs).
Proof. unfold bumpCodes. paths_kept. Qed.

Lemma syncSemver_keeps_paths (configs : Configs) (v : str) :
  keeps paths (syncSemver configs v).
Proof. unfold syncSemver. paths_kept. Qed.

Lemma dryRun_keeps_paths (configs : Configs) : keeps paths (dryRun configs).
Proof.
  unfold dryRun. paths_kept;
    auto using bumpCodes_keeps_paths, syncSemver_keeps_paths.
Qed.

Lemma off_paths_same (q : str) (s s' : t) :
  paths s' = paths s -> off_paths q s -> off_paths q s'.
Proof. unfold paths, off_paths. intros [= -> -> ->]. auto. Qed.

Lemma spares_read_only {A} (q : str) (f : M t A) :
  read_only world f -> spares q f.
Proof. intros Hf s _. destruct (Hf s) as [-> _]. reflexivity. Qed.

Lemma spares_bind {A B} (q : str) (f : M t A) (g : A -> M t B) :
  spares q f -> keeps paths f -> (forall a, spares q (g a)) ->
  spares q (bind f g).
Proof.
  intros Hf Hk Hg s Hoff. unfold bind.
  specialize (Hf s Hoff). specialize (Hk s).
  destruct (f s) as [[a | e] s1]; cbn [snd] in *; [| exact Hf].
  rewrite Hg; [exact Hf |]. now apply (off_paths_same q s).
Qed.

Lemma write_disk_other (p q data : str) (w : World) :
  p <> q -> disk (write_disk p data w) !! q = disk w !! q.
Proof. intros Hne. unfold write_disk. cbn [disk]. now apply lookup_insert_ne. Qed.

Lemma write_spares (q : str) (m : BaseFileManager) (w : World) :
  basePath m <> Ok q ->
  disk (snd (snd (write (m, w)))) !! q = disk w !! q.
Proof.
  intros Hq. unfold write, bind, gets, call_basePath, writeFile, modify, ret.
  cbn [fst snd]. destruct (content m) as [[| ch text] |]; try reflexivity.
  destruct (basePath m) as [p | e]; cbn [fst snd]; [| reflexivity].
  apply write_disk_other. congruence.
Qed.

Lemma spares_pbx_write (q : str) : spares q (on_pbx write).
Proof.
  intros s (Hq & _). unfold on_pbx, zoom.
  pose proof (write_spares q (pbx s) (world s) Hq) as H.
  destruct (write (pbx s, world s)) as [r [m w]]. exact H.
Qed.

Lemma spares_buildGradle_write (q : str) : spares q (on_buildGradle write).
Proof.
  intros s (_ & Hq & _). unfold on_buildGradle, zoom.
  pose proof (write_spares q (buildGradle s) (world s) Hq) as H.
  destruct (write (buildGradle s, world s)) as [r [m w]]. exact H.
Qed.

Lemma spares_packageJSON_write (q : str) :
  spares q (on_packageJSON PackageJSONManager.write).
Proof.
  intros s (_ & _ & Hq). unfold on_packageJSON, zoom.
  unfold PackageJSONManager.write, bind, gets,
    PackageJSONManager.call_basePath, modify, ret.
  cbn [fst snd]. destruct (PackageJSONManager.content (packageJSON s));
    [| reflexivity].
  destruct (PackageJSONManager.basePath (packageJSON s)) as [p | e];
    cbn [fst snd world]; [| reflexivity].
  apply write_disk_other. congruence.
Qed.

Lemma spares_saveVersionFile (q : str) (configs : Configs) (name : str) :
  path_join [root configs; name] <> q ->
  spares q (saveVersionFile configs name).
Proof.
  intros Hq. unfold saveVersionFile.
  do 4 (apply spares_bind;
          [apply spares_read_only;
           auto using ro_on_buildGradle, ro_on_pbx, ro_getVersionName,
             ro_getVersionCode, ro_getCurrentMarketingVersion,
             ro_getCurrentProjectVersion
          | paths_kept
          | intros ?]).
  apply spares_bind.
  - intros s _. destruct (write_error _); cbn; [reflexivity |].
    now apply write_disk_other.
  - intros s. now destruct (write_error _).
  - intros _. apply spares_read_only, ro_console_log.
Qed.

(** X11: [run] writes at the paths of the three managers and at the path
    of the version file only: the file at any other path is after [run]
    what it was before, whether [run] returns or throws. *)
Theorem run_writes_only_its_files (configs : Configs) (s : t) (q : str) :
  basePath (pbx s) <> Ok q ->
  basePath (buildGradle s) <> Ok q ->
  PackageJSONManager.basePath (packageJSON s) <> Ok q ->
  (forall name, versionFile configs = Some name ->
                path_join [root configs; name] <> q) ->
  disk (world (snd (run configs s))) !! q = disk (world s) !! q.
Proof.
  intros Hpbx Hgradle Hmanifest Hfile.
  assert (Hrun : spares q (run configs)).
  { unfold run.
    apply spares_bind;
      [apply spares_read_only, ro_dryRun | apply dryRun_keeps_paths
       | intros _].
    apply spares_bind; [apply spares_pbx_write | paths_kept | intros _].
    apply spares_bind; [apply spares_buildGradle_write | paths_kept | intros _].
    apply spares_bind; [apply spares_packageJSON_write | paths_kept | intros _].
    destruct (versionFile configs) as [[| ch name] |];
      try (apply spares_read_only, ro_ret).
    apply spares_saveVersionFile. now apply Hfile. }
  apply Hrun. repeat split; assumption.
Qed.

Lemma run_after_write_phase (configs : Configs) (s : t) :
  run configs s
  = bind (write_phase configs)
      (fun _ =>
         match versionFile configs with
         | Some ((_ :: _) as name) => saveVersionFile configs name
         | _ => ret tt
         end) s.
Proof.
  unfold run, write_phase, bind.
  destruct (dryRun configs s) as [[[] | e] s1]; [| reflexivity].
  destruct (on_pbx write s1) as [[[] | e] s2]; [| reflexivity].
  destruct (on_buildGradle write s2) as [[[] | e] s3]; [| reflexivity].
  destruct (on_packageJSON PackageJSONManager.write s3) as [[[] | e] s4];
    reflexivity.
Qed.

(** X12: with a version file asked for, [run] throws a TypeError after
    the three files have been written when the build file has no quoted
    version name: the world is the one the write phase left, and no
    version file is written. *)
Theorem run_fails_after_writing (configs : Configs) (name buf : str)
    (s s2 : t) (m3 : BaseFileManager) (w3 : World) :
  versionFile configs = Some name ->
  name <> [] ->
  write_phase configs s = (Ok tt, s2) ->
  read (buildGradle s2, world s2) = (Ok buf, (m3, w3)) ->
  exec nameExp buf = None ->
  run configs s
  = (Throw (TypeError "replace"),
     {| pbx := pbx s2; buildGradle := m3; packageJSON := packageJSON s2;
        world := world s2 |}).
Proof.
  intros Hfile Hname Hphase Hread Hexec.
  rewrite run_after_write_phase. unfold bind at 1. rewrite Hphase, Hfile.
  destruct name as [| ch name]; [congruence |].
  unfold saveVersionFile. unfold bind at 1.
  unfold on_buildGradle at 1, zoom.
  unfold BuildGradleManager.getVersionName, bind. rewrite Hread.
  unfold matchFirst. rewrite Hexec. unfold throw.
  apply read_ok in Hread as (_ & _ & -> & _). reflexivity.
Qed.

End Paths.

Lemma run_writes_only_its_files_witness :
  let s := @ProjectFilesManager.new Demo.runtime Demo.configs Demo.world in
  disk (ProjectFilesManager.world
          (snd (@ProjectFilesManager.run Demo.runtime Demo.configs s)))
  !! "/app/README.md"
  = disk (ProjectFilesManager.world s) !! "/app/README.md".
Proof.
  intros s.
  apply (@run_writes_only_its_files Demo.runtime Demo.configs s
           "/app/README.md").
  - vm_compute. discriminate.
  - vm_compute. discriminate.
  - vm_compute. discriminate.
  - intros name [= <-]. vm_compute. discriminate.
Defined.

Lemma run_fails_after_writing_witness :
  let gradle :=
    "    versionCode 23" ++ Demo.newline
    ++ "    versionName getNpmVersion()" ++ Demo.newline in
  let configs :=
    {| type := Some "patch"; semver := None;
       skipSemverFor := ["android"]; skipCodeFor := [];
       versionFile := Some "version.json"; root := "/app";
       pbxprojPath := Ok Demo.pbxproj_path;
       buildGradlePath := Ok Demo.gradle_path |} in
  let w :=
    {| disk := <[Demo.gradle_path := gradle]> Demo.files;
       written := []; console := [] |} in
  let result :=
    @ProjectFilesManager.run Demo.runtime configs
      (@ProjectFilesManager.new Demo.runtime configs w) in
  fst result = Throw (TypeError "replace")
  /\ map fst (written (ProjectFilesManager.world (snd result)))
     = [Demo.pbxproj_path; Demo.gradle_path; "/app/package.json"].
Proof.
  intros gradle configs w result.
  pose (s := @ProjectFilesManager.new Demo.runtime configs w).
  pose (s2 := snd (@write_phase Demo.runtime configs s)).
  assert (Hrun :
            @ProjectFilesManager.run Demo.runtime configs s
            = (Throw (TypeError "replace"),
               {| ProjectFilesManager.pbx := ProjectFilesManager.pbx s2;
                  ProjectFilesManager.buildGradle :=
                    ProjectFilesManager.buildGradle s2;
                  ProjectFilesManager.packageJSON :=
                    ProjectFilesManager.packageJSON s2;
                  ProjectFilesManager.world :=
                    ProjectFilesManager.world s2 |})).
  { apply (@run_fails_after_writing Demo.runtime configs "version.json"
             ("    versionCode 24" ++ Demo.newline
              ++ "    versionName getNpmVersion()" ++ Demo.newline)
             s s2 (ProjectFilesManager.buildGradle s2)
             (ProjectFilesManager.world s2)).
    - reflexivity.
    - discriminate.
    - apply injective_projections; [vm_compute; reflexivity | reflexivity].
    - vm_compute. reflexivity.
    - vm_compute. reflexivity. }
  unfold result. fold s. rewrite Hrun.
  split; [reflexivity | vm_compute; reflexivity].
Defined.

(** ** Matches, positions and replacements *)

(** Whatever a matcher returns was returned by its continuation. *)
Lemma repeat_matcher_result {R}
    (body : str -> captures -> (str -> captures -> option R) -> option R)
    (k : str -> captures -> option R) (x : R) :
  (forall s c k', body s c k' = Some x -> exists s' c', k' s' c' = Some x) ->
  forall fuel s c,
    repeat_matcher body k fuel s c = Some x -> exists s' c', k s' c' = Some x.
Proof.
  intros Hbody. induction fuel as [| fuel IH]; intros s c; cbn [repeat_matcher].
  - eauto.
  - destruct (body s c _) as [y |] eqn:Hround; [| eauto].
    intros [= ->]. apply Hbody in Hround as (s' & c' & Hk).
    destruct (length s' <? length s)%nat; [eauto | discriminate].
Qed.

Lemma matcher_result {R} (r : regex) (x : R) :
  forall s c k, matcher r s c k = Some x -> exists s' c', k s' c' = Some x.
Proof.
  induction r as [| a | cl | r1 IH1 r2 IH2 | r1 IH1 r2 IH2 | r1 IH1 | i r1 IH1];
    intros s c k; cbn [matcher].
  - eauto.
  - destruct s as [| b s]; [discriminate |].
    destruct (Ascii.eqb a b); [eauto | discriminate].
  - destruct s as [| b s]; [discriminate |].
    destruct (in_class cl b); [eauto | discriminate].
  - intros H. apply IH1 in H as (s1 & c1 & H). eauto.
  - destruct (matcher r1 s c k) as [y |] eqn:H1.
    + intros [= ->]. eauto.
    + eauto.
  - apply repeat_matcher_result. intros s0 c0 k'. apply IH1.
  - intros H. apply IH1 in H as (s1 & c1 & H). eauto.
Qed.

Lemma match_at_index (r : regex) (i : nat) (s : str) (mt : match_result) :
  match_at r i s = Some mt ->
  index mt = i /\ (length (matched mt) <= length s)%nat.
Proof.
  unfold match_at. intros H.
  apply matcher_result in H as (s' & c' & [= <-]). cbn [index matched].
  split; [reflexivity |]. rewrite length_take. lia.
Qed.

Lemma search_found (r : regex) (i : nat) (s : str) (mt : match_result) :
  search r i s = Some mt ->
  exists j, (j <= length s)%nat /\ match_at r (i + j) (drop j s) = Some mt.
Proof.
  revert i. induction s as [| b s IH]; intros i H; cbn [search] in H.
  - destruct (match_at r i []) eqn:Hm; [| discriminate].
    exists 0%nat. rewrite Nat.add_0_r. split; [lia | now rewrite <- H].
  - destruct (match_at r i (b :: s)) eqn:Hm.
    + exists 0%nat. rewrite Nat.add_0_r, drop_0.
      split; [lia | now rewrite <- H].
    + destruct (IH _ H) as (j & Hj & Hm'). exists (S j).
      cbn [drop length]. rewrite Nat.add_succ_r. split; [lia | exact Hm'].
Qed.

Lemma search_index (r : regex) (i : nat) (s : str) (mt : match_result) :
  search r i s = Some mt ->
  (i <= index mt)%nat
  /\ (index mt + length (matched mt) <= i + length s)%nat.
Proof.
  intros H. apply search_found in H as (j & Hj & Hm).
  apply match_at_index in Hm as [-> Hlen].
  rewrite length_drop in Hlen. lia.
Qed.

Lemma starts_with_window (p a x : str) :
  (length p <= length a)%nat -> starts_with p (a ++ x) = starts_with p a.
Proof.
  revert a. induction p as [| c p IH]; intros a Hlen; [reflexivity |].
  destruct a as [| b a]; cbn [length] in Hlen; [lia |].
  cbn [app starts_with]. destruct (Ascii.eqb c b); [| reflexivity].
  apply IH. lia.
Qed.

(** Where the first occurrence of [lead] is does not depend on what
    follows it. *)
Lemma index_from_change_rest (lead pre x y : str) (n : nat) :
  index_from lead n (pre ++ lead ++ x) = Some (n + length pre)%nat ->
  index_from lead n (pre ++ lead ++ y) = Some (n + length pre)%nat.
Proof.
  revert n. induction pre as [| b pre IH]; intros n.
  - intros _. cbn [app length]. rewrite Nat.add_0_r.
    pose proof (starts_with_app lead y) as Hsw.
    destruct (lead ++ y); cbn [index_from]; now rewrite Hsw.
  - assert (Hwin : forall z, starts_with lead (b :: pre ++ lead ++ z)
                             = starts_with lead (b :: pre ++ lead)).
    { intros z. rewrite (app_assoc pre lead z).
      apply (starts_with_window lead (b :: pre ++ lead) z).
      cbn [length]. rewrite length_app. lia. }
    cbn [app index_from]. rewrite !Hwin.
    destruct (starts_with lead (b :: pre ++ lead)).
    + intros [= H]. cbn [length] in H. lia.
    + replace (n + length (b :: pre))%nat with (S n + length pre)%nat
        by (cbn [length]; lia).
      apply IH.
Qed.

Lemma search_no_lead (lead : str) (r : regex) (n : nat) (s : str) :
  index_from lead n s = None -> search (Seq (Lit lead) r) n s = None.
Proof.
  revert n. induction s as [| b s IH]; intros n;
    unfold index_from; fold index_from; cbn [search];
    unfold match_at; rewrite matcher_Seq, matcher_Lit.
  - now destruct (starts_with lead []).
  - destruct (starts_with lead (b :: s)); [discriminate |]. apply IH.
Qed.

(** The three steps of a global replacement: a position where the
    pattern does not match is copied, a match is replaced, and after the
    last match the rest is copied. *)
Lemma replace_from_copy (fuel : nat) (r : regex) (tpl subject : str)
    (pos : nat) (b : ascii) (rest : str) :
  drop pos subject = b :: rest ->
  match_at r pos (b :: rest) = None ->
  replace_from (S fuel) r tpl subject pos
  = b :: replace_from (S fuel) r tpl subject (S pos).
Proof.
  intros Hdrop Hnone.
  assert (Hrest : drop (S pos) subject = rest).
  { replace (S pos) with (pos + 1)%nat by lia.
    now rewrite <- drop_drop, Hdrop. }
  cbn [replace_from]. rewrite Hdrop, Hrest. cbn [search]. rewrite Hnone.
  destruct (search r (S pos) rest) as [mt |] eqn:Hs; [| reflexivity].
  apply search_index in Hs as [Hi _].
  replace (index mt - pos)%nat with (S (index mt - S pos)) by lia.
  reflexivity.
Qed.

Lemma replace_from_hit (fuel : nat) (r : regex) (tpl subject : str)
    (pos : nat) (mt : match_result) :
  match_at r pos (drop pos subject) = Some mt ->
  matched mt <> [] ->
  ~ In "$"%char tpl ->
  replace_from (S fuel) r tpl subject pos
  = tpl ++ replace_from fuel r tpl subject (pos + length (matched mt)).
Proof.
  intros Hm Hne Htpl. cbn [replace_from].
  rewrite (search_hit _ _ _ _ Hm).
  apply match_at_index in Hm as [Hi _]. rewrite Hi, Nat.sub_diag.
  unfold replacement_for. rewrite substitution_plain by exact Htpl.
  destruct (matched mt); [congruence | reflexivity].
Qed.

Lemma replace_from_none (fuel : nat) (r : regex) (tpl subject : str)
    (pos : nat) :
  search r pos (drop pos subject) = None ->
  replace_from fuel r tpl subject pos = drop pos subject.
Proof. intros H. destruct fuel; cbn [replace_from]; now rewrite ?H. Qed.

Lemma replace_from_skip (fuel : nat) (lead : str) (r : regex)
    (tpl pre rest : str) :
  forall done : str,
    index_from lead (length done) (pre ++ rest)
    = Some (length done + length pre)%nat ->
    replace_from (S fuel) (Seq (Lit lead) r) tpl (done ++ pre ++ rest)
      (length done)
    = pre ++ replace_from (S fuel) (Seq (Lit lead) r) tpl
               (done ++ pre ++ rest) (length done + length pre).
Proof.
  induction pre as [| b pre IH]; intros done Hidx.
  - cbn [app length]. now rewrite Nat.add_0_r.
  - cbn [app] in *. unfold index_from in Hidx. fold index_from in Hidx.
    destruct (starts_with lead (b :: pre ++ rest)) eqn:Hsw.
    { injection Hidx as Hidx. cbn [length] in Hidx. lia. }
    rewrite (replace_from_copy fuel _ tpl _ (length done) b (pre ++ rest)).
    + f_equal.
      replace (done ++ b :: pre ++ rest) with ((done ++ [b]) ++ pre ++ rest)
        by now rewrite <- app_assoc.
      replace (S (length done)) with (length (done ++ [b]))
        by (rewrite length_app; cbn; lia).
      replace (length done + length (b :: pre))%nat
        with (length (done ++ [b]) + length pre)%nat
        by (rewrite length_app; cbn; lia).
      apply IH. rewrite length_app. cbn [length].
      replace (length done + 1 + length pre)%nat
        with (length done + S (length pre))%nat by lia.
      replace (length done + 1)%nat with (S (length done)) by lia.
      exact Hidx.
    + apply drop_app_length.
    + unfold match_at. now rewrite matcher_Seq, matcher_Lit, Hsw.
Qed.

(** ** The counter of the build file, bumped and read back *)

Lemma leading_digits_none (post : str) (cl := Digit) :
  leading_digits post = [] ->
  forall {R} (k : str -> captures -> option R) c,
    star_class cl k post c = k post c.
Proof.
  intros H R k c. destruct post as [| b post]; [reflexivity |].
  cbn [star_class in_class cl]. cbn [leading_digits] in H.
  unfold is_digit. now destruct (digit_value b).
Qed.

(** The group of one or more digits on a run of digits that ends the
    digits of the input. *)
Lemma digits_group {R} (ds post : str) (c : captures)
    (k : str -> captures -> option R) (x : R) :
  ds <> [] ->
  forallb is_digit ds = true ->
  leading_digits post = [] ->
  k post (set_capture 1 ds c) = Some x ->
  matcher (Group 1 (Plus (Class Digit))) (ds ++ post) c k = Some x.
Proof.
  intros Hne Hds Hpost Hk. destruct ds as [| d ds]; [congruence |].
  cbn [forallb] in Hds. apply andb_prop in Hds as [Hd Hds].
  rewrite matcher_Group. unfold Plus. rewrite matcher_Seq.
  cbn [app]. cbn [matcher in_class]. rewrite Hd.
  change (repeat_matcher _ ?k' (length ?s) ?s ?c')
    with (matcher (Star (Class Digit)) s c' k').
  rewrite matcher_star_class.
  apply star_class_run; [exact Hds |].
  rewrite leading_digits_none by exact Hpost.
  change (d :: ds ++ post) with ((d :: ds) ++ post).
  now rewrite take_front.
Qed.

Lemma codeExp_match_at (i : nat) (ds post : str) :
  ds <> [] ->
  forallb is_digit ds = true ->
  leading_digits post = [] ->
  exists mt,
    match_at (pattern codeExp) i ("versionCode " ++ ds ++ post) = Some mt
    /\ index mt = i
    /\ matched mt = "versionCode " ++ ds
    /\ groups_of mt 1%nat = Some ds.
Proof.
  intros Hne Hds Hpost.
  eexists. split; [| repeat split].
  - unfold match_at, codeExp, pattern.
    rewrite matcher_Seq, matcher_Lit, starts_with_app, drop_app_length.
    erewrite digits_group; [reflexivity | assumption .. | reflexivity].
  - reflexivity.
  - cbn [matched]. rewrite app_assoc. apply take_front.
  - reflexivity.
Qed.

Lemma codeExp_exec (pre ds post : str) :
  indexOf "versionCode " (pre ++ "versionCode " ++ ds ++ post)
  = Some (length pre) ->
  ds <> [] ->
  forallb is_digit ds = true ->
  leading_digits post = [] ->
  exists mt,
    exec codeExp (pre ++ "versionCode " ++ ds ++ post) = Some mt
    /\ index mt = length pre
    /\ matched mt = "versionCode " ++ ds
    /\ groups_of mt 1%nat = Some ds.
Proof.
  intros Hidx Hne Hds Hpost.
  destruct (codeExp_match_at (length pre) ds post Hne Hds Hpost)
    as (mt & Hmt & Hfields).
  exists mt. split; [| exact Hfields].
  unfold exec. change (pattern codeExp)
    with (Seq (Lit "versionCode ") (Group 1 (Plus (Class Digit)))).
  rewrite search_skip by exact Hidx.
  apply search_hit. exact Hmt.
Qed.

Lemma replace_codeExp (pre ds post tpl : str) :
  indexOf "versionCode " (pre ++ "versionCode " ++ ds ++ post)
  = Some (length pre) ->
  ds <> [] ->
  forallb is_digit ds = true ->
  leading_digits post = [] ->
  ~ In "$"%char tpl ->
  replace codeExp tpl (pre ++ "versionCode " ++ ds ++ post)
  = pre ++ tpl ++ post.
Proof.
  intros Hidx Hne Hds Hpost Htpl.
  destruct (codeExp_exec pre ds post Hidx Hne Hds Hpost)
    as ([i mtext caps] & Hexec & Hi & Hm & _).
  cbn [index matched] in Hi, Hm. subst i mtext.
  unfold replace. cbn [global codeExp]. rewrite Hexec.
  unfold replacement_for. cbn [index matched groups_of].
  rewrite substitution_plain by exact Htpl.
  rewrite take_app_length. f_equal. f_equal.
  rewrite drop_app_add, (app_assoc "versionCode " ds post).
  apply drop_app_length.
Qed.

Lemma digit_value_range (c : ascii) (d : Z) :
  digit_value c = Some d -> 0 <= d <= 9.
Proof.
  unfold digit_value.
  destruct (48 <=? Z.of_N (N_of_ascii c)) eqn:Hlo; [| discriminate].
  destruct (Z.of_N (N_of_ascii c) <=? 57) eqn:Hhi; [| discriminate].
  intros [= <-]. lia.
Qed.

Lemma digits_to_Z_nonneg (s : str) : 0 <= digits_to_Z (leading_digits s).
Proof.
  unfold digits_to_Z.
  enough (H : forall acc, 0 <= acc ->
                0 <= fold_left (fun a x => 10 * a + x) (leading_digits s) acc)
    by (apply H; lia).
  induction s as [| c s IH]; intros acc Hacc; cbn [leading_digits fold_left];
    [exact Hacc |].
  destruct (digit_value c) as [d |] eqn:Hd; cbn [fold_left]; [| exact Hacc].
  apply digit_value_range in Hd. apply IH. lia.
Qed.

Lemma round64_nonneg (z v : Z) : 0 <= z -> round64 z = Fin v -> 0 <= v.
Proof.
  intros Hz Hr. destruct (Z.le_gt_cases z (2 ^ 53)) as [Hle | Hgt].
  - rewrite round64_safe in Hr by lia. injection Hr as <-. exact Hz.
  - destruct (round64_large z v ltac:(lia) Hr) as [Hv _]. lia.
Qed.

Lemma parseInt_digits_nonneg (ds : str) (v : Z) :
  ds <> [] -> forallb is_digit ds = true -> parseInt ds = Fin v -> 0 <= v.
Proof.
  intros Hne Hds. destruct ds as [| d ds]; [congruence |].
  cbn [forallb] in Hds. apply andb_prop in Hds as [Hd _].
  rewrite parseInt_unsigned by exact Hd.
  apply round64_nonneg, digits_to_Z_nonneg.
Qed.

Lemma decimal_plain (z : Z) : ~ In "$"%char (decimal z).
Proof. apply decimal_free_of; [reflexivity | discriminate]. Qed.

Lemma bumpCode_digits (m : BaseFileManager) (w : World) (s1 : FM)
    (pre ds post : str) (v : Z) :
  read (m, w) = (Ok (pre ++ "versionCode " ++ ds ++ post), s1) ->
  indexOf "versionCode " (pre ++ "versionCode " ++ ds ++ post)
  = Some (length pre) ->
  ds <> [] ->
  forallb is_digit ds = true ->
  leading_digits post = [] ->
  parseInt ds = Fin v ->
  safe_integer v ->
  BuildGradleManager.bumpCode (m, w)
  = (Ok {| current := Fin v; next := Fin (v + 1) |},
     (set_content (pre ++ "versionCode " ++ decimal (v + 1) ++ post) (fst s1),
      snd s1)).
Proof.
  intros Hread Hidx Hne Hds Hpost Hv Hsafe.
  assert (Hrange : Z.abs (v + 1) <= 2 ^ 53)
    by (unfold safe_integer, MAX_SAFE_INTEGER in Hsafe; lia).
  destruct (print_safe (v + 1) Hrange) as (Hprint & _ & _).
  destruct (codeExp_exec pre ds post Hidx Hne Hds Hpost)
    as (mt & Hexec & _ & _ & Hcap).
  unfold BuildGradleManager.bumpCode, bind. rewrite Hread.
  unfold matchFirst. rewrite Hexec, Hcap. cbn [ToString].
  unfold parseDecimal. rewrite Hv, plus_one_safe by exact Hsafe.
  cbn [isNaN]. rewrite Hprint.
  rewrite replace_codeExp; try assumption.
  - destruct s1 as [m1 w1]. unfold put_content, modify, ret.
    cbn [fst snd]. now rewrite <- app_assoc.
  - apply not_in_app; [cbn; intuition discriminate | apply decimal_plain].
Qed.

Lemma getVersionCode_decimal (m : BaseFileManager) (w : World)
    (pre post : str) (z : Z) :
  content m = Some (pre ++ "versionCode " ++ decimal z ++ post) ->
  indexOf "versionCode " (pre ++ "versionCode " ++ decimal z ++ post)
  = Some (length pre) ->
  leading_digits post = [] ->
  0 <= z -> Z.abs z <= 2 ^ 53 ->
  BuildGradleManager.getVersionCode (m, w) = (Ok (Fin z), (m, w)).
Proof.
  intros Hc Hidx Hpost Hz Hrange.
  destruct (print_safe z Hrange) as (_ & _ & Hback).
  destruct (decimal_all_digits z Hz) as (d & ds' & Hdec & Hd & Hds').
  unfold BuildGradleManager.getVersionCode, bind.
  rewrite (read_loaded _ _ _ Hc).
  destruct (codeExp_exec pre (decimal z) post Hidx)
    as (mt & Hexec & _ & _ & Hcap);
    [rewrite Hdec; discriminate
    | rewrite Hdec; cbn [forallb]; now rewrite Hd, Hds'
    | exact Hpost |].
  unfold matchFirst. rewrite Hexec, Hcap. cbn [ToString].
  unfold parseDecimal, ret. now rewrite Hback.
Qed.

(** X13: when the first "versionCode " of the buffer is followed by a
    run of digits whose value [v] is a safe integer, [bumpCode] returns
    the pair [(v, v + 1)], rewrites these digits only, and
    [getVersionCode] then reads [v + 1] back. *)
Theorem bumpCode_then_getVersionCode (m : BaseFileManager) (w : World)
    (s1 : FM) (pre ds post : str) (v : Z) :
  read (m, w) = (Ok (pre ++ "versionCode " ++ ds ++ post), s1) ->
  indexOf "versionCode " (pre ++ "versionCode " ++ ds ++ post)
  = Some (length pre) ->
  ds <> [] ->
  forallb is_digit ds = true ->
  leading_digits post = [] ->
  parseInt ds = Fin v ->
  safe_integer v ->
  let s2 :=
    (set_content (pre ++ "versionCode " ++ decimal (v + 1) ++ post) (fst s1),
     snd s1) in
  BuildGradleManager.bumpCode (m, w)
  = (Ok {| current := Fin v; next := Fin (v + 1) |}, s2)
  /\ BuildGradleManager.getVersionCode s2 = (Ok (Fin (v + 1)), s2).
Proof.
  intros Hread Hidx Hne Hds Hpost Hv Hsafe s2.
  pose proof (parseInt_digits_nonneg ds v Hne Hds Hv) as Hv0.
  split; [now apply (bumpCode_digits m w s1 pre ds post v) |].
  apply (getVersionCode_decimal _ _ pre post (v + 1));
    try assumption; try reflexivity.
  - apply (index_from_change_rest "versionCode " pre (ds ++ post)).
    exact Hidx.
  - lia.
  - unfold safe_integer, MAX_SAFE_INTEGER in Hsafe. lia.
Qed.

Lemma bumpCode_then_getVersionCode_witness :
  let m := Demo.loaded Demo.gradle_path Demo.gradle_text in
  let s2 :=
    (set_content
       ("    versionCode 24" ++ Demo.newline ++ "    versionName "
        ++ dquote :: "1.10.6" ++ dquote :: Demo.newline) m,
     Demo.world) in
  BuildGradleManager.bumpCode (m, Demo.world)
  = (Ok {| current := Fin 23; next := Fin 24 |}, s2)
  /\ BuildGradleManager.getVersionCode s2 = (Ok (Fin 24), s2).
Proof.
  intros m.
  apply (bumpCode_then_getVersionCode m Demo.world (m, Demo.world)
           "    " "23"
           (Demo.newline ++ "    versionName "
            ++ dquote :: "1.10.6" ++ dquote :: Demo.newline)
           23).
  - reflexivity.
  - vm_compute. reflexivity.
  - discriminate.
  - reflexivity.
  - reflexivity.
  - vm_compute. reflexivity.
  - unfold safe_integer, MAX_SAFE_INTEGER. simpl. lia.
Defined.

(** ** The version name of the build file, set and read back *)

(** A global replacement of the code units of a class by nothing keeps
    exactly the code units outside the class. *)
Lemma replace_from_class (cl : char_class) (rest : list ascii) :
  forall (done : str) (fuel : nat),
    (length rest <= fuel)%nat ->
    replace_from fuel (Class cl) [] (done ++ rest) (length done)
    = filter (fun c => in_class cl c = false) rest.
Proof.
  induction rest as [| b rest IH]; intros done fuel Hfuel.
  - rewrite replace_from_none; rewrite drop_app_length; reflexivity.
  - destruct fuel as [| fuel]; [cbn in Hfuel; lia |].
    cbn [length] in Hfuel.
    assert (Hsubject : done ++ b :: rest = (done ++ [b]) ++ rest)
      by now rewrite <- app_assoc.
    assert (Hpos : S (length done) = length (done ++ [b]))
      by (rewrite length_app; cbn; lia).
    destruct (in_class cl b) eqn:Hb.
    + rewrite filter_cons_False by congruence.
      rewrite (replace_from_hit fuel (Class cl) [] (done ++ b :: rest)
                 (length done)
                 {| index := length done; matched := [b];
                    groups_of := no_captures |}).
      * cbn [matched length app]. rewrite Nat.add_1_r, Hsubject, Hpos.
        apply IH. lia.
      * rewrite drop_app_length. unfold match_at. cbn [matcher].
        rewrite Hb. do 2 f_equal.
        replace (length (b :: rest) - length rest)%nat with 1%nat
          by (cbn [length]; lia).
        reflexivity.
      * discriminate.
      * intros [].
    + rewrite filter_cons_True by exact Hb.
      rewrite (replace_from_copy fuel (Class cl) [] _ (length done) b rest).
      * f_equal. rewrite Hsubject, Hpos. apply IH. lia.
      * apply drop_app_length.
      * unfold match_at. cbn [matcher]. now rewrite Hb.
Qed.

Lemma replace_quoteChars (name : list ascii) :
  replace quoteChars [] name = filter (fun c => is_quote c = false) name.
Proof.
  unfold replace. cbn [global quoteChars pattern].
  rewrite (replace_from_class (OneOf [squote; dquote]) name [] _)
    by (cbn [length]; lia).
  apply list_filter_iff. intros c. unfold is_quote. cbn [in_class mem].
  rewrite !orb_false_r, orb_comm. reflexivity.
Qed.

Lemma filter_quoted (q : ascii) (v : list ascii) :
  is_quote q = true ->
  forallb (fun ch => negb (is_quote ch)) v = true ->
  filter (fun c => is_quote c = false) (q :: v ++ [q]) = v.
Proof.
  intros Hq Hv. rewrite filter_cons_False by congruence.
  rewrite filter_app, filter_cons_False, filter_nil, app_nil_r by congruence.
  induction v as [| a v IH]; [reflexivity |].
  cbn [forallb] in Hv. apply andb_prop in Hv as [Ha Hv].
  apply negb_true_iff in Ha.
  rewrite filter_cons_True by exact Ha. f_equal. now apply IH.
Qed.

Lemma forallb_both {A} (f g : A -> bool) (l : list A) :
  forallb (fun x => f x && g x) l = true ->
  forallb f l = true /\ forallb g l = true.
Proof.
  induction l as [| a l IH]; [auto |].
  cbn [forallb]. intros H. apply andb_prop in H as [Ha Hl].
  apply andb_prop in Ha as [-> ->]. destruct (IH Hl) as [-> ->]. auto.
Qed.

Lemma getVersionName_strips_quotes_aux (m : BaseFileManager) (w : World)
    (s1 : FM) (buf : str) (name : list ascii) :
  read (m, w) = (Ok buf, s1) ->
  matchFirst nameExp buf = Some name ->
  BuildGradleManager.getVersionName (m, w)
  = (Ok (filter (fun c => is_quote c = false) name), s1).
Proof.
  intros Hread Hname. unfold BuildGradleManager.getVersionName, bind.
  rewrite Hread, Hname. now rewrite replace_quoteChars.
Qed.

(** A match of the version-name pattern always carries its capture. *)
Lemma nameExp_capture (i : nat) (s : str) (mt : match_result) :
  match_at (pattern nameExp) i s = Some mt ->
  exists name, groups_of mt 1%nat = Some name.
Proof.
  unfold match_at, nameExp, pattern.
  rewrite matcher_Seq, matcher_Lit.
  destruct (starts_with "versionName " s); [| discriminate].
  rewrite matcher_Group. intros H.
  apply matcher_result in H as (s' & c' & [= <-]).
  cbn [groups_of]. unfold set_capture. cbn [Nat.eqb]. eauto.
Qed.

(** X14: when the version-name pattern matches, [getVersionName] returns
    its capture with every single and double quote removed, those inside
    the value included. *)
Theorem getVersionName_removes_every_quote (m : BaseFileManager) (w : World)
    (s1 : FM) (buf : str) :
  read (m, w) = (Ok buf, s1) ->
  exec nameExp buf <> None ->
  exists name : list ascii,
    matchFirst nameExp buf = Some name
    /\ BuildGradleManager.getVersionName (m, w)
       = (Ok (filter (fun c => is_quote c = false) name), s1).
Proof.
  intros Hread Hexec.
  destruct (exec nameExp buf) as [mt |] eqn:He; [| congruence].
  pose proof He as Hfound. apply search_some in Hfound as [j Hj].
  apply nameExp_capture in Hj as [name Hname].
  assert (Hfirst : matchFirst nameExp buf = Some name)
    by (unfold matchFirst; now rewrite He).
  exists name. split; [exact Hfirst |].
  now apply (getVersionName_strips_quotes_aux m w s1 buf).
Qed.

Lemma getVersionName_removes_every_quote_witness :
  let buf := "versionName " ++ dquote :: "it's" ++ [dquote] in
  exists name : list ascii,
    matchFirst nameExp buf = Some name
    /\ BuildGradleManager.getVersionName
         (Demo.loaded Demo.gradle_path buf, Demo.world)
       = (Ok (filter (fun c => is_quote c = false) name),
          (Demo.loaded Demo.gradle_path buf, Demo.world)).
Proof.
  intros buf.
  apply (getVersionName_removes_every_quote
           (Demo.loaded Demo.gradle_path buf) Demo.world).
  - reflexivity.
  - vm_compute. discriminate.
Defined.

Lemma setVersionName_quoted (m : BaseFileManager) (w : World) (s1 : FM)
    (pre post v next : str) (q : ascii) :
  read (m, w) = (Ok (pre ++ "versionName " ++ q :: v ++ q :: post), s1) ->
  q = squote \/ q = dquote ->
  indexOf "versionName " (pre ++ "versionName " ++ q :: v ++ q :: post)
  = Some (length pre) ->
  v <> [] ->
  forallb (fun ch => negb (is_quote ch) && negb (is_line_terminator ch)) v
  = true ->
  ~ In q (line_rest post) ->
  ~ In "$"%char next ->
  BuildGradleManager.setVersionName next (m, w)
  = (Ok {| current := q :: v ++ [q]; next := next |},
     (set_content (pre ++ "versionName " ++ q :: next ++ q :: post) (fst s1),
      snd s1)).
Proof.
  intros Hread Hq Hidx Hne Hv Hpost Hplain.
  apply forallb_both in Hv as [Hvq Hvl].
  assert (Hqq : is_quote q = true) by (destruct Hq as [-> | ->]; reflexivity).
  assert (Hdollar : q <> "$"%char)
    by (destruct Hq as [-> | ->]; unfold squote, dquote; discriminate).
  destruct (nameExp_exec pre q v post Hq Hidx Hvl Hpost)
    as (mt & Hexec & _ & _ & Hcap).
  unfold BuildGradleManager.setVersionName, bind. rewrite Hread.
  unfold matchFirst. rewrite Hexec, Hcap.
  rewrite replace_quotes by assumption.
  rewrite replace_nameExp; try assumption.
  - destruct s1 as [m1 w1]. unfold put_content, modify, ret.
    cbn [fst snd]. now rewrite <- app_assoc, <- quoted_text_split.
  - apply not_in_app; [cbn; intuition discriminate |].
    intros [Heq | Hin]; [congruence |].
    apply in_app_or in Hin as [Hin | [Heq | []]]; [tauto | congruence].
Qed.

Lemma getVersionName_quoted (m : BaseFileManager) (w : World) (s1 : FM)
    (pre post v : str) (q : ascii) :
  read (m, w) = (Ok (pre ++ "versionName " ++ q :: v ++ q :: post), s1) ->
  q = squote \/ q = dquote ->
  indexOf "versionName " (pre ++ "versionName " ++ q :: v ++ q :: post)
  = Some (length pre) ->
  forallb (fun ch => negb (is_quote ch) && negb (is_line_terminator ch)) v
  = true ->
  ~ In q (line_rest post) ->
  BuildGradleManager.getVersionName (m, w) = (Ok v, s1).
Proof.
  intros Hread Hq Hidx Hv Hpost.
  apply forallb_both in Hv as [Hvq Hvl].
  assert (Hqq : is_quote q = true) by (destruct Hq as [-> | ->]; reflexivity).
  destruct (nameExp_exec pre q v post Hq Hidx Hvl Hpost)
    as (mt & Hexec & _ & _ & Hcap).
  rewrite (getVersionName_strips_quotes_aux m w s1 _ (q :: v ++ [q]) Hread)
    by (unfold matchFirst; now rewrite Hexec).
  now rewrite filter_quoted.
Qed.

(** X15: under the hypotheses of C7, and for a [next] that holds no
    quote and no line terminator, [getVersionName] returns the value
    without its quotes before the call, and returns [next] after
    [setVersionName next]. *)
Theorem setVersionName_then_getVersionName (m : BaseFileManager) (w : World)
    (s1 : FM) (pre post v next : str) (q : ascii) :
  read (m, w) = (Ok (pre ++ "versionName " ++ q :: v ++ q :: post), s1) ->
  q = squote \/ q = dquote ->
  indexOf "versionName " (pre ++ "versionName " ++ q :: v ++ q :: post)
  = Some (length pre) ->
  v <> [] ->
  forallb (fun ch => negb (is_quote ch) && negb (is_line_terminator ch)) v
  = true ->
  forallb (fun ch => negb (is_quote ch) && negb (is_line_terminator ch)) next
  = true ->
  ~ In q (line_rest post) ->
  ~ In "$"%char next ->
  let s2 :=
    (set_content (pre ++ "versionName " ++ q :: next ++ q :: post) (fst s1),
     snd s1) in
  BuildGradleManager.getVersionName (m, w) = (Ok v, s1)
  /\ snd (BuildGradleManager.setVersionName next (m, w)) = s2
  /\ BuildGradleManager.getVersionName s2 = (Ok next, s2).
Proof.
  intros Hread Hq Hidx Hne Hv Hnext Hpost Hplain s2.
  split; [| split].
  - now apply (getVersionName_quoted m w s1 pre post v q).
  - now rewrite (setVersionName_quoted m w s1 pre post v next q).
  - apply (getVersionName_quoted _ _ s2 pre post next q);
      try assumption.
    + now apply read_loaded.
    + apply (index_from_change_rest "versionName " pre
               (q :: v ++ q :: post)).
      exact Hidx.
Qed.

Lemma setVersionName_then_getVersionName_witness :
  let m := Demo.loaded Demo.gradle_path Demo.gradle_text in
  let s2 :=
    (set_content
       ("    versionCode 23" ++ Demo.newline ++ "    versionName "
        ++ dquote :: "1.10.7" ++ dquote :: Demo.newline) m,
     Demo.world) in
  BuildGradleManager.getVersionName (m, Demo.world)
  = (Ok "1.10.6", (m, Demo.world))
  /\ snd (BuildGradleManager.setVersionName "1.10.7" (m, Demo.world)) = s2
  /\ BuildGradleManager.getVersionName s2 = (Ok "1.10.7", s2).
Proof.
  intros m.
  apply (setVersionName_then_getVersionName m Demo.world (m, Demo.world)
           ("    versionCode 23" ++ Demo.newline ++ "    ")
           Demo.newline "1.10.6" "1.10.7" dquote).
  - reflexivity.
  - now right.
  - vm_compute. reflexivity.
  - discriminate.
  - vm_compute. reflexivity.
  - vm_compute. reflexivity.
  - cbn. tauto.
  - cbn. intuition discriminate.
Defined.

(** ** Every field of the project file *)

Lemma index_from_offset (lead s : str) (n : nat) :
  index_from lead n s = option_map (Nat.add n) (index_from lead 0 s).
Proof.
  revert n. induction s as [| b s IH]; intros n; cbn [index_from].
  - destruct (starts_with lead []); cbn; [f_equal; lia | reflexivity].
  - destruct (starts_with lead (b :: s)); [cbn; f_equal; lia |].
    rewrite (IH (S n)), (IH 1%nat).
    destruct (index_from lead 0 s); cbn; [f_equal; lia | reflexivity].
Qed.

Lemma field_position (lead before rest : str) (n : nat) :
  indexOf lead (before ++ lead) = Some (length before) ->
  index_from lead n (before ++ lead ++ rest) = Some (n + length before)%nat.
Proof.
  intros H. rewrite <- (app_nil_r lead) in H at 2.
  apply (index_from_change_rest lead before [] rest 0) in H.
  rewrite index_from_offset, H. reflexivity.
Qed.

Lemma fields_count (lead close : str) (fields : list (str * str))
    (tail : str) :
  lead <> [] ->
  (length fields <= length (fields_text lead close fields tail))%nat.
Proof.
  intros Hlead. induction fields as [| [b v] more IH]; cbn [length]; [lia |].
  cbn [fields_text]. rewrite !length_app.
  destruct lead; [congruence | cbn [length]; lia].
Qed.

(** The global replacement of a pattern that starts with the text [lead]
    rewrites every field of a text made of fields. *)
Lemma replace_from_fields (lead close value : str) (r : regex)
    (value_ok : str -> str -> Prop) (tail : str) :
  lead <> [] ->
  ~ In "$"%char (lead ++ value ++ close) ->
  (forall i old rest,
      value_ok old rest ->
      exists mt,
        match_at (Seq (Lit lead) r) i (lead ++ old ++ close ++ rest) = Some mt
        /\ matched mt = lead ++ old ++ close) ->
  forall (fields : list (str * str)) (done : str) (fuel : nat),
    fields_ok lead close value_ok fields tail ->
    (length fields <= fuel)%nat ->
    replace_from fuel (Seq (Lit lead) r) (lead ++ value ++ close)
      (done ++ fields_text lead close fields tail) (length done)
    = fields_text lead close (with_value value fields) tail.
Proof.
  intros Hlead Hplain Hmatch.
  induction fields as [| [b old] more IH]; intros done fuel Hok Hfuel.
  - cbn [fields_text fields_ok with_value map] in *.
    rewrite replace_from_none; rewrite drop_app_length; [reflexivity |].
    apply search_no_lead. unfold indexOf in Hok.
    now rewrite index_from_offset, Hok.
  - destruct fuel as [| fuel]; [cbn in Hfuel; lia |].
    cbn [length] in Hfuel.
    cbn [fields_text fields_ok with_value map fst] in *.
    destruct Hok as (Hidx & Hvalue & Hmore).
    set (rest := fields_text lead close more tail) in *.
    rewrite (replace_from_skip fuel lead r _ b (lead ++ old ++ close ++ rest))
      by now apply field_position.
    f_equal.
    destruct (Hmatch (length done + length b)%nat old rest Hvalue)
      as (mt & Hmt & Hmatched).
    rewrite (replace_from_hit fuel _ _ _ _ mt).
    + rewrite <- !app_assoc. do 3 f_equal.
      rewrite Hmatched.
      set (done' := done ++ b ++ lead ++ old ++ close).
      replace (done ++ b ++ lead ++ old ++ close ++ rest)
        with (done' ++ rest)
        by (unfold done'; now rewrite <- !app_assoc).
      replace (length done + length b + length (lead ++ old ++ close))%nat
        with (length done')
        by (unfold done'; rewrite !length_app; lia).
      apply IH; [exact Hmore | lia].
    + assert (Hdrop : drop (length done + length b)
                        (done ++ b ++ lead ++ old ++ close ++ rest)
                      = lead ++ old ++ close ++ rest)
        by (rewrite (app_assoc done b), <- length_app;
            apply drop_app_length).
      rewrite Hdrop. exact Hmt.
    + rewrite Hmatched. destruct lead; [congruence | discriminate].
    + exact Hplain.
Qed.

Lemma matcher_Chr_hit {R} (a : ascii) (s : str) (c : captures)
    (k : str -> captures -> option R) :
  matcher (Chr a) ([a] ++ s) c k = k s c.
Proof. cbn [app matcher]. now rewrite Ascii.eqb_refl. Qed.

Lemma codeRegex_match_at (i : nat) (ds rest : str) :
  counter_value ds rest ->
  exists mt,
    match_at (pattern codeRegex) i
      ("CURRENT_PROJECT_VERSION = " ++ ds ++ ";" ++ rest) = Some mt
    /\ matched mt = "CURRENT_PROJECT_VERSION = " ++ ds ++ ";"
    /\ groups_of mt 1%nat = Some ds.
Proof.
  intros [Hne Hds].
  eexists. split; [| split].
  - unfold match_at, codeRegex, pattern.
    rewrite matcher_Seq, matcher_Lit, starts_with_app, drop_app_length.
    rewrite matcher_Seq.
    erewrite digits_group; [reflexivity | assumption .. | reflexivity |].
    rewrite matcher_Chr_hit. reflexivity.
  - cbn [matched]. rewrite !app_assoc. apply take_front.
  - reflexivity.
Qed.

Lemma first_field (lead close : str) (r : regex) (before value rest : str)
    (mt : match_result) :
  indexOf lead (before ++ lead) = Some (length before) ->
  match_at (Seq (Lit lead) r) (length before) (lead ++ value ++ close ++ rest)
  = Some mt ->
  search (Seq (Lit lead) r) 0 (before ++ lead ++ value ++ close ++ rest)
  = Some mt.
Proof.
  intros Hidx Hmt.
  rewrite search_skip by now apply field_position.
  now apply search_hit.
Qed.

Lemma to_number_decimal (z : Z) :
  0 <= z -> Z.abs z <= 2 ^ 53 -> to_number (Some (decimal z)) = Fin z.
Proof.
  intros Hz Hrange. unfold to_number.
  destruct (decimal_all_digits z Hz) as (d & ds & Hdec & Hd & Hds).
  pose proof (decimal_leading_digits z [] Hz eq_refl) as Hval.
  rewrite app_nil_r in Hval. rewrite Hdec in *.
  cbn [forallb]. rewrite Hd, Hds. cbn [andb]. rewrite Hval.
  now apply round64_safe.
Qed.

Lemma bumpProjectVersion_fields (m : BaseFileManager)
    (w : World) (s1 : FM) (before ds : str) (fields : list (str * str))
    (tail : str) (v : Z) :
  read (m, w)
  = (Ok (fields_text "CURRENT_PROJECT_VERSION = " ";"
           ((before, ds) :: fields) tail), s1) ->
  fields_ok "CURRENT_PROJECT_VERSION = " ";" counter_value
    ((before, ds) :: fields) tail ->
  parseInt ds = Fin v ->
  safe_integer v ->
  PBXManager.bumpProjectVersion (m, w)
  = (Ok {| current := Fin v; next := Fin (v + 1) |},
     (set_content
        (fields_text "CURRENT_PROJECT_VERSION = " ";"
           (with_value (decimal (v + 1)) ((before, ds) :: fields)) tail)
        (fst s1),
      snd s1)).
Proof.
  intros Hread Hok Hv Hsafe.
  pose proof Hok as (Hidx & [Hne Hds] & Hmore). cbn [fields_ok] in Hmore.
  pose proof (parseInt_digits_nonneg ds v Hne Hds Hv) as Hv0.
  assert (Hrange : Z.abs (v + 1) <= 2 ^ 53)
    by (unfold safe_integer, MAX_SAFE_INTEGER in Hsafe; lia).
  destruct (print_safe (v + 1) Hrange) as (Hprint & _ & _).
  destruct (decimal_all_digits (v + 1) ltac:(lia))
    as (d & ds' & Hdec & Hd & Hds').
  assert (Hnew : counter_value (decimal (v + 1))
                   (fields_text "CURRENT_PROJECT_VERSION = " ";"
                      (with_value (decimal (v + 1)) fields) tail)).
  { split; rewrite Hdec; [discriminate |].
    cbn [forallb]. now rewrite Hd, Hds'. }
  destruct (codeRegex_match_at (length before) ds
              (fields_text "CURRENT_PROJECT_VERSION = " ";" fields tail)
              (conj Hne Hds)) as (mt & Hmt & _ & Hcap).
  assert (Hplain : ~ In "$"%char
                       ("CURRENT_PROJECT_VERSION = " ++ decimal (v + 1)
                        ++ ";")).
  { apply not_in_app; [cbn; intuition discriminate |].
    apply not_in_app; [apply decimal_plain | cbn; intuition discriminate]. }
  assert (Hmatch : forall i old rest,
             counter_value old rest ->
             exists mt',
               match_at (pattern codeRegex) i
                 ("CURRENT_PROJECT_VERSION = " ++ old ++ ";" ++ rest)
               = Some mt'
               /\ matched mt' = "CURRENT_PROJECT_VERSION = " ++ old ++ ";").
  { intros i old rest Hold.
    destruct (codeRegex_match_at i old rest Hold) as (mt' & H1 & H2 & _).
    eauto. }
  pose proof (fields_count "CURRENT_PROJECT_VERSION = " ";"
                ((before, ds) :: fields) tail ltac:(discriminate))
    as Hcount.
  assert (Hrep : replace codeRegex
                   ("CURRENT_PROJECT_VERSION = " ++ decimal (v + 1) ++ ";")
                   (fields_text "CURRENT_PROJECT_VERSION = " ";"
                      ((before, ds) :: fields) tail)
                 = fields_text "CURRENT_PROJECT_VERSION = " ";"
                     (with_value (decimal (v + 1)) ((before, ds) :: fields))
                     tail).
  { unfold replace. cbn [global codeRegex].
    apply (replace_from_fields "CURRENT_PROJECT_VERSION = " ";"
             (decimal (v + 1)) _ counter_value tail ltac:(discriminate)
             Hplain Hmatch ((before, ds) :: fields) [] _ Hok).
    cbn [length] in *. lia. }
  unfold PBXManager.bumpProjectVersion, bind. rewrite Hread.
  unfold matchFirst, exec.
  change (pattern codeRegex)
    with (Seq (Lit "CURRENT_PROJECT_VERSION = ")
            (Seq (Group 1 (Plus (Class Digit))) (Chr ";"))) in *.
  cbn [fields_text] in *.
  rewrite (first_field _ _ _ _ _ _ mt Hidx Hmt), Hcap. cbn [ToString].
  unfold parseDecimal. rewrite Hv, plus_one_safe by exact Hsafe.
  rewrite Hprint, Hrep. destruct s1 as [m1 w1]. reflexivity.
Qed.

(** X16: on a project file whose counter fields are runs of digits,
    [bumpProjectVersion] reads the first counter [v], sets every counter
    of the file to [v + 1] whatever its own value was, keeps the rest of
    the text, and [getCurrentProjectVersion] then reads [v + 1] back. *)
Theorem bumpProjectVersion_sets_every_counter (m : BaseFileManager)
    (w : World) (s1 : FM) (before ds : str) (fields : list (str * str))
    (tail : str) (v : Z) :
  read (m, w)
  = (Ok (fields_text "CURRENT_PROJECT_VERSION = " ";"
           ((before, ds) :: fields) tail), s1) ->
  fields_ok "CURRENT_PROJECT_VERSION = " ";" counter_value
    ((before, ds) :: fields) tail ->
  parseInt ds = Fin v ->
  safe_integer v ->
  let s2 :=
    (set_content
       (fields_text "CURRENT_PROJECT_VERSION = " ";"
          (with_value (decimal (v + 1)) ((before, ds) :: fields)) tail)
       (fst s1),
     snd s1) in
  PBXManager.bumpProjectVersion (m, w)
  = (Ok {| current := Fin v; next := Fin (v + 1) |}, s2)
  /\ PBXManager.getCurrentProjectVersion s2 = (Ok (Fin (v + 1)), s2).
Proof.
  intros Hread Hok Hv Hsafe s2.
  pose proof Hok as (Hidx & [Hne Hds] & Hmore). cbn [fields_ok] in Hmore.
  pose proof (parseInt_digits_nonneg ds v Hne Hds Hv) as Hv0.
  assert (Hrange : Z.abs (v + 1) <= 2 ^ 53)
    by (unfold safe_integer, MAX_SAFE_INTEGER in Hsafe; lia).
  destruct (print_safe (v + 1) Hrange) as (Hprint & _ & _).
  destruct (decimal_all_digits (v + 1) ltac:(lia))
    as (d & ds' & Hdec & Hd & Hds').
  assert (Hnew : counter_value (decimal (v + 1))
                   (fields_text "CURRENT_PROJECT_VERSION = " ";"
                      (with_value (decimal (v + 1)) fields) tail)).
  { split; rewrite Hdec; [discriminate |].
    cbn [forallb]. now rewrite Hd, Hds'. }
  split.
  - now apply bumpProjectVersion_fields.
  - unfold PBXManager.getCurrentProjectVersion, bind. unfold s2.
    rewrite read_loaded
      with (text := fields_text "CURRENT_PROJECT_VERSION = " ";"
                      (with_value (decimal (v + 1)) ((before, ds) :: fields))
                      tail)
      by reflexivity.
    destruct (codeRegex_match_at (length before) (decimal (v + 1)) _ Hnew)
      as (mt & Hmt & _ & Hcap).
    unfold matchFirst, exec.
    change (with_value (decimal (v + 1)) ((before, ds) :: fields))
      with ((before, decimal (v + 1)) :: with_value (decimal (v + 1)) fields).
    cbn [fields_text].
    change (pattern codeRegex)
      with (Seq (Lit "CURRENT_PROJECT_VERSION = ")
              (Seq (Group 1 (Plus (Class Digit))) (Chr ";"))) in *.
    rewrite (first_field _ _ _ _ _ _ mt Hidx Hmt), Hcap.
    unfold ret. now rewrite to_number_decimal by lia.
Qed.

Lemma bumpProjectVersion_sets_every_counter_witness :
  let m := Demo.loaded Demo.pbxproj_path Demo.pbxproj_text in
  let s2 :=
    (set_content
       ("CURRENT_PROJECT_VERSION = 25;" ++ Demo.newline
        ++ "MARKETING_VERSION = 1.10.6;" ++ Demo.newline
        ++ "CURRENT_PROJECT_VERSION = 25;" ++ Demo.newline
        ++ "MARKETING_VERSION = 1.10.6;" ++ Demo.newline) m,
     Demo.world) in
  PBXManager.bumpProjectVersion (m, Demo.world)
  = (Ok {| current := Fin 24; next := Fin 25 |}, s2)
  /\ PBXManager.getCurrentProjectVersion s2 = (Ok (Fin 25), s2).
Proof.
  intros m.
  apply (bumpProjectVersion_sets_every_counter m Demo.world (m, Demo.world)
           [] "24"
           [(Demo.newline ++ "MARKETING_VERSION = 1.10.6;" ++ Demo.newline,
             "24")]
           (Demo.newline ++ "MARKETING_VERSION = 1.10.6;" ++ Demo.newline)
           24).
  - reflexivity.
  - repeat split; try discriminate; vm_compute; reflexivity.
  - vm_compute. reflexivity.
  - unfold safe_integer, MAX_SAFE_INTEGER. simpl. lia.
Defined.

Lemma star_class_step {R} (cl : char_class)
    (k : str -> captures -> option R) (b : ascii) (s : str) (c : captures) :
  in_class cl b = true ->
  star_class cl k s c = None ->
  star_class cl k ([b] ++ s) c = k ([b] ++ s) c.
Proof. intros Hb Hs. cbn [app star_class]. now rewrite Hb, Hs. Qed.

(** After the last [q] of the line the greedy [.*] has nowhere to stop. *)
Lemma star_dot_stuck {R} (q : ascii) (post : str) (c : captures)
    (k : str -> captures -> option R)
    (capture : str -> captures -> captures) :
  is_line_terminator q = false ->
  ~ In q (line_rest post) ->
  star_class Dot (fun s' c' => matcher (Chr q) s' (capture s' c') k) post c
  = None.
Proof.
  intros Hq. induction post as [| b post IH]; intros Hin; [reflexivity |].
  cbn [star_class in_class matcher line_rest] in *.
  destruct (is_line_terminator b) eqn:Hb; cbn [negb].
  - destruct (Ascii.eqb_spec q b) as [-> | _]; [congruence | reflexivity].
  - rewrite IH by (intros H; apply Hin; now right).
    destruct (Ascii.eqb_spec q b) as [-> | _]; [| reflexivity].
    exfalso. apply Hin. now left.
Qed.

Lemma versionRegex_match_at (i : nat) (v rest : str) :
  version_value v rest ->
  exists mt,
    match_at (pattern versionRegex) i
      ("MARKETING_VERSION = " ++ v ++ ";" ++ rest) = Some mt
    /\ matched mt = "MARKETING_VERSION = " ++ v ++ ";"
    /\ groups_of mt 1%nat = Some v.
Proof.
  intros [Hv Hrest].
  eexists. split; [| split].
  - unfold match_at, versionRegex, pattern.
    rewrite matcher_Seq, matcher_Lit, starts_with_app, drop_app_length.
    rewrite matcher_Seq, matcher_Group, matcher_star_class.
    erewrite star_class_run; [reflexivity | exact Hv |].
    rewrite star_class_step;
      [| reflexivity | now apply star_dot_stuck].
    rewrite matcher_Chr_hit. reflexivity.
  - cbn [matched]. rewrite !app_assoc. apply take_front.
  - cbn [groups_of]. unfold set_capture. cbn [Nat.eqb]. f_equal.
    apply take_front.
Qed.

Lemma line_rest_app (a z : str) :
  forallb (fun c => negb (is_line_terminator c)) a = true ->
  line_rest (a ++ z) = a ++ line_rest z.
Proof.
  induction a as [| b a IH]; intros Ha; [reflexivity |].
  cbn [forallb] in Ha. apply andb_prop in Ha as [Hb Ha].
  apply negb_true_iff in Hb.
  cbn [app line_rest]. rewrite Hb. f_equal. now apply IH.
Qed.

(** A line on which no [;] follows ends before the next field. *)
Lemma line_rest_before_field (b lead old x y : str) :
  forallb (fun c => negb (is_line_terminator c)) lead = true ->
  forallb (fun c => negb (is_line_terminator c)) old = true ->
  ~ In ";"%char (line_rest (b ++ lead ++ old ++ ";" ++ x)) ->
  line_rest (b ++ y) = line_rest (b ++ lead ++ old ++ ";" ++ x).
Proof.
  intros Hlead Hold. induction b as [| c b IH]; intros Hfree.
  - exfalso. apply Hfree. cbn [app].
    rewrite line_rest_app by exact Hlead.
    rewrite line_rest_app by exact Hold.
    apply in_or_app. right. apply in_or_app. right. now left.
  - cbn [app line_rest] in *.
    destruct (is_line_terminator c); [reflexivity |].
    f_equal. apply IH. intros H. apply Hfree. now right.
Qed.

Lemma version_fields_rest (fields : list (str * str)) (tail value : str) :
  fields_ok "MARKETING_VERSION = " ";" version_value fields tail ->
  ~ In ";"%char
      (line_rest (fields_text "MARKETING_VERSION = " ";" fields tail)) ->
  ~ In ";"%char
      (line_rest
         (fields_text "MARKETING_VERSION = " ";" (with_value value fields)
            tail)).
Proof.
  destruct fields as [| [b old] more]; [auto |].
  cbn [fields_ok fields_text with_value map fst].
  intros (_ & [Hold _] & _) Hfree.
  now rewrite (line_rest_before_field b "MARKETING_VERSION = " old
                 (fields_text "MARKETING_VERSION = " ";" more tail)).
Qed.

Lemma setMarketingVersion_fields (m : BaseFileManager)
    (w : World) (s1 : FM) (before old : str) (fields : list (str * str))
    (tail nextVersion : str) :
  read (m, w)
  = (Ok (fields_text "MARKETING_VERSION = " ";"
           ((before, old) :: fields) tail), s1) ->
  fields_ok "MARKETING_VERSION = " ";" version_value
    ((before, old) :: fields) tail ->
  forallb (fun c => negb (is_line_terminator c)) nextVersion = true ->
  ~ In "$"%char nextVersion ->
  PBXManager.setMarketingVersion nextVersion (m, w)
  = (Ok {| current := Some old; next := nextVersion |},
     (set_content
        (fields_text "MARKETING_VERSION = " ";"
           (with_value nextVersion ((before, old) :: fields)) tail)
        (fst s1),
      snd s1)).
Proof.
  intros Hread Hok Hnext Hplain.
  pose proof Hok as (Hidx & [Hold Hrest] & Hmore). cbn [fields_ok] in Hmore.
  assert (Hnew : version_value nextVersion
                   (fields_text "MARKETING_VERSION = " ";"
                      (with_value nextVersion fields) tail)).
  { split; [exact Hnext |]. now apply version_fields_rest. }
  change (pattern versionRegex)
    with (Seq (Lit "MARKETING_VERSION = ")
            (Seq (Group 1 (Star (Class Dot))) (Chr ";"))) in *.
  destruct (versionRegex_match_at (length before) old
              (fields_text "MARKETING_VERSION = " ";" fields tail)
              (conj Hold Hrest)) as (mt & Hmt & _ & Hcap).
  assert (Htpl : ~ In "$"%char
                     ("MARKETING_VERSION = " ++ nextVersion ++ ";")).
  { apply not_in_app; [cbn; intuition discriminate |].
    apply not_in_app; [exact Hplain | cbn; intuition discriminate]. }
  assert (Hmatch : forall i value rest,
             version_value value rest ->
             exists mt',
               match_at (pattern versionRegex) i
                 ("MARKETING_VERSION = " ++ value ++ ";" ++ rest)
               = Some mt'
               /\ matched mt' = "MARKETING_VERSION = " ++ value ++ ";").
  { intros i value rest Hvalue.
    destruct (versionRegex_match_at i value rest Hvalue)
      as (mt' & H1 & H2 & _).
    eauto. }
  pose proof (fields_count "MARKETING_VERSION = " ";"
                ((before, old) :: fields) tail ltac:(discriminate))
    as Hcount.
  assert (Hrep : replace versionRegex
                   ("MARKETING_VERSION = " ++ nextVersion ++ ";")
                   (fields_text "MARKETING_VERSION = " ";"
                      ((before, old) :: fields) tail)
                 = fields_text "MARKETING_VERSION = " ";"
                     (with_value nextVersion ((before, old) :: fields))
                     tail).
  { unfold replace. cbn [global versionRegex].
    apply (replace_from_fields "MARKETING_VERSION = " ";"
             nextVersion _ version_value tail ltac:(discriminate)
             Htpl Hmatch ((before, old) :: fields) [] _ Hok).
    cbn [length] in *. lia. }
  unfold PBXManager.setMarketingVersion, bind. rewrite Hread, Hrep.
  unfold matchFirst, exec.
  change (pattern versionRegex)
    with (Seq (Lit "MARKETING_VERSION = ")
            (Seq (Group 1 (Star (Class Dot))) (Chr ";"))) in *.
  cbn [fields_text] in *.
  rewrite (first_field _ _ _ _ _ _ mt Hidx Hmt), Hcap.
  destruct s1 as [m1 w1]. reflexivity.
Qed.

(** X17: on a project file whose version fields each end their line,
    [setMarketingVersion next] returns the value of the first field as
    current, sets every field to [next], keeps the rest of the text, and
    [getCurrentMarketingVersion] then reads [next] back. *)
Theorem setMarketingVersion_sets_every_version (m : BaseFileManager)
    (w : World) (s1 : FM) (before old : str) (fields : list (str * str))
    (tail nextVersion : str) :
  read (m, w)
  = (Ok (fields_text "MARKETING_VERSION = " ";"
           ((before, old) :: fields) tail), s1) ->
  fields_ok "MARKETING_VERSION = " ";" version_value
    ((before, old) :: fields) tail ->
  forallb (fun c => negb (is_line_terminator c)) nextVersion = true ->
  ~ In "$"%char nextVersion ->
  let s2 :=
    (set_content
       (fields_text "MARKETING_VERSION = " ";"
          (with_value nextVersion ((before, old) :: fields)) tail)
       (fst s1),
     snd s1) in
  PBXManager.setMarketingVersion nextVersion (m, w)
  = (Ok {| current := Some old; next := nextVersion |}, s2)
  /\ PBXManager.getCurrentMarketingVersion s2 = (Ok (Some nextVersion), s2).
Proof.
  intros Hread Hok Hnext Hplain s2.
  pose proof Hok as (Hidx & [Hold Hrest] & Hmore). cbn [fields_ok] in Hmore.
  assert (Hnew : version_value nextVersion
                   (fields_text "MARKETING_VERSION = " ";"
                      (with_value nextVersion fields) tail)).
  { split; [exact Hnext |]. now apply version_fields_rest. }
  change (pattern versionRegex)
    with (Seq (Lit "MARKETING_VERSION = ")
            (Seq (Group 1 (Star (Class Dot))) (Chr ";"))) in *.
  split.
  - now apply setMarketingVersion_fields.
  - unfold PBXManager.getCurrentMarketingVersion, bind. unfold s2.
    rewrite read_loaded
      with (text := fields_text "MARKETING_VERSION = " ";"
                      (with_value nextVersion ((before, old) :: fields))
                      tail)
      by reflexivity.
    destruct (versionRegex_match_at (length before) nextVersion _ Hnew)
      as (mt & Hmt & _ & Hcap).
    unfold matchFirst, exec.
    change (with_value nextVersion ((before, old) :: fields))
      with ((before, nextVersion) :: with_value nextVersion fields).
    cbn [fields_text].
    change (pattern versionRegex)
      with (Seq (Lit "MARKETING_VERSION = ")
              (Seq (Group 1 (Star (Class Dot))) (Chr ";"))) in *.
    now rewrite (first_field _ _ _ _ _ _ mt Hidx Hmt), Hcap.
Qed.

Lemma setMarketingVersion_sets_every_version_witness :
  let m := Demo.loaded Demo.pbxproj_path Demo.pbxproj_text in
  let s2 :=
    (set_content
       ("CURRENT_PROJECT_VERSION = 24;" ++ Demo.newline
        ++ "MARKETING_VERSION = 1.10.7;" ++ Demo.newline
        ++ "CURRENT_PROJECT_VERSION = 24;" ++ Demo.newline
        ++ "MARKETING_VERSION = 1.10.7;" ++ Demo.newline) m,
     Demo.world) in
  PBXManager.setMarketingVersion "1.10.7" (m, Demo.world)
  = (Ok {| current := Some "1.10.6"; next := "1.10.7" |}, s2)
  /\ PBXManager.getCurrentMarketingVersion s2 = (Ok (Some "1.10.7"), s2).
Proof.
  intros m.
  apply (setMarketingVersion_sets_every_version m Demo.world (m, Demo.world)
           ("CURRENT_PROJECT_VERSION = 24;" ++ Demo.newline) "1.10.6"
           [(Demo.newline ++ "CURRENT_PROJECT_VERSION = 24;" ++ Demo.newline,
             "1.10.6")]
           Demo.newline "1.10.7").
  - reflexivity.
  - repeat split; try (vm_compute; reflexivity); cbn; tauto.
  - reflexivity.
  - cbn. intuition discriminate.
Defined.

(** ** A project file without the fields *)

(** X18: on a project file without the counter text,
    [bumpProjectVersion] returns NaN for both values and changes nothing;
    without the version text, [setMarketingVersion] returns [undefined] as
    current and changes nothing.  Neither throws. *)
Theorem pbx_without_fields_changes_nothing (m : BaseFileManager) (w : World)
    (s1 : FM) (buf : str) :
  read (m, w) = (Ok buf, s1) ->
  (indexOf "CURRENT_PROJECT_VERSION = " buf = None ->
   PBXManager.bumpProjectVersion (m, w)
   = (Ok {| current := NaN; next := NaN |}, s1))
  /\ (indexOf "MARKETING_VERSION = " buf = None ->
      forall nextVersion,
        PBXManager.setMarketingVersion nextVersion (m, w)
        = (Ok {| current := None; next := nextVersion |}, s1)).
Proof.
  intros Hread.
  assert (Hsame : (set_content buf (fst s1), snd s1) = s1).
  { destruct s1 as [m1 w1].
    apply (read_ok m m1 w w1 buf) in Hread as (Hc & _).
    destruct m1 as [p c n]. cbn in *. now subst c. }
  assert (Hnone : forall (lead : str) (r : regex) (tpl : str),
             indexOf lead buf = None ->
             search (Seq (Lit lead) r) 0 buf = None
             /\ replace_from (S (length buf)) (Seq (Lit lead) r) tpl buf 0
                = buf).
  { intros lead r tpl Hidx.
    pose proof (search_no_lead lead r 0 buf Hidx) as Hs.
    split; [exact Hs |]. now rewrite replace_from_none. }
  split.
  - intros Hidx.
    destruct (Hnone _ (Seq (Group 1 (Plus (Class Digit))) (Chr ";"))
                ("CURRENT_PROJECT_VERSION = " ++ "NaN" ++ ";") Hidx)
      as [Hs Hr].
    unfold PBXManager.bumpProjectVersion, bind. rewrite Hread.
    unfold matchFirst, exec, replace. cbn [global codeRegex].
    change (pattern codeRegex)
      with (Seq (Lit "CURRENT_PROJECT_VERSION = ")
              (Seq (Group 1 (Plus (Class Digit))) (Chr ";"))).
    rewrite Hs. cbn [ToString].
    change (parseDecimal "undefined") with NaN.
    cbn [num_add num_to_string]. rewrite Hr.
    unfold put_content, modify, ret. destruct s1 as [m1 w1].
    cbn [fst snd] in *. now rewrite Hsame.
  - intros Hidx nextVersion.
    destruct (Hnone _ (Seq (Group 1 (Star (Class Dot))) (Chr ";"))
                ("MARKETING_VERSION = " ++ nextVersion ++ ";") Hidx)
      as [Hs Hr].
    unfold PBXManager.setMarketingVersion, bind. rewrite Hread.
    unfold matchFirst, exec, replace. cbn [global versionRegex].
    change (pattern versionRegex)
      with (Seq (Lit "MARKETING_VERSION = ")
              (Seq (Group 1 (Star (Class Dot))) (Chr ";"))).
    rewrite Hs, Hr.
    unfold put_content, modify, ret. destruct s1 as [m1 w1].
    cbn [fst snd] in *. now rewrite Hsame.
Qed.

Lemma pbx_without_fields_changes_nothing_witness :
  let m := Demo.loaded Demo.pbxproj_path "// empty project" in
  PBXManager.bumpProjectVersion (m, Demo.world)
  = (Ok {| current := NaN; next := NaN |}, (m, Demo.world))
  /\ PBXManager.setMarketingVersion "2.0.0" (m, Demo.world)
     = (Ok {| current := None; next := "2.0.0" |}, (m, Demo.world)).
Proof.
  intros m.
  destruct (pbx_without_fields_changes_nothing m Demo.world (m, Demo.world)
              "// empty project" eq_refl) as [Hcode Hversion].
  split.
  - apply Hcode. vm_compute. reflexivity.
  - apply Hversion. vm_compute. reflexivity.
Defined.

(** ** The entry point of the command line *)

Lemma replace_string_first (pat tpl pre post : str) :
  indexOf pat (pre ++ pat) = Some (length pre) ->
  ~ In "$"%char tpl ->
  replace_string pat tpl (pre ++ pat ++ post) = pre ++ tpl ++ post.
Proof.
  intros Hidx Htpl. unfold replace_string.
  pose proof (field_position pat pre post 0 Hidx) as Hpos.
  cbn [Nat.add] in Hpos. unfold indexOf. rewrite Hpos.
  cbn zeta. rewrite substitution_plain by exact Htpl.
  rewrite take_app_length. do 2 f_equal.
  rewrite drop_app_add. apply drop_app_length.
Qed.

Lemma replace_string_absent (pat tpl s : str) :
  indexOf pat s = None -> replace_string pat tpl s = s.
Proof. intros H. unfold replace_string. now rewrite H. Qed.

Lemma join_strings_nonempty (sep : str) (tokens : list str) :
  tokens <> [] -> Forall (fun t => t <> []) tokens ->
  join_strings sep tokens <> [].
Proof.
  intros Hne Hall. destruct tokens as [| t ts]; [congruence |].
  inversion Hall as [| ? ? Ht _]; subst.
  destruct t as [| ch t]; [congruence |].
  destruct ts; discriminate.
Qed.

(** X19: a skip flag that is absent or empty gives no token; otherwise
    the flag is cut at its spaces: for non-empty tokens without a space,
    joined by single spaces, the skip list is the list of the tokens, and
    it includes a platform exactly when the platform is one of them. *)
Theorem skip_list_tokens (tokens : list str) :
  skip_list None = [] /\ skip_list (Some []) = []
  /\ (tokens <> [] ->
      Forall (fun t => t <> [] /\ ~ In " "%char t) tokens ->
      skip_list (Some (join_strings " " tokens)) = tokens
      /\ forall platform,
           includes (skip_list (Some (join_strings " " tokens))) platform
           = true <-> In platform tokens).
Proof.
  split; [reflexivity |]. split; [reflexivity |].
  intros Hne Hall.
  assert (Hlist : skip_list (Some (join_strings " " tokens)) = tokens).
  { unfold skip_list.
    assert (Hjoin : join_strings " " tokens <> []).
    { apply join_strings_nonempty; [exact Hne |].
      eapply Forall_impl; [exact Hall |]. now intros t [Ht _]. }
    destruct (join_strings " " tokens) as [| ch rest] eqn:Hj; [congruence |].
    rewrite <- Hj. destruct tokens as [| t ts]; [congruence |].
    apply split_go_join.
    eapply Forall_impl; [exact Hall |]. now intros t' [_ Ht]. }
  split; [exact Hlist |].
  intros platform. rewrite Hlist. unfold includes.
  rewrite existsb_exists. split.
  - intros (x & Hin & Heq). unfold str_eqb in Heq.
    apply bool_decide_eq_true_1 in Heq. now subst.
  - intros Hin. exists platform. split; [exact Hin |].
    unfold str_eqb. now apply bool_decide_eq_true_2.
Qed.

Lemma skip_list_tokens_witness :
  skip_list (Some "android ios") = ["android"; "ios"]
  /\ forall platform,
       includes (skip_list (Some "android ios")) platform = true
       <-> In platform ["android"; "ios"].
Proof.
  apply (proj2 (proj2 (skip_list_tokens ["android"; "ios"])));
    [discriminate |].
  repeat constructor; try discriminate; cbn; intuition discriminate.
Defined.

Section EntryPoint.
Context {rt : Runtime}.
Import ProjectFilesManager.

(** X20: with an iOS project configured, an explicit non-empty
    [pbxprojPath] is the path of the project file; otherwise the path is
    made of the source directory, the name of the Xcode project with its
    first ".xcworkspace" replaced by ".xcodeproj" (the name as it is when
    it holds none), and "project.pbxproj". *)
Theorem pbxprojPath_of_project (cliConfigs : CliConfigs.t) (iosProject : Ios.t) :
  project_ios cliConfigs = Some iosProject ->
  (forall p,
      Ios.pbxprojPath iosProject = Some p -> p <> [] ->
      Versioner.pbxprojPath_of cliConfigs = Ok p)
  /\ (forall dir xcode,
         truthy (Ios.pbxprojPath iosProject) = false ->
         Ios.sourceDir iosProject = Some dir -> dir <> [] ->
         Ios.xcodeProject iosProject = Some xcode ->
         (forall base rest,
             XcodeProject.name xcode = base ++ ".xcworkspace" ++ rest ->
             indexOf ".xcworkspace" (base ++ ".xcworkspace")
             = Some (length base) ->
             Versioner.pbxprojPath_of cliConfigs
             = Ok (path_join [dir; base ++ ".xcodeproj" ++ rest;
                              "project.pbxproj"]))
         /\ (indexOf ".xcworkspace" (XcodeProject.name xcode) = None ->
             Versioner.pbxprojPath_of cliConfigs
             = Ok (path_join [dir; XcodeProject.name xcode;
                              "project.pbxproj"]))).
Proof.
  intros Hios. unfold Versioner.pbxprojPath_of. rewrite Hios.
  cbn [required_object and_then]. split.
  - intros p -> Hp. now destruct p.
  - intros dir xcode Hexplicit -> Hdir ->.
    assert (Hrest : match Ios.pbxprojPath iosProject with
                    | Some ((_ :: _) as explicit) => Ok explicit
                    | _ =>
                        Ok (path_join
                              [dir;
                               replace_string ".xcworkspace" ".xcodeproj"
                                 (XcodeProject.name xcode);
                               "project.pbxproj"])
                    end
                    = Ok (path_join
                            [dir;
                             replace_string ".xcworkspace" ".xcodeproj"
                               (XcodeProject.name xcode);
                             "project.pbxproj"])).
    { now destruct (Ios.pbxprojPath iosProject) as [[| ch p] |]. }
    assert (Hgoal : forall name',
               replace_string ".xcworkspace" ".xcodeproj"
                 (XcodeProject.name xcode) = name' ->
               match Ios.pbxprojPath iosProject with
               | Some ((_ :: _) as explicit) => Ok explicit
               | _ =>
                   and_then (required_string (Some dir) "project.ios.sourceDir")
                     (fun dir0 =>
                        and_then
                          (required_object (Some xcode)
                             "project.ios.xcodeProject")
                          (fun xcode0 =>
                             Ok (path_join
                                   [dir0;
                                    replace_string ".xcworkspace" ".xcodeproj"
                                      (XcodeProject.name xcode0);
                                    "project.pbxproj"])))
               end = Ok (path_join [dir; name'; "project.pbxproj"])).
    { intros name' <-. destruct dir as [| ch dir]; [congruence |].
      exact Hrest. }
    split.
    + intros base rest Hname Hidx. apply Hgoal. rewrite Hname.
      apply replace_string_first; [exact Hidx | cbn; intuition discriminate].
    + intros Habsent. apply Hgoal. now apply replace_string_absent.
Qed.

(** X21: the path function of the build file returns the join of source
    directory, app name and "build.gradle" when the Android project and
    both values are present, and otherwise throws the error that names the
    first missing one; likewise the path function of the project file
    throws for a missing iOS project, source directory or Xcode project, in
    this order, unless an explicit path is given. *)
Theorem path_functions_name_what_is_missing (cliConfigs : CliConfigs.t) :
  match Versioner.buildGradlePath_of cliConfigs with
  | Ok p =>
      exists androidProject dir app,
        project_android cliConfigs = Some androidProject
        /\ Android.sourceDir androidProject = Some dir /\ dir <> []
        /\ Android.appName androidProject = Some app /\ app <> []
        /\ p = path_join [dir; app; "build.gradle"]
  | Throw e =>
      (project_android cliConfigs = None
       /\ e = Error (required_message "undefined" "project.android"))
      \/ exists androidProject,
           project_android cliConfigs = Some androidProject
           /\ ((truthy (Android.sourceDir androidProject) = false
                /\ e = Error (required_message
                                (ToString (Android.sourceDir androidProject))
                                "project.android.sourceDir"))
               \/ (truthy (Android.sourceDir androidProject) = true
                   /\ truthy (Android.appName androidProject) = false
                   /\ e = Error (required_message
                                   (ToString (Android.appName androidProject))
                                   "project.android.appName")))
  end
  /\ match Versioner.pbxprojPath_of cliConfigs with
     | Ok p =>
         exists iosProject,
           project_ios cliConfigs = Some iosProject
           /\ (Ios.pbxprojPath iosProject = Some p \/
               (truthy (Ios.sourceDir iosProject) = true
                /\ Ios.xcodeProject iosProject <> None))
     | Throw e =>
         (project_ios cliConfigs = None
          /\ e = Error (required_message "undefined" "project.ios"))
         \/ exists iosProject,
              project_ios cliConfigs = Some iosProject
              /\ truthy (Ios.pbxprojPath iosProject) = false
              /\ ((truthy (Ios.sourceDir iosProject) = false
                   /\ e = Error (required_message
                                   (ToString (Ios.sourceDir iosProject))
                                   "project.ios.sourceDir"))
                  \/ (truthy (Ios.sourceDir iosProject) = true
                      /\ Ios.xcodeProject iosProject = None
                      /\ e = Error (required_message "undefined"
                                      "project.ios.xcodeProject")))
     end.
Proof.
  split.
  - unfold Versioner.buildGradlePath_of.
    destruct (project_android cliConfigs) as [a |];
      cbn [required_object and_then]; [| left; auto].
    destruct (Android.sourceDir a) as [[| ch dir] |] eqn:Hdir;
      cbn [required_string and_then ToString truthy];
      try (right; exists a; split; [reflexivity |]; left; now rewrite Hdir).
    destruct (Android.appName a) as [[| ch' app] |] eqn:Happ;
      cbn [required_string and_then ToString truthy];
      try (right; exists a; split; [reflexivity |]; right;
           now rewrite Hdir, Happ).
    exists a, (ch :: dir), (ch' :: app). repeat split; congruence.
  - unfold Versioner.pbxprojPath_of.
    destruct (project_ios cliConfigs) as [i |];
      cbn [required_object and_then]; [| left; auto].
    assert (Hlater :
              truthy (Ios.pbxprojPath i) = false ->
              match
                and_then
                  (required_string (Ios.sourceDir i) "project.ios.sourceDir")
                  (fun dir =>
                     and_then
                       (required_object (Ios.xcodeProject i)
                          "project.ios.xcodeProject")
                       (fun xcode =>
                          Ok (path_join
                                [dir;
                                 replace_string ".xcworkspace" ".xcodeproj"
                                   (XcodeProject.name xcode);
                                 "project.pbxproj"])))
              with
              | Ok p =>
                  exists iosProject,
                    Some i = Some iosProject
                    /\ (Ios.pbxprojPath iosProject = Some p \/
                        (truthy (Ios.sourceDir iosProject) = true
                         /\ Ios.xcodeProject iosProject <> None))
              | Throw e =>
                  (Some i = None
                   /\ e = Error (required_message "undefined" "project.ios"))
                  \/ exists iosProject,
                       Some i = Some iosProject
                       /\ truthy (Ios.pbxprojPath iosProject) = false
                       /\ ((truthy (Ios.sourceDir iosProject) = false
                            /\ e = Error
                                     (required_message
                                        (ToString (Ios.sourceDir iosProject))
                                        "project.ios.sourceDir"))
                           \/ (truthy (Ios.sourceDir iosProject) = true
                               /\ Ios.xcodeProject iosProject = None
                               /\ e = Error
                                        (required_message "undefined"
                                           "project.ios.xcodeProject")))
              end).
    { intros Hexplicit.
      destruct (Ios.sourceDir i) as [[| ch dir] |] eqn:Hdir;
        cbn [required_string and_then ToString].
      - right. exists i. rewrite Hdir. auto.
      - destruct (Ios.xcodeProject i) as [x |] eqn:Hx;
          cbn [required_object and_then].
        + exists i. rewrite Hdir, Hx. split; [reflexivity |]. right.
          split; [reflexivity | discriminate].
        + right. exists i. rewrite Hdir, Hx. auto 6.
      - right. exists i. rewrite Hdir. auto. }
    destruct (Ios.pbxprojPath i) as [[| ch p] |] eqn:Hp.
    + rewrite <- Hp in Hlater. apply Hlater. now rewrite Hp.
    + exists i. rewrite Hp. auto.
    + rewrite <- Hp in Hlater. apply Hlater. now rewrite Hp.
Qed.

(** X22: [versioner] has three outcomes, told apart by the two skip
    flags and the root.  When both flags are the string "all" it logs
    "Skipped version update" and returns nothing, whatever the root.
    Otherwise the world is unchanged, and it throws the error that names
    "root" when the root is missing or empty, or returns the configuration
    made of the arguments, the root, the two path functions not yet
    called and the skip lists cut from the flags. *)
Theorem versioner_outcome (cliConfigs : CliConfigs.t) (cliArgs : CliArgs.t)
    (w : World) :
  let all_skipped :=
    CliArgs.skipCodeFor cliArgs = Some "all"
    /\ CliArgs.skipSemverFor cliArgs = Some "all" in
  (all_skipped ->
   Versioner.versioner cliConfigs cliArgs w
   = (Ok None, log_line "Skipped version update" w))
  /\ (~ all_skipped ->
      truthy (CliConfigs.root cliConfigs) = false ->
      Versioner.versioner cliConfigs cliArgs w
      = (Throw (Error (required_message
                         (ToString (CliConfigs.root cliConfigs)) "root")),
         w))
  /\ (~ all_skipped ->
      forall dir,
        CliConfigs.root cliConfigs = Some dir ->
        dir <> [] ->
        Versioner.versioner cliConfigs cliArgs w
        = (Ok (Some
                 {| type := CliArgs.type cliArgs;
                    semver := CliArgs.semver cliArgs;
                    skipSemverFor :=
                      skip_list (CliArgs.skipSemverFor cliArgs);
                    skipCodeFor := skip_list (CliArgs.skipCodeFor cliArgs);
                    versionFile := CliArgs.versionFile cliArgs;
                    root := dir;
                    pbxprojPath := Versioner.pbxprojPath_of cliConfigs;
                    buildGradlePath :=
                      Versioner.buildGradlePath_of cliConfigs |}),
           w)).
Proof.
  intros all_skipped. unfold Versioner.versioner.
  assert (Hall : forall flag, is_kind flag "all" = true -> flag = Some "all").
  { intros [t |]; cbn [is_kind]; [| discriminate].
    unfold str_eqb. intros H. apply bool_decide_eq_true_1 in H.
    now rewrite H. }
  assert (Hboth : is_kind (CliArgs.skipCodeFor cliArgs) "all"
                  && is_kind (CliArgs.skipSemverFor cliArgs) "all" = true
                  <-> all_skipped).
  { unfold all_skipped. rewrite andb_true_iff. split.
    - intros [H1 H2]. auto.
    - intros [-> ->]. now rewrite !is_kind_same. }
  destruct (is_kind (CliArgs.skipCodeFor cliArgs) "all"
            && is_kind (CliArgs.skipSemverFor cliArgs) "all") eqn:Hflags.
  - split; [reflexivity |].
    split; intros Hnot; exfalso; apply Hnot, Hboth; reflexivity.
  - split; [intros Hyes; apply Hboth in Hyes; discriminate |].
    unfold bind, lift, ret. split.
    + intros _ Hroot.
      now destruct (CliConfigs.root cliConfigs) as [[| ch dir] |].
    + intros _ dir -> Hdir. now destruct dir.
Qed.

(** X23: the configuration of a platform is needed only if the platform
    is used: for a configuration returned by [versioner] without a version
    file, [run] on the manager of [apiVersioner] never calls the path
    function of a platform that both skip flags leave out, so that its
    missing configuration raises no error. *)
Theorem versioner_skipped_platform_needs_no_configuration
    (cliConfigs : CliConfigs.t) (cliArgs : CliArgs.t) (w w' : World)
    (configs : Configs) :
  Versioner.versioner cliConfigs cliArgs w = (Ok (Some configs), w') ->
  truthy (CliArgs.versionFile cliArgs) = false ->
  let final := snd (run configs (apiVersioner configs w')) in
  (skips (skip_list (CliArgs.skipCodeFor cliArgs)) "ios" = true ->
   skips (skip_list (CliArgs.skipSemverFor cliArgs)) "ios" = true ->
   pbx final = new_manager (Versioner.pbxprojPath_of cliConfigs))
  /\ (skips (skip_list (CliArgs.skipCodeFor cliArgs)) "android" = true ->
      skips (skip_list (CliArgs.skipSemverFor cliArgs)) "android" = true ->
      buildGradle final
      = new_manager (Versioner.buildGradlePath_of cliConfigs)).
Proof.
  intros Hversioner Hfile final.
  assert (Hconfigs :
            versionFile configs = CliArgs.versionFile cliArgs
            /\ skipCodeFor configs = skip_list (CliArgs.skipCodeFor cliArgs)
            /\ skipSemverFor configs
               = skip_list (CliArgs.skipSemverFor cliArgs)
            /\ pbxprojPath configs = Versioner.pbxprojPath_of cliConfigs
            /\ buildGradlePath configs
               = Versioner.buildGradlePath_of cliConfigs).
  { revert Hversioner. unfold Versioner.versioner.
    destruct (_ && _); [discriminate |].
    unfold bind, lift, ret.
    destruct (required_string (CliConfigs.root cliConfigs) "root");
      [| discriminate].
    intros [= <- _]. repeat split. }
  destruct Hconfigs as (Hvf & Hcode & Hsem & Hpbx & Hgradle).
  unfold final, apiVersioner. split; intros Hc Hs.
  - rewrite run_keeps_pbx; rewrite ?Hvf, ?Hcode, ?Hsem; try assumption;
      try reflexivity.
    cbn [new pbx]. now rewrite Hpbx.
  - rewrite run_keeps_buildGradle; rewrite ?Hvf, ?Hcode, ?Hsem;
      try assumption; try reflexivity.
    cbn [new buildGradle]. now rewrite Hgradle.
Qed.

End EntryPoint.

Lemma pbxprojPath_of_project_witness :
  let iosProject :=
    {| Ios.sourceDir := Some "/app/ios";
       Ios.pbxprojPath := None;
       Ios.xcodeProject := Some {| XcodeProject.name := "App.xcworkspace" |} |}
  in
  @Versioner.pbxprojPath_of Demo.runtime
    {| CliConfigs.root := Some "/app";
       CliConfigs.project :=
         Some {| Project.ios := Some iosProject; Project.android := None |} |}
  = Ok "/app/ios/App.xcodeproj/project.pbxproj".
Proof.
  intros iosProject.
  destruct (proj2 (@pbxprojPath_of_project Demo.runtime
                     {| CliConfigs.root := Some "/app";
                        CliConfigs.project :=
                          Some {| Project.ios := Some iosProject;
                                  Project.android := None |} |}
                     iosProject eq_refl)
              "/app/ios" {| XcodeProject.name := "App.xcworkspace" |}
              eq_refl eq_refl ltac:(discriminate) eq_refl)
    as [Hreplaced _].
  apply (Hreplaced "App" []); [reflexivity | vm_compute; reflexivity].
Defined.

Lemma versioner_outcome_witness :
  @Versioner.versioner Demo.runtime
    {| CliConfigs.root := None; CliConfigs.project := None |}
    {| CliArgs.skipCodeFor := Some "all";
       CliArgs.skipSemverFor := Some "all";
       CliArgs.versionFile := None;
       CliArgs.semver := None;
       CliArgs.type := Some "patch" |}
    Demo.world
  = (Ok None, log_line "Skipped version update" Demo.world)
  /\ @Versioner.versioner Demo.runtime
       {| CliConfigs.root := None; CliConfigs.project := None |}
       {| CliArgs.skipCodeFor := Some "all";
          CliArgs.skipSemverFor := Some "all ios";
          CliArgs.versionFile := None;
          CliArgs.semver := None;
          CliArgs.type := Some "patch" |}
       Demo.world
     = (Throw (Error "Value for root is 'undefined', maybe RN cli broke compatibility?"),
        Demo.world).
Proof.
  split.
  - apply (proj1 (@versioner_outcome Demo.runtime _ _ Demo.world)).
    split; reflexivity.
  - apply (proj1 (proj2 (@versioner_outcome Demo.runtime
                           {| CliConfigs.root := None;
                              CliConfigs.project := None |}
                           {| CliArgs.skipCodeFor := Some "all";
                              CliArgs.skipSemverFor := Some "all ios";
                              CliArgs.versionFile := None;
                              CliArgs.semver := None;
                              CliArgs.type := Some "patch" |}
                           Demo.world))).
    + intros [_ H]. discriminate H.
    + reflexivity.
Defined.

Lemma versioner_skipped_platform_needs_no_configuration_witness :
  let cliConfigs :=
    {| CliConfigs.root := Some "/app"; CliConfigs.project := None |} in
  let configs :=
    {| type := Some "patch"; semver := None;
       skipSemverFor := ["android"; "ios"]; skipCodeFor := ["all"];
       versionFile := None; root := "/app";
       pbxprojPath := @Versioner.pbxprojPath_of Demo.runtime cliConfigs;
       buildGradlePath :=
         @Versioner.buildGradlePath_of Demo.runtime cliConfigs |} in
  let final :=
    snd (@ProjectFilesManager.run Demo.runtime configs
           (@apiVersioner Demo.runtime configs Demo.world)) in
  ProjectFilesManager.pbx final
  = new_manager (Throw (Error (required_message "undefined" "project.ios")))
  /\ ProjectFilesManager.buildGradle final
     = new_manager
         (Throw (Error (required_message "undefined" "project.android"))).
Proof.
  intros cliConfigs configs final.
  destruct (@versioner_skipped_platform_needs_no_configuration Demo.runtime
              cliConfigs
              {| CliArgs.skipCodeFor := Some "all";
                 CliArgs.skipSemverFor := Some "android ios";
                 CliArgs.versionFile := None;
                 CliArgs.semver := None;
                 CliArgs.type := Some "patch" |}
              Demo.world Demo.world configs eq_refl eq_refl)
    as [Hios Handroid].
  split; [apply Hios | apply Handroid]; reflexivity.
Defined.

(** ** The version file *)

(** Reading never changes the world. *)
Lemma call_basePath_keeps_world : keeps (snd : FM -> World) call_basePath.
Proof. now intros [m w]. Qed.

Lemma put_content_keeps_world (text : str) :
  keeps (snd : FM -> World) (put_content text).
Proof. now intros [m w]. Qed.

Lemma read_keeps_world : keeps (snd : FM -> World) read.
Proof.
  unfold read. repeat keeps_step;
    auto using call_basePath_keeps_world, put_content_keeps_world,
      readFileSync_keeps.
Qed.

Lemma getVersionName_keeps_world :
  keeps (snd : FM -> World) BuildGradleManager.getVersionName.
Proof.
  unfold BuildGradleManager.getVersionName. repeat keeps_step.
  apply read_keeps_world.
Qed.

Lemma getVersionCode_keeps_world :
  keeps (snd : FM -> World) BuildGradleManager.getVersionCode.
Proof.
  unfold BuildGradleManager.getVersionCode. repeat keeps_step.
  apply read_keeps_world.
Qed.

Lemma getCurrentMarketingVersion_keeps_world :
  keeps (snd : FM -> World) PBXManager.getCurrentMarketingVersion.
Proof.
  unfold PBXManager.getCurrentMarketingVersion. repeat keeps_step.
  apply read_keeps_world.
Qed.

Lemma getCurrentProjectVersion_keeps_world :
  keeps (snd : FM -> World) PBXManager.getCurrentProjectVersion.
Proof.
  unfold PBXManager.getCurrentProjectVersion. repeat keeps_step.
  apply read_keeps_world.
Qed.

Section VersionFile.
Context {rt : Runtime}.
Import ProjectFilesManager.

Lemma on_pbx_keeps_world {A} (f : M FM A) :
  keeps (snd : FM -> World) f -> keeps world (on_pbx f).
Proof.
  intros Hf s. specialize (Hf (pbx s, world s)). unfold on_pbx, zoom.
  now destruct (f (pbx s, world s)) as [r [m w]].
Qed.

Lemma on_buildGradle_keeps_world {A} (f : M FM A) :
  keeps (snd : FM -> World) f -> keeps world (on_buildGradle f).
Proof.
  intros Hf s. specialize (Hf (buildGradle s, world s)).
  unfold on_buildGradle, zoom.
  now destruct (f (buildGradle s, world s)) as [r [m w]].
Qed.

(** X24: [saveVersionFile] calls the four getters in the order Android
    name, Android code, iOS name, iOS code, each in the state the one
    before left.  When all four return, the world is still the one it
    started in, and the call either writes the serialized record of the
    four values at the join of root and file name, logs one line and
    returns, or, when the file cannot be created, throws the error of the
    write.  When a getter throws, the call throws the same error in the
    state that getter left, without calling the later ones.  Whenever the
    call throws, nothing has been written or logged. *)
Theorem saveVersionFile_writes_once (configs : Configs) (name : str)
    (s : t) :
  let filePath := path_join [root configs; name] in
  let getName := on_buildGradle BuildGradleManager.getVersionName in
  let getCode := on_buildGradle BuildGradleManager.getVersionCode in
  let getIosName := on_pbx PBXManager.getCurrentMarketingVersion in
  let getIosCode := on_pbx PBXManager.getCurrentProjectVersion in
  (forall androidName androidCode iosName iosCode s1 s2 s3 s4,
      getName s = (Ok androidName, s1) ->
      getCode s1 = (Ok androidCode, s2) ->
      getIosName s2 = (Ok iosName, s3) ->
      getIosCode s3 = (Ok iosCode, s4) ->
      world s4 = world s
      /\ saveVersionFile configs name s
         = match write_error filePath with
           | Some e => (Throw e, s4)
           | None =>
               (Ok tt,
                {| pbx := pbx s4; buildGradle := buildGradle s4;
                   packageJSON := packageJSON s4;
                   world :=
                     log_line ("Version file saved at: " ++ filePath)
                       (write_disk filePath
                          (JSON_stringify_info
                             {| android :=
                                  {| versionName := Some androidName;
                                     versionCode := androidCode |};
                                ios :=
                                  {| versionName := iosName;
                                     versionCode := iosCode |} |})
                          (world s)) |})
           end)
  /\ (forall e s1,
         getName s = (Throw e, s1) ->
         saveVersionFile configs name s = (Throw e, s1))
  /\ (forall androidName e s1 s2,
         getName s = (Ok androidName, s1) ->
         getCode s1 = (Throw e, s2) ->
         saveVersionFile configs name s = (Throw e, s2))
  /\ (forall androidName androidCode e s1 s2 s3,
         getName s = (Ok androidName, s1) ->
         getCode s1 = (Ok androidCode, s2) ->
         getIosName s2 = (Throw e, s3) ->
         saveVersionFile configs name s = (Throw e, s3))
  /\ (forall androidName androidCode iosName e s1 s2 s3 s4,
         getName s = (Ok androidName, s1) ->
         getCode s1 = (Ok androidCode, s2) ->
         getIosName s2 = (Ok iosName, s3) ->
         getIosCode s3 = (Throw e, s4) ->
         saveVersionFile configs name s = (Throw e, s4))
  /\ (forall e s',
         saveVersionFile configs name s = (Throw e, s') ->
         world s' = world s).
Proof.
  intros filePath getName getCode getIosName getIosCode.
  assert (Hkeep1 : forall s0, world (snd (getName s0)) = world s0)
    by exact (on_buildGradle_keeps_world _ getVersionName_keeps_world).
  assert (Hkeep2 : forall s0, world (snd (getCode s0)) = world s0)
    by exact (on_buildGradle_keeps_world _ getVersionCode_keeps_world).
  assert (Hkeep3 : forall s0, world (snd (getIosName s0)) = world s0)
    by exact (on_pbx_keeps_world _ getCurrentMarketingVersion_keeps_world).
  assert (Hkeep4 : forall s0, world (snd (getIosCode s0)) = world s0)
    by exact (on_pbx_keeps_world _ getCurrentProjectVersion_keeps_world).
  unfold saveVersionFile.
  fold getName getCode getIosName getIosCode filePath.
  repeat split.
  - specialize (Hkeep1 s). specialize (Hkeep2 s1). specialize (Hkeep3 s2).
    specialize (Hkeep4 s3). rewrite H in Hkeep1. rewrite H0 in Hkeep2.
    rewrite H1 in Hkeep3. rewrite H2 in Hkeep4. cbn [snd] in *. congruence.
  - specialize (Hkeep1 s). specialize (Hkeep2 s1). specialize (Hkeep3 s2).
    specialize (Hkeep4 s3). rewrite H in Hkeep1. rewrite H0 in Hkeep2.
    rewrite H1 in Hkeep3. rewrite H2 in Hkeep4. cbn [snd] in *.
    unfold bind. rewrite H, H0, H1, H2.
    destruct (write_error filePath) as [e |]; [reflexivity |].
    unfold modify, console_log. cbn [pbx buildGradle packageJSON world].
    now rewrite Hkeep4, Hkeep3, Hkeep2, Hkeep1.
  - intros e s1 H. unfold bind. now rewrite H.
  - intros androidName e s1 s2 H H0. unfold bind. now rewrite H, H0.
  - intros androidName androidCode e s1 s2 s3 H H0 H1. unfold bind.
    now rewrite H, H0, H1.
  - intros androidName androidCode iosName e s1 s2 s3 s4 H H0 H1 H2.
    unfold bind. now rewrite H, H0, H1, H2.
  - intros e s'. unfold bind at 1.
    pose proof (Hkeep1 s) as H1.
    destruct (getName s) as [[androidName | e1] s1]; cbn [snd] in H1;
      [| now intros [= _ <-]].
    unfold bind at 1. pose proof (Hkeep2 s1) as H2.
    destruct (getCode s1) as [[androidCode | e2] s2]; cbn [snd] in H2;
      [| intros [= _ <-]; congruence].
    unfold bind at 1. pose proof (Hkeep3 s2) as H3.
    destruct (getIosName s2) as [[iosName | e3] s3]; cbn [snd] in H3;
      [| intros [= _ <-]; congruence].
    unfold bind at 1. pose proof (Hkeep4 s3) as H4.
    destruct (getIosCode s3) as [[iosCode | e4] s4]; cbn [snd] in H4;
      [| intros [= _ <-]; congruence].
    unfold bind.
    destruct (write_error filePath) as [e5 |]; [| discriminate].
    unfold throw. intros [= _ <-]. congruence.
Qed.

End VersionFile.

Lemma saveVersionFile_writes_once_witness :
  let s := @ProjectFilesManager.new Demo.runtime Demo.configs Demo.world in
  let info :=
    {| android := {| versionName := Some "1.10.6"; versionCode := Fin 23 |};
       ios := {| versionName := Some "1.10.6"; versionCode := Fin 24 |} |} in
  ProjectFilesManager.world
    (snd (@ProjectFilesManager.saveVersionFile Demo.runtime Demo.configs
            "version.json" s))
  = {| disk := <["/app/version.json" := Demo.stringify_info info]> Demo.files;
       written := [("/app/version.json", Demo.stringify_info info)];
       console := ["Version file saved at: /app/version.json"] |}.
Proof.
  intros s info.
  set (s1 := {| ProjectFilesManager.pbx := ProjectFilesManager.pbx s;
                ProjectFilesManager.buildGradle :=
                  Demo.loaded Demo.gradle_path Demo.gradle_text;
                ProjectFilesManager.packageJSON :=
                  ProjectFilesManager.packageJSON s;
                ProjectFilesManager.world := Demo.world |}).
  set (s3 := {| ProjectFilesManager.pbx :=
                  Demo.loaded Demo.pbxproj_path Demo.pbxproj_text;
                ProjectFilesManager.buildGradle :=
                  Demo.loaded Demo.gradle_path Demo.gradle_text;
                ProjectFilesManager.packageJSON :=
                  ProjectFilesManager.packageJSON s;
                ProjectFilesManager.world := Demo.world |}).
  destruct (proj1 (@saveVersionFile_writes_once Demo.runtime Demo.configs
                     "version.json" s)
              "1.10.6" (Fin 23) (Some "1.10.6") (Fin 24) s1 s1 s3 s3)
    as [_ Hsave].
  - vm_compute. reflexivity.
  - vm_compute. reflexivity.
  - vm_compute. reflexivity.
  - vm_compute. reflexivity.
  - rewrite Hsave. reflexivity.
Defined.

(** ** The two edits of the build file *)

Lemma index_from_none_all (lead : str) (n : nat) (s : str) :
  index_from lead n s = None ->
  forall j, starts_with lead (drop j s) = false.
Proof.
  revert n. induction s as [| b s IH]; intros n H j;
    cbn [index_from] in H.
  - rewrite drop_nil. now destruct (starts_with lead []).
  - destruct (starts_with lead (b :: s)) eqn:Hsw; [discriminate |].
    destruct j as [| j]; [exact Hsw |]. cbn [drop]. now apply (IH (S n)).
Qed.

Lemma index_from_skip_all (lead : str) (p r : str) :
  forall n,
    (forall j, (j < length p)%nat ->
               starts_with lead (drop j (p ++ r)) = false) ->
    index_from lead n (p ++ r) = index_from lead (n + length p) r.
Proof.
  induction p as [| b p IH]; intros n Hall.
  - cbn [app length]. now rewrite Nat.add_0_r.
  - cbn [app index_from].
    pose proof (Hall 0%nat ltac:(cbn [length]; lia)) as H0.
    cbn [drop app] in H0. rewrite H0, IH.
    + f_equal. cbn [length]. lia.
    + intros j Hj. apply (Hall (S j)). cbn [length]. lia.
Qed.

(** A text without digits cannot start where a digit is. *)
Lemma starts_with_blocked (lead a z : str) (d : ascii) :
  forallb (fun c => negb (is_digit c)) lead = true ->
  is_digit d = true ->
  starts_with lead a = false ->
  starts_with lead (a ++ d :: z) = false.
Proof.
  revert a. induction lead as [| c lead IH]; intros a Hlead Hd Hsw;
    [discriminate |].
  cbn [forallb] in Hlead. apply andb_prop in Hlead as [Hc Hlead].
  apply negb_true_iff in Hc.
  destruct a as [| b a]; cbn [app starts_with] in *.
  - destruct (Ascii.eqb_spec c d) as [-> | _]; [congruence | reflexivity].
  - destruct (Ascii.eqb c b); [| reflexivity]. now apply IH.
Qed.

(** The first occurrence of a text without digits, on both sides of a
    run of digits. *)
Lemma index_past_digits (lead x ds y : str) (k : nat) :
  forallb (fun c => negb (is_digit c)) lead = true ->
  ds <> [] ->
  forallb is_digit ds = true ->
  indexOf lead x = None ->
  indexOf lead y = Some k ->
  indexOf lead (x ++ ds ++ y) = Some (length x + length ds + k)%nat.
Proof.
  intros Hlead Hne Hds Hx Hy. unfold indexOf in *.
  rewrite app_assoc, index_from_skip_all.
  - rewrite index_from_offset, Hy. cbn [option_map Nat.add].
    now rewrite length_app.
  - intros j Hj. rewrite length_app in Hj. rewrite <- app_assoc.
    destruct (Nat.lt_ge_cases j (length x)) as [Hin | Hout].
    + rewrite drop_app_le by lia.
      destruct ds as [| d ds]; [congruence |].
      cbn [forallb] in Hds. apply andb_prop in Hds as [Hd _].
      cbn [app]. apply starts_with_blocked; try assumption.
      now apply (index_from_none_all lead 0).
    + rewrite drop_app_ge by lia.
      assert (Hlen : (j - length x < length ds)%nat) by lia.
      revert Hlen. generalize (j - length x)%nat. clear j Hj Hout.
      intros i Hi.
      destruct (drop i ds) as [| d rest] eqn:Hdrop.
      { apply (f_equal length) in Hdrop. rewrite length_drop in Hdrop.
        cbn in Hdrop. lia. }
      assert (Hd : is_digit d = true).
      { rewrite <- (take_drop i ds), forallb_app, Hdrop in Hds.
        apply andb_prop in Hds as [_ Hds]. cbn [forallb] in Hds.
        now apply andb_prop in Hds as [Hd _]. }
      rewrite drop_app_le by lia. rewrite Hdrop.
      apply (starts_with_blocked lead [] (rest ++ y) d Hlead Hd).
      pose proof (index_from_none_all lead 0 x Hx (length x)) as Hend.
      now rewrite drop_all in Hend.
Qed.

Lemma leading_digits_before (mid rest : str) :
  leading_digits mid = [] ->
  leading_digits (mid ++ "versionName " ++ rest) = [].
Proof.
  intros H. destruct mid as [| c mid]; [reflexivity |].
  cbn [app leading_digits] in *. now destruct (digit_value c).
Qed.

(** X25: the two edits of the build file do not disturb each other:
    when the counter comes before the version name, [bumpCode] followed by
    [setVersionName next] leaves a buffer in which only the digits of the
    counter and the text between the quotes have changed, and the two
    getters then read the new counter and [next] back. *)
Theorem bumpCode_then_setVersionName (m : BaseFileManager) (w : World)
    (s1 : FM) (pre ds mid v nextName post : str) (q : ascii) (n : Z) :
  read (m, w)
  = (Ok (pre ++ "versionCode " ++ ds ++ mid
         ++ "versionName " ++ q :: v ++ q :: post), s1) ->
  indexOf "versionCode " (pre ++ "versionCode ") = Some (length pre) ->
  indexOf "versionName " (pre ++ "versionCode ") = None ->
  indexOf "versionName " (mid ++ "versionName ") = Some (length mid) ->
  ds <> [] ->
  forallb is_digit ds = true ->
  leading_digits mid = [] ->
  parseInt ds = Fin n ->
  safe_integer n ->
  q = squote \/ q = dquote ->
  v <> [] ->
  forallb (fun ch => negb (is_quote ch) && negb (is_line_terminator ch)) v
  = true ->
  forallb (fun ch => negb (is_quote ch) && negb (is_line_terminator ch))
    nextName = true ->
  ~ In q (line_rest post) ->
  ~ In "$"%char nextName ->
  let s3 :=
    (set_content
       (pre ++ "versionCode " ++ decimal (n + 1) ++ mid
        ++ "versionName " ++ q :: nextName ++ q :: post) (fst s1),
     snd s1) in
  (BuildGradleManager.bumpCode ;; BuildGradleManager.setVersionName nextName)
    (m, w)
  = (Ok {| current := q :: v ++ [q]; next := nextName |}, s3)
  /\ BuildGradleManager.getVersionCode s3 = (Ok (Fin (n + 1)), s3)
  /\ BuildGradleManager.getVersionName s3 = (Ok nextName, s3).
Proof.
  intros Hread Hcode Hbefore Hmid Hne Hds Hlead Hn Hsafe Hq Hv Hvok Hnext
    Hpost Hplain s3.
  pose proof (parseInt_digits_nonneg ds n Hne Hds Hn) as Hn0.
  assert (Hrange : Z.abs (n + 1) <= 2 ^ 53)
    by (unfold safe_integer, MAX_SAFE_INTEGER in Hsafe; lia).
  destruct (decimal_all_digits (n + 1) ltac:(lia))
    as (d & ds' & Hdec & Hd & Hds').
  set (pre' := pre ++ "versionCode " ++ decimal (n + 1) ++ mid).
  assert (Hassoc : forall rest,
             pre ++ "versionCode " ++ decimal (n + 1) ++ mid
             ++ "versionName " ++ rest
             = pre' ++ "versionName " ++ rest)
    by (intros rest; unfold pre'; now rewrite <- !app_assoc).
  assert (Hname : forall rest,
             indexOf "versionName " (pre' ++ "versionName " ++ rest)
             = Some (length pre')).
  { intros rest. unfold pre'.
    pose proof (index_past_digits "versionName " (pre ++ "versionCode ")
                  (decimal (n + 1)) (mid ++ "versionName " ++ rest)
                  (length mid) eq_refl) as H.
    rewrite <- !app_assoc in *. rewrite H.
    - f_equal. rewrite !length_app. lia.
    - rewrite Hdec. discriminate.
    - rewrite Hdec. cbn [forallb]. now rewrite Hd, Hds'.
    - exact Hbefore.
    - pose proof (field_position "versionName " mid rest 0 Hmid) as Hpos.
      exact Hpos. }
  assert (Hcounter : forall rest,
             indexOf "versionCode " (pre ++ "versionCode " ++ rest)
             = Some (length pre)).
  { intros rest. exact (field_position "versionCode " pre rest 0 Hcode). }
  split; [| split].
  - unfold bind.
    rewrite (bumpCode_digits m w s1 pre ds
               (mid ++ "versionName " ++ q :: v ++ q :: post) n);
      try assumption; try apply Hcounter.
    + rewrite Hassoc.
      rewrite (setVersionName_quoted _ _
                 (set_content
                    (pre' ++ "versionName " ++ q :: v ++ q :: post) (fst s1),
                  snd s1)
                 pre' post v nextName q);
        try assumption; try apply Hname.
      * unfold s3. rewrite Hassoc. reflexivity.
      * now apply read_loaded.
    + now apply leading_digits_before.
  - unfold s3.
    apply (getVersionCode_decimal _ _ pre
             (mid ++ "versionName " ++ q :: nextName ++ q :: post) (n + 1));
      try reflexivity; try apply Hcounter; try assumption; try lia.
    now apply leading_digits_before.
  - unfold s3. rewrite Hassoc.
    apply (getVersionName_quoted _ _ _ pre' post nextName q);
      try assumption; try apply Hname.
    now apply read_loaded.
Qed.

Lemma bumpCode_then_setVersionName_witness :
  let m := new_manager (Ok Demo.gradle_path) in
  let s3 :=
    ({| basePath := Ok Demo.gradle_path;
        content :=
          Some ("    versionCode 24" ++ Demo.newline ++ "    versionName "
                ++ dquote :: "1.10.7" ++ dquote :: Demo.newline);
        resolved := 1 |},
     Demo.world) in
  (BuildGradleManager.bumpCode ;; BuildGradleManager.setVersionName "1.10.7")
    (m, Demo.world)
  = (Ok {| current := dquote :: "1.10.6" ++ [dquote]; next := "1.10.7" |}, s3)
  /\ BuildGradleManager.getVersionCode s3 = (Ok (Fin 24), s3)
  /\ BuildGradleManager.getVersionName s3 = (Ok "1.10.7", s3).
Proof.
  intros m.
  apply (bumpCode_then_setVersionName m Demo.world
           (Demo.loaded Demo.gradle_path Demo.gradle_text, Demo.world)
           "    " "23" (Demo.newline ++ "    ") "1.10.6" "1.10.7"
           Demo.newline dquote 23).
  - vm_compute. reflexivity.
  - vm_compute. reflexivity.
  - vm_compute. reflexivity.
  - vm_compute. reflexivity.
  - discriminate.
  - reflexivity.
  - reflexivity.
  - vm_compute. reflexivity.
  - unfold safe_integer, MAX_SAFE_INTEGER. simpl. lia.
  - now right.
  - discriminate.
  - vm_compute. reflexivity.
  - vm_compute. reflexivity.
  - cbn. tauto.
  - cbn. intuition discriminate.
Defined.

(** ** The manifest is always written *)

Section ManifestWritten.
Context {rt : Runtime}.
Import ProjectFilesManager.

Lemma saveVersionFile_appends (configs : Configs) (name : str) (s s' : t) :
  saveVersionFile configs name s = (Ok tt, s') ->
  packageJSON s' = packageJSON s
  /\ exists entry, written (world s') = written (world s) ++ [entry].
Proof.
  unfold saveVersionFile. unfold bind at 1.
  pose proof (on_buildGradle_keeps_world _ getVersionName_keeps_world s) as W1.
  pose proof (on_buildGradle_keeps_packageJSON
                BuildGradleManager.getVersionName s) as J1.
  destruct (on_buildGradle BuildGradleManager.getVersionName s)
    as [[androidName | e] s1]; cbn [snd] in *; [| discriminate].
  unfold bind at 1.
  pose proof (on_buildGradle_keeps_world _ getVersionCode_keeps_world s1)
    as W2.
  pose proof (on_buildGradle_keeps_packageJSON
                BuildGradleManager.getVersionCode s1) as J2.
  destruct (on_buildGradle BuildGradleManager.getVersionCode s1)
    as [[androidCode | e] s2]; cbn [snd] in *; [| discriminate].
  unfold bind at 1.
  pose proof (on_pbx_keeps_world _ getCurrentMarketingVersion_keeps_world s2)
    as W3.
  pose proof (on_pbx_keeps_packageJSON PBXManager.getCurrentMarketingVersion
                s2) as J3.
  destruct (on_pbx PBXManager.getCurrentMarketingVersion s2)
    as [[iosName | e] s3]; cbn [snd] in *; [| discriminate].
  unfold bind at 1.
  pose proof (on_pbx_keeps_world _ getCurrentProjectVersion_keeps_world s3)
    as W4.
  pose proof (on_pbx_keeps_packageJSON PBXManager.getCurrentProjectVersion s3)
    as J4.
  destruct (on_pbx PBXManager.getCurrentProjectVersion s3)
    as [[iosCode | e] s4]; cbn [snd] in *; [| discriminate].
  unfold bind. destruct (write_error _) as [e |]; [discriminate |].
  unfold modify, console_log. intros [= <-].
  cbn [packageJSON world written log_line write_disk].
  split; [congruence |]. eexists. now rewrite W4, W3, W2, W1.
Qed.

(** X26: whenever [run] returns, the manifest has been written at the
    unresolved path of its manager: it is the manifest that was read with
    its version replaced by the target version, or, when version sync is
    skipped for all, the very manifest that was read, serialized
    again. *)
Theorem run_always_writes_the_manifest (configs : Configs) (s s' : t)
    (p : str) :
  run configs s = (Ok tt, s') ->
  PackageJSONManager.basePath (packageJSON s) = Ok p ->
  exists (old : manifest) (target : str),
    (exists s1, on_packageJSON PackageJSONManager.read s = (Ok old, s1))
    /\ match semver configs with
       | Some v => target = v
       | None =>
           incrementSemVer (version old) (type_or_minor configs) = Ok target
       end
    /\ In (p, JSON_stringify_manifest
                (if includes (skipSemverFor configs) "all" then old
                 else {| version := target; members := members old |}))
         (written (world s')).
Proof.
  intros Hrun Hpath. revert Hrun. unfold run. unfold bind at 1.
  destruct (dryRun configs s) as [[[] | e] s1] eqn:Hdry; [| discriminate].
  destruct (dryRun_manifest configs s s1 Hdry)
    as (old & target & s0 & Hget & Hold & Htarget & Hc).
  set (parsed := if includes (skipSemverFor configs) "all" then old
                 else {| version := target; members := members old |}) in *.
  assert (Hp1 : PackageJSONManager.basePath (packageJSON s1) = Ok p).
  { pose proof (dryRun_keeps_paths configs s) as H. rewrite Hdry in H.
    unfold paths in H. cbn [snd] in H. congruence. }
  assert (Hread : exists s1',
             on_packageJSON PackageJSONManager.read s = (Ok old, s1')).
  { revert Hget Hold. unfold on_packageJSON, zoom.
    unfold PackageJSONManager.getVersion, bind.
    destruct (PackageJSONManager.read (packageJSON s, world s))
      as [[old' | e] [m1 w1]] eqn:Hr; [| discriminate].
    destruct (PackageJSON_read_ok _ _ _ _ _ Hr) as (Hc1 & _).
    intros [= _ <-]. cbn [packageJSON]. rewrite Hc1. intros [= ->]. eauto. }
  unfold bind at 1.
  pose proof (on_pbx_keeps_packageJSON write s1) as J2.
  destruct (on_pbx write s1) as [[[] | e] s2]; cbn [snd] in J2;
    [| discriminate].
  unfold bind at 1.
  pose proof (on_buildGradle_keeps_packageJSON write s2) as J3.
  destruct (on_buildGradle write s2) as [[[] | e] s3]; cbn [snd] in J3;
    [| discriminate].
  unfold bind at 1.
  destruct (on_packageJSON PackageJSONManager.write s3) as [r4 s4] eqn:Hw.
  assert (Hs4 : r4 = Ok tt
                /\ In (p, JSON_stringify_manifest parsed)
                     (written (world s4))).
  { revert Hw. unfold on_packageJSON, zoom.
    unfold PackageJSONManager.write, bind, gets,
      PackageJSONManager.call_basePath, modify.
    cbn [fst snd]. rewrite J3, J2, Hc, Hp1. intros [= <- <-].
    cbn [world written write_disk].
    split; [reflexivity |]. apply in_or_app. right. now left. }
  destruct Hs4 as (-> & Hin4).
  intros Htail.
  exists old, target. split; [exact Hread |]. split; [exact Htarget |].
  fold parsed.
  destruct (versionFile configs) as [[| ch name] |].
  - now injection Htail as <-.
  - apply saveVersionFile_appends in Htail as (_ & entry & Hw').
    rewrite Hw'. apply in_or_app. now left.
  - now injection Htail as <-.
Qed.

End ManifestWritten.

Lemma run_always_writes_the_manifest_witness :
  let configs :=
    {| type := Some "patch"; semver := None;
       skipSemverFor := ["all"]; skipCodeFor := ["android"; "ios"];
       versionFile := None; root := "/app";
       pbxprojPath := Ok Demo.pbxproj_path;
       buildGradlePath := Ok Demo.gradle_path |} in
  let s := @ProjectFilesManager.new Demo.runtime configs Demo.world in
  let s' := snd (@ProjectFilesManager.run Demo.runtime configs s) in
  exists (old : manifest) (target : str),
    (exists s1,
        ProjectFilesManager.on_packageJSON
          (@PackageJSONManager.read Demo.runtime) s = (Ok old, s1))
    /\ incrementSemVer (version old) (Some "patch") = Ok target
    /\ In ("/app/package.json", Demo.stringify_manifest old)
         (written (ProjectFilesManager.world s')).
Proof.
  intros configs s s'.
  apply (@run_always_writes_the_manifest Demo.runtime configs s s'
           "/app/package.json").
  - apply injective_projections; [vm_compute; reflexivity | reflexivity].
  - reflexivity.
Defined.
(** ** Where [run] writes, and in which order *)

Section Writes.
Context {rt : Runtime}.
Import ProjectFilesManager.

Lemma within_read_only {A} (places : t -> list str) (f : M t A) :
  read_only world f -> writes_within places f.
Proof.
  intros Hf s. destruct (Hf s) as [_ Hw]. exists [].
  rewrite Hw, app_nil_r. split; [reflexivity | apply sublist_nil_l].
Qed.

Lemma within_bind {A B} (first rest : t -> list str) (f : M t A)
    (g : A -> M t B) :
  writes_within first f ->
  (forall s, rest (snd (f s)) = rest s) ->
  (forall a, writes_within rest (g a)) ->
  writes_within (fun s => first s ++ rest s) (bind f g).
Proof.
  intros Hf Hrest Hg s. unfold bind. destruct (Hf s) as (added & Hw & Hin).
  specialize (Hrest s).
  destruct (f s) as [[a | e] s1]; cbn [snd] in *.
  - destruct (Hg a s1) as (added' & Hw' & Hin').
    exists (added ++ added'). rewrite Hw', Hw, <- app_assoc.
    split; [reflexivity |]. rewrite map_app, <- Hrest.
    now apply sublist_app.
  - exists added. split; [exact Hw |]. now apply sublist_inserts_r.
Qed.

Lemma write_within (m : BaseFileManager) (w : World) :
  exists added,
    written (snd (snd (write (m, w)))) = written w ++ added
    /\ sublist (map fst added) (written_path (basePath m)).
Proof.
  unfold write, bind, gets, call_basePath, writeFile, modify, ret.
  cbn [fst snd].
  destruct (content m) as [[| ch text] |];
    try solve [exists []; rewrite app_nil_r; cbn;
               split; [reflexivity | apply sublist_nil_l]].
  destruct (basePath m) as [p | e]; cbn [fst snd written_path].
  - exists ((p, ch :: text) :: []). cbn. auto.
  - exists []. rewrite app_nil_r. cbn. auto.
Qed.

Lemma within_pbx_write :
  writes_within (fun s => written_path (basePath (pbx s))) (on_pbx write).
Proof.
  intros s. unfold on_pbx, zoom.
  pose proof (write_within (pbx s) (world s)) as H.
  now destruct (write (pbx s, world s)) as [r [m w]].
Qed.

Lemma within_buildGradle_write :
  writes_within (fun s => written_path (basePath (buildGradle s)))
    (on_buildGradle write).
Proof.
  intros s. unfold on_buildGradle, zoom.
  pose proof (write_within (buildGradle s) (world s)) as H.
  now destruct (write (buildGradle s, world s)) as [r [m w]].
Qed.

Lemma within_packageJSON_write :
  writes_within
    (fun s => written_path (PackageJSONManager.basePath (packageJSON s)))
    (on_packageJSON PackageJSONManager.write).
Proof.
  intros s. unfold on_packageJSON, zoom.
  unfold PackageJSONManager.write, bind, gets,
    PackageJSONManager.call_basePath, modify, ret.
  cbn [fst snd].
  destruct (PackageJSONManager.content (packageJSON s)) as [parsed |];
    [| exists []; rewrite app_nil_r; cbn;
       split; [reflexivity | apply sublist_nil_l]].
  destruct (PackageJSONManager.basePath (packageJSON s)) as [p | e];
    cbn [fst snd world written_path].
  - eexists (_ :: []). cbn. auto.
  - exists []. rewrite app_nil_r. cbn. auto.
Qed.

Lemma within_saveVersionFile (configs : Configs) (name : str) :
  writes_within (fun _ => [path_join [root configs; name]])
    (saveVersionFile configs name).
Proof.
  unfold saveVersionFile.
  do 4 (apply (within_bind (fun _ => []));
        [apply within_read_only;
         auto using ro_on_buildGradle, ro_on_pbx, ro_getVersionName,
           ro_getVersionCode, ro_getCurrentMarketingVersion,
           ro_getCurrentProjectVersion
        | reflexivity
        | intros ?]).
  apply (within_bind (fun _ => [path_join [root configs; name]])
           (fun _ => [])).
  - intros s. destruct (write_error _) as [e |]; cbn.
    + exists []. rewrite app_nil_r. split; [reflexivity | apply sublist_nil_l].
    + eexists (_ :: []). cbn. auto.
  - reflexivity.
  - intros _. apply within_read_only, ro_console_log.
Qed.

Lemma targets_length (configs : Configs) (s : t) :
  (length (targets configs s)
   <= if truthy (versionFile configs) then 4 else 3)%nat.
Proof.
  unfold targets, version_file_path. rewrite !length_app.
  destruct (basePath (pbx s)), (basePath (buildGradle s)),
    (PackageJSONManager.basePath (packageJSON s)),
    (versionFile configs) as [[| ch name] |]; cbn; lia.
Qed.

(** X27: [run] only appends to the list of writes, and the paths it
    writes at are, in this order and each at most once, some of: the path
    of the project file, of the build file, of the manifest, and of the
    version file, where a manager whose path function throws and a version
    file that is not asked for have none.  So there are at most three
    writes without a version file and four with one, whether [run]
    returns or throws. *)
Theorem run_writes_in_order (configs : Configs) (s : t) :
  exists added,
    written (world (snd (run configs s))) = written (world s) ++ added
    /\ sublist (map fst added) (targets configs s)
    /\ (length added
        <= if truthy (versionFile configs) then 4 else 3)%nat.
Proof.
  assert (Hkept : forall {A} (f : M t A) (F : _ -> list str),
             keeps paths f ->
             forall s0, F (paths (snd (f s0))) = F (paths s0)).
  { intros A f F Hf s0. now rewrite (Hf s0). }
  assert (Hrun : writes_within (targets configs) (run configs)).
  { unfold run.
    apply (within_bind (fun _ => []) (targets configs)).
    { apply within_read_only, ro_dryRun. }
    { exact (Hkept _ _
               (fun p => written_path (fst (fst p))
                         ++ written_path (snd (fst p))
                         ++ written_path (snd p)
                         ++ version_file_path configs)
               (dryRun_keeps_paths configs)). }
    intros _.
    apply (within_bind (fun s0 => written_path (basePath (pbx s0)))
             (fun s0 => written_path (basePath (buildGradle s0))
                        ++ written_path
                             (PackageJSONManager.basePath (packageJSON s0))
                        ++ version_file_path configs)).
    { apply within_pbx_write. }
    { exact (Hkept _ _
               (fun p => written_path (snd (fst p))
                         ++ written_path (snd p)
                         ++ version_file_path configs)
               (on_pbx_keeps_paths _ write_keeps_path)). }
    intros _.
    apply (within_bind (fun s0 => written_path (basePath (buildGradle s0)))
             (fun s0 => written_path
                          (PackageJSONManager.basePath (packageJSON s0))
                        ++ version_file_path configs)).
    { apply within_buildGradle_write. }
    { exact (Hkept _ _
               (fun p => written_path (snd p) ++ version_file_path configs)
               (on_buildGradle_keeps_paths _ write_keeps_path)). }
    intros _.
    apply (within_bind
             (fun s0 => written_path
                          (PackageJSONManager.basePath (packageJSON s0)))
             (fun _ => version_file_path configs)).
    { apply within_packageJSON_write. }
    { reflexivity. }
    intros _. unfold version_file_path.
    destruct (versionFile configs) as [[| ch name] |].
    - apply within_read_only, ro_ret.
    - apply within_saveVersionFile.
    - apply within_read_only, ro_ret. }
  destruct (Hrun s) as (added & Hw & Hin).
  exists added. split; [exact Hw |]. split; [exact Hin |].
  apply sublist_length in Hin. rewrite length_map in Hin.
  pose proof (targets_length configs s). lia.
Qed.

End Writes.

(** ** A whole run on the Android side *)

Section AndroidRun.
Context {rt : Runtime}.
Import ProjectFilesManager.

Lemma read_fresh (path text : str) (w : World) :
  disk w !! path = Some text ->
  read (new_manager (Ok path), w)
  = (Ok text,
     ({| basePath := Ok path; content := Some text; resolved := 1 |}, w)).
Proof.
  intros H. unfold read, bind, gets, call_basePath, readFileSync, put_content,
    modify, ret.
  cbn [fst snd new_manager content basePath count_resolve]. now rewrite H.
Qed.

Lemma getVersion_fresh (path resolved_path raw : str) (parsed : manifest)
    (w : World) :
  require_resolve path = Ok resolved_path ->
  disk w !! resolved_path = Some raw ->
  JSON_parse raw = Ok parsed ->
  PackageJSONManager.getVersion (PackageJSONManager.new (Ok path), w)
  = (Ok (version parsed),
     ({| PackageJSONManager.basePath := Ok path;
         PackageJSONManager.content := Some parsed;
         PackageJSONManager.resolved := 1 |}, w)).
Proof.
  intros Hresolve Hdisk Hparse.
  unfold PackageJSONManager.getVersion, PackageJSONManager.read, bind, gets,
    PackageJSONManager.call_basePath, lift, readFileSync, modify, ret.
  cbn [fst snd PackageJSONManager.new PackageJSONManager.content
       PackageJSONManager.basePath PackageJSONManager.count_resolve].
  rewrite Hresolve. cbn [snd]. now rewrite Hdisk, Hparse.
Qed.

Lemma setVersion_loaded (next : str) (m : PackageJSONManager.t) (w : World)
    (parsed : manifest) :
  PackageJSONManager.content m = Some parsed ->
  PackageJSONManager.setVersion next (m, w)
  = (Ok {| current := version parsed; next := next |},
     (PackageJSONManager.set_content
        {| version := next; members := members parsed |} m, w)).
Proof.
  intros H. unfold PackageJSONManager.setVersion, PackageJSONManager.getVersion.
  unfold bind at 1. unfold bind at 1. unfold bind at 1.
  rewrite (PackageJSON_read_loaded m w parsed H).
  unfold bind, modify, ret. now rewrite H.
Qed.

(** X28: a whole [run] with iOS skipped in both lists and no version
    file, on a project whose manifest parses and whose build file holds a
    counter of digits before a quoted version name: it returns, the
    project-file manager is never loaded, the build file gets the counter
    plus one and the target version between the same quotes, the manifest
    gets the target version, exactly these two files are written, the
    build file first, and exactly three lines are logged. *)
Theorem run_bumps_the_android_project (configs : Configs) (w : World)
    (old : manifest) (raw resolved_path gradle_path : str)
    (pre ds mid v post target : str) (q : ascii) (n : Z) :
  let manifest_path := path_join [root configs; "package.json"] in
  let before :=
    pre ++ "versionCode " ++ ds ++ mid
    ++ "versionName " ++ q :: v ++ q :: post in
  let after :=
    pre ++ "versionCode " ++ decimal (n + 1) ++ mid
    ++ "versionName " ++ q :: target ++ q :: post in
  let bumped := {| version := target; members := members old |} in
  includes (skipCodeFor configs) "all" = false ->
  includes (skipCodeFor configs) "ios" = true ->
  includes (skipCodeFor configs) "android" = false ->
  includes (skipSemverFor configs) "all" = false ->
  includes (skipSemverFor configs) "ios" = true ->
  includes (skipSemverFor configs) "android" = false ->
  falsy (type configs) = false ->
  truthy (versionFile configs) = false ->
  require_resolve manifest_path = Ok resolved_path ->
  disk w !! resolved_path = Some raw ->
  JSON_parse raw = Ok old ->
  match semver configs with
  | Some override => target = override
  | None => incrementSemVer (version old) (type_or_minor configs) = Ok target
  end ->
  buildGradlePath configs = Ok gradle_path ->
  disk w !! gradle_path = Some before ->
  indexOf "versionCode " (pre ++ "versionCode ") = Some (length pre) ->
  indexOf "versionName " (pre ++ "versionCode ") = None ->
  indexOf "versionName " (mid ++ "versionName ") = Some (length mid) ->
  ds <> [] ->
  forallb is_digit ds = true ->
  leading_digits mid = [] ->
  parseInt ds = Fin n ->
  safe_integer n ->
  q = squote \/ q = dquote ->
  v <> [] ->
  forallb (fun ch => negb (is_quote ch) && negb (is_line_terminator ch)) v
  = true ->
  ~ In q (line_rest post) ->
  ~ In "$"%char target ->
  run configs (new configs w)
  = (Ok tt,
     {| pbx := new_manager (pbxprojPath configs);
        buildGradle :=
          {| basePath := Ok gradle_path; content := Some after;
             resolved := 2 |};
        packageJSON :=
          {| PackageJSONManager.basePath := Ok manifest_path;
             PackageJSONManager.content := Some bumped;
             PackageJSONManager.resolved := 2 |};
        world :=
          {| disk :=
               <[manifest_path := JSON_stringify_manifest bumped]>
                 (<[gradle_path := after]> (disk w));
             written :=
               written w
               ++ [(gradle_path, after);
                   (manifest_path, JSON_stringify_manifest bumped)];
             console :=
               console w
               ++ ["Android build.gradle code: " ++ decimal n ++ " -> "
                   ++ decimal (n + 1);
                   "Android gradle.build version: " ++ (q :: v ++ [q])
                   ++ " -> " ++ target;
                   "package.json: " ++ version old ++ " -> " ++ target] |}
     |}).
Proof.
  intros manifest_path before after bumped
    Hcode_all Hcode_ios Hcode_android Hsem_all Hsem_ios Hsem_android
    Hkind Hfile Hresolve Hraw Hparse Htarget Hgradle Hbuf
    Hcode Hbefore Hmid Hne Hds Hlead Hn Hsafe Hq Hv Hvok Hpost Hplain.
  pose proof (parseInt_digits_nonneg ds n Hne Hds Hn) as Hn0.
  assert (Hprint : num_to_string (Fin n) = decimal n
                   /\ num_to_string (Fin (n + 1)) = decimal (n + 1)).
  { unfold safe_integer, MAX_SAFE_INTEGER in Hsafe.
    split; apply num_to_string_safe; lia. }
  destruct Hprint as [Hprint Hprint1].
  (* the counter *)
  pose proof (read_fresh gradle_path before w Hbuf) as Hread.
  assert (Hcounter : forall rest,
             indexOf "versionCode " (pre ++ "versionCode " ++ rest)
             = Some (length pre))
    by (intros rest; exact (field_position "versionCode " pre rest 0 Hcode)).
  pose proof (bumpCode_digits _ _ _ pre ds
                (mid ++ "versionName " ++ q :: v ++ q :: post) n
                Hread (Hcounter _) Hne Hds
                (leading_digits_before mid _ Hlead) Hn Hsafe) as Hbump.
  cbn [fst snd] in Hbump.
  (* the version name *)
  destruct (decimal_all_digits (n + 1) ltac:(lia))
    as (d & ds' & Hdec & Hd & Hds').
  set (pre' := pre ++ "versionCode " ++ decimal (n + 1) ++ mid).
  assert (Hassoc : forall rest,
             pre ++ "versionCode " ++ decimal (n + 1) ++ mid
             ++ "versionName " ++ rest
             = pre' ++ "versionName " ++ rest)
    by (intros rest; unfold pre'; now rewrite <- !app_assoc).
  assert (Hname : indexOf "versionName "
                    (pre' ++ "versionName " ++ q :: v ++ q :: post)
                  = Some (length pre')).
  { unfold pre'.
    pose proof (index_past_digits "versionName " (pre ++ "versionCode ")
                  (decimal (n + 1))
                  (mid ++ "versionName " ++ q :: v ++ q :: post)
                  (length mid) eq_refl) as H.
    rewrite <- !app_assoc in *. rewrite H.
    - f_equal. rewrite !length_app. lia.
    - rewrite Hdec. discriminate.
    - rewrite Hdec. cbn [forallb]. now rewrite Hd, Hds'.
    - exact Hbefore.
    - exact (field_position "versionName " mid _ 0 Hmid). }
  set (m1 := {| basePath := Ok gradle_path; content := Some before;
                resolved := 1 |}) in *.
  set (m2 := set_content
               (pre ++ "versionCode " ++ decimal (n + 1) ++ mid
                ++ "versionName " ++ q :: v ++ q :: post) m1) in *.
  assert (Hset : forall w',
             BuildGradleManager.setVersionName target (m2, w')
             = (Ok {| current := q :: v ++ [q]; next := target |},
                (set_content after m2, w'))).
  { intros w'. unfold after. rewrite Hassoc.
    apply (setVersionName_quoted m2 w' (m2, w') pre' post v target q);
      try assumption.
    apply read_loaded. unfold m2. cbn [set_content content].
    now rewrite Hassoc. }
  (* the manifest *)
  pose proof (getVersion_fresh manifest_path resolved_path raw old w
                Hresolve Hraw Hparse) as Hget.
  (* the run, step by step *)
  unfold run. rewrite (run_tail_without_version_file configs Hfile).
  unfold dryRun, new.
  unfold bind at 1. unfold bind at 1.
  unfold on_packageJSON at 1, zoom. cbn [packageJSON world].
  fold manifest_path. rewrite Hget.
  unfold bind at 1.
  assert (Hnext : (match semver configs with
                   | Some v0 => ret v0
                   | None =>
                       lift (incrementSemVer (version old)
                               (type_or_minor configs))
                   end : M t str)
                  = ret target).
  { destruct (semver configs); [now subst | now rewrite Htarget]. }
  rewrite Hnext. unfold ret at 1.
  rewrite Hcode_all, Hsem_all, Hkind. cbn [negb when].
  unfold bumpCodes, syncSemver.
  rewrite Hcode_ios, Hcode_android, Hsem_ios, Hsem_android.
  cbn [negb when].
  unfold bind, ret, on_buildGradle, on_pbx, on_packageJSON, zoom, console_log,
    modify.
  cbn [pbx buildGradle packageJSON world].
  rewrite Hgradle. rewrite Hbump. cbn [current next buildGradle world].
  fold m2. rewrite Hset. cbn [current next packageJSON world].
  rewrite Hprint, Hprint1.
  rewrite (setVersion_loaded target _ _ old) by reflexivity.
  cbn [fst snd PackageJSONManager.content PackageJSONManager.set_content
       current next pbx buildGradle packageJSON world].
  rewrite write_unloaded by reflexivity.
  cbn [fst snd pbx buildGradle packageJSON world].
  assert (Hafter : exists ch rest, after = ch :: rest).
  { unfold after. destruct pre; cbn; eauto. }
  destruct Hafter as (ch & rest & Hafter).
  unfold write, PackageJSONManager.write, bind, gets, call_basePath,
    PackageJSONManager.call_basePath, writeFile, modify, ret.
  subst m2 m1.
  cbn [fst snd set_content content basePath PackageJSONManager.content
       PackageJSONManager.basePath].
  rewrite Hafter.
  cbn [fst snd pbx buildGradle packageJSON world count_resolve set_content
       PackageJSONManager.count_resolve PackageJSONManager.content
       PackageJSONManager.set_content
       PackageJSONManager.basePath PackageJSONManager.resolved
       basePath content resolved].
  unfold write_disk, log_line. cbn [disk written console].
  rewrite <- !app_assoc. reflexivity.
Qed.

End AndroidRun.

Lemma run_bumps_the_android_project_witness :
  let configs :=
    {| type := Some "patch"; semver := None;
       skipSemverFor := ["ios"]; skipCodeFor := ["ios"];
       versionFile := None; root := "/app";
       pbxprojPath :=
         Throw (Error (required_message "undefined" "project.ios"));
       buildGradlePath := Ok Demo.gradle_path |} in
  let after :=
    "    versionCode 24" ++ Demo.newline ++ "    versionName "
    ++ dquote :: "1.10.7" ++ dquote :: Demo.newline in
  let bumped := {| version := "1.10.7"; members := [] |} in
  @ProjectFilesManager.run Demo.runtime configs
    (@ProjectFilesManager.new Demo.runtime configs Demo.world)
  = (Ok tt,
     {| ProjectFilesManager.pbx := new_manager (pbxprojPath configs);
        ProjectFilesManager.buildGradle :=
          {| basePath := Ok Demo.gradle_path; content := Some after;
             resolved := 2 |};
        ProjectFilesManager.packageJSON :=
          {| PackageJSONManager.basePath := Ok "/app/package.json";
             PackageJSONManager.content := Some bumped;
             PackageJSONManager.resolved := 2 |};
        ProjectFilesManager.world :=
          {| disk :=
               <["/app/package.json" := Demo.stringify_manifest bumped]>
                 (<[Demo.gradle_path := after]> Demo.files);
             written :=
               [(Demo.gradle_path, after);
                ("/app/package.json", Demo.stringify_manifest bumped)];
             console :=
               ["Android build.gradle code: 23 -> 24";
                "Android gradle.build version: "
                ++ dquote :: "1.10.6" ++ dquote :: " -> 1.10.7";
                "package.json: 1.10.6 -> 1.10.7"] |} |}).
Proof.
  intros configs after bumped.
  apply (@run_bumps_the_android_project Demo.runtime configs Demo.world
           {| version := "1.10.6"; members := [] |}
           (Demo.manifest_text "1.10.6") "/app/package.json" Demo.gradle_path
           "    " "23" (Demo.newline ++ "    ") "1.10.6" Demo.newline "1.10.7"
           dquote 23).
  - reflexivity.
  - reflexivity.
  - reflexivity.
  - reflexivity.
  - reflexivity.
  - reflexivity.
  - reflexivity.
  - reflexivity.
  - reflexivity.
  - vm_compute. reflexivity.
  - vm_compute. reflexivity.
  - vm_compute. reflexivity.
  - reflexivity.
  - vm_compute. reflexivity.
  - vm_compute. reflexivity.
  - vm_compute. reflexivity.
  - vm_compute. reflexivity.
  - discriminate.
  - reflexivity.
  - reflexivity.
  - vm_compute. reflexivity.
  - unfold safe_integer, MAX_SAFE_INTEGER. simpl. lia.
  - now right.
  - discriminate.
  - vm_compute. reflexivity.
  - cbn. tauto.
  - cbn. intuition discriminate.
Defined.

(** ** A whole run on both platforms *)

Section WholeRun.
Context {rt : Runtime}.
Import ProjectFilesManager.

Lemma skips_neither (l : list str) (platform : str) :
  skips l platform = false ->
  includes l platform = false /\ includes l "all" = false.
Proof. unfold skips. now destruct (includes l platform), (includes l "all"). Qed.

(** X29: a whole [run] that skips nothing and has no version file, on
    a project file made of counter fields that, once bumped, is made of
    version fields, and a build file as above: it returns, every counter
    of the project file is the first counter plus one and every version
    the target, the three files are written once each in the order
    project file, build file, manifest, and five lines are logged, the
    two code lines before the two version lines and the manifest
    line. *)
Theorem run_bumps_the_whole_project (configs : Configs) (w : World)
    (old : manifest) (raw resolved_path project_path gradle_path : str)
    (cb cds : str) (counters : list (str * str)) (ctail : str) (k : Z)
    (vb vold : str) (versions : list (str * str)) (vtail : str)
    (pre ds mid v post target : str) (q : ascii) (n : Z) :
  let manifest_path := path_join [root configs; "package.json"] in
  let project_before :=
    fields_text "CURRENT_PROJECT_VERSION = " ";" ((cb, cds) :: counters)
      ctail in
  let project_bumped :=
    fields_text "CURRENT_PROJECT_VERSION = " ";"
      (with_value (decimal (k + 1)) ((cb, cds) :: counters)) ctail in
  let project_after :=
    fields_text "MARKETING_VERSION = " ";"
      (with_value target ((vb, vold) :: versions)) vtail in
  let before :=
    pre ++ "versionCode " ++ ds ++ mid
    ++ "versionName " ++ q :: v ++ q :: post in
  let after :=
    pre ++ "versionCode " ++ decimal (n + 1) ++ mid
    ++ "versionName " ++ q :: target ++ q :: post in
  let bumped := {| version := target; members := members old |} in
  skips (skipCodeFor configs) "ios" = false ->
  skips (skipCodeFor configs) "android" = false ->
  skips (skipSemverFor configs) "ios" = false ->
  skips (skipSemverFor configs) "android" = false ->
  falsy (type configs) = false ->
  truthy (versionFile configs) = false ->
  require_resolve manifest_path = Ok resolved_path ->
  disk w !! resolved_path = Some raw ->
  JSON_parse raw = Ok old ->
  match semver configs with
  | Some override => target = override
  | None => incrementSemVer (version old) (type_or_minor configs) = Ok target
  end ->
  forallb (fun ch => negb (is_line_terminator ch)) target = true ->
  ~ In "$"%char target ->
  pbxprojPath configs = Ok project_path ->
  disk w !! project_path = Some project_before ->
  fields_ok "CURRENT_PROJECT_VERSION = " ";" counter_value
    ((cb, cds) :: counters) ctail ->
  parseInt cds = Fin k ->
  safe_integer k ->
  project_bumped
  = fields_text "MARKETING_VERSION = " ";" ((vb, vold) :: versions) vtail ->
  fields_ok "MARKETING_VERSION = " ";" version_value
    ((vb, vold) :: versions) vtail ->
  buildGradlePath configs = Ok gradle_path ->
  disk w !! gradle_path = Some before ->
  indexOf "versionCode " (pre ++ "versionCode ") = Some (length pre) ->
  indexOf "versionName " (pre ++ "versionCode ") = None ->
  indexOf "versionName " (mid ++ "versionName ") = Some (length mid) ->
  ds <> [] ->
  forallb is_digit ds = true ->
  leading_digits mid = [] ->
  parseInt ds = Fin n ->
  safe_integer n ->
  q = squote \/ q = dquote ->
  v <> [] ->
  forallb (fun ch => negb (is_quote ch) && negb (is_line_terminator ch)) v
  = true ->
  ~ In q (line_rest post) ->
  run configs (new configs w)
  = (Ok tt,
     {| pbx :=
          {| basePath := Ok project_path; content := Some project_after;
             resolved := 2 |};
        buildGradle :=
          {| basePath := Ok gradle_path; content := Some after;
             resolved := 2 |};
        packageJSON :=
          {| PackageJSONManager.basePath := Ok manifest_path;
             PackageJSONManager.content := Some bumped;
             PackageJSONManager.resolved := 2 |};
        world :=
          {| disk :=
               <[manifest_path := JSON_stringify_manifest bumped]>
                 (<[gradle_path := after]>
                    (<[project_path := project_after]> (disk w)));
             written :=
               written w
               ++ [(project_path, project_after);
                   (gradle_path, after);
                   (manifest_path, JSON_stringify_manifest bumped)];
             console :=
               console w
               ++ ["iOS project.pbxproj code: " ++ decimal k ++ " -> "
                   ++ decimal (k + 1);
                   "Android build.gradle code: " ++ decimal n ++ " -> "
                   ++ decimal (n + 1);
                   "iOS project.pbxproj version: " ++ vold ++ " -> "
                   ++ target;
                   "Android gradle.build version: " ++ (q :: v ++ [q])
                   ++ " -> " ++ target;
                   "package.json: " ++ version old ++ " -> " ++ target] |}
     |}).
Proof.
  intros manifest_path project_before project_bumped project_after
    before after bumped
    Hcode_ios Hcode_android Hsem_ios Hsem_android
    Hkind Hfile Hresolve Hraw Hparse Htarget Hline Hplain
    Hproject Hpbx Hcounters Hk Hksafe Hversions Hvok
    Hgradle Hbuf Hcode Hbefore Hmid Hne Hds Hlead Hn Hsafe Hq Hv Hvalue Hpost.
  apply skips_neither in Hcode_ios as [Hcode_ios Hcode_all].
  apply skips_neither in Hcode_android as [Hcode_android _].
  apply skips_neither in Hsem_ios as [Hsem_ios Hsem_all].
  apply skips_neither in Hsem_android as [Hsem_android _].
  pose proof (parseInt_digits_nonneg ds n Hne Hds Hn) as Hn0.
  pose proof Hcounters as (_ & [Hcne Hcds] & _).
  pose proof (parseInt_digits_nonneg cds k Hcne Hcds Hk) as Hk0.
  assert (Hprint : num_to_string (Fin n) = decimal n
                   /\ num_to_string (Fin (n + 1)) = decimal (n + 1)
                   /\ num_to_string (Fin k) = decimal k
                   /\ num_to_string (Fin (k + 1)) = decimal (k + 1)).
  { unfold safe_integer, MAX_SAFE_INTEGER in Hsafe, Hksafe.
    repeat split; apply num_to_string_safe; lia. }
  destruct Hprint as (Hprint & Hprint1 & Hkprint & Hkprint1).
  (* the project file *)
  set (p1 := {| basePath := Ok project_path; content := Some project_before;
                resolved := 1 |}).
  assert (Hbump_project : forall w',
             disk w' = disk w ->
             PBXManager.bumpProjectVersion (new_manager (Ok project_path), w')
             = (Ok {| current := Fin k; next := Fin (k + 1) |},
                (set_content project_bumped p1, w'))).
  { intros w' Hdisk.
    apply (bumpProjectVersion_fields _ w' (p1, w') cb cds counters ctail k);
      try assumption.
    apply read_fresh. now rewrite Hdisk. }
  assert (Hset_project : forall w',
             PBXManager.setMarketingVersion target
               (set_content project_bumped p1, w')
             = (Ok {| current := Some vold; next := target |},
                (set_content project_after (set_content project_bumped p1),
                 w'))).
  { intros w'.
    apply (setMarketingVersion_fields _ w'
             (set_content project_bumped p1, w') vb vold versions vtail
             target);
      try assumption.
    apply read_loaded. cbn [set_content content]. now rewrite Hversions. }
  (* the build file *)
  set (m1 := {| basePath := Ok gradle_path; content := Some before;
                resolved := 1 |}).
  assert (Hcounter : forall rest,
             indexOf "versionCode " (pre ++ "versionCode " ++ rest)
             = Some (length pre))
    by (intros rest; exact (field_position "versionCode " pre rest 0 Hcode)).
  set (m2 := set_content
               (pre ++ "versionCode " ++ decimal (n + 1) ++ mid
                ++ "versionName " ++ q :: v ++ q :: post) m1).
  assert (Hbump : forall w',
             disk w' = disk w ->
             BuildGradleManager.bumpCode (new_manager (Ok gradle_path), w')
             = (Ok {| current := Fin n; next := Fin (n + 1) |}, (m2, w'))).
  { intros w' Hdisk.
    apply (bumpCode_digits _ w' (m1, w') pre ds
             (mid ++ "versionName " ++ q :: v ++ q :: post) n);
      try assumption.
    - apply read_fresh. now rewrite Hdisk.
    - apply Hcounter.
    - now apply leading_digits_before. }
  destruct (decimal_all_digits (n + 1) ltac:(lia))
    as (d & ds' & Hdec & Hd & Hds').
  set (pre' := pre ++ "versionCode " ++ decimal (n + 1) ++ mid).
  assert (Hassoc : forall rest,
             pre ++ "versionCode " ++ decimal (n + 1) ++ mid
             ++ "versionName " ++ rest
             = pre' ++ "versionName " ++ rest)
    by (intros rest; unfold pre'; now rewrite <- !app_assoc).
  assert (Hname : indexOf "versionName "
                    (pre' ++ "versionName " ++ q :: v ++ q :: post)
                  = Some (length pre')).
  { unfold pre'.
    pose proof (index_past_digits "versionName " (pre ++ "versionCode ")
                  (decimal (n + 1))
                  (mid ++ "versionName " ++ q :: v ++ q :: post)
                  (length mid) eq_refl) as H.
    rewrite <- !app_assoc in *. rewrite H.
    - f_equal. rewrite !length_app. lia.
    - rewrite Hdec. discriminate.
    - rewrite Hdec. cbn [forallb]. now rewrite Hd, Hds'.
    - exact Hbefore.
    - exact (field_position "versionName " mid _ 0 Hmid). }
  assert (Hset : forall w',
             BuildGradleManager.setVersionName target (m2, w')
             = (Ok {| current := q :: v ++ [q]; next := target |},
                (set_content after m2, w'))).
  { intros w'. unfold after. rewrite Hassoc.
    apply (setVersionName_quoted m2 w' (m2, w') pre' post v target q);
      try assumption.
    apply read_loaded. unfold m2. cbn [set_content content].
    now rewrite Hassoc. }
  (* the manifest *)
  pose proof (getVersion_fresh manifest_path resolved_path raw old w
                Hresolve Hraw Hparse) as Hget.
  (* the run, step by step *)
  unfold run. rewrite (run_tail_without_version_file configs Hfile).
  unfold dryRun, new.
  unfold bind at 1. unfold bind at 1.
  unfold on_packageJSON at 1, zoom. cbn [packageJSON world].
  fold manifest_path. rewrite Hget.
  unfold bind at 1.
  assert (Hnext : (match semver configs with
                   | Some v0 => ret v0
                   | None =>
                       lift (incrementSemVer (version old)
                               (type_or_minor configs))
                   end : M t str)
                  = ret target).
  { destruct (semver configs); [now subst | now rewrite Htarget]. }
  rewrite Hnext. unfold ret at 1.
  rewrite Hcode_all, Hsem_all, Hkind. cbn [negb when].
  unfold bumpCodes, syncSemver.
  rewrite Hcode_ios, Hcode_android, Hsem_ios, Hsem_android.
  cbn [negb when].
  unfold bind, ret, on_buildGradle, on_pbx, on_packageJSON, zoom, console_log,
    modify.
  cbn [pbx buildGradle packageJSON world].
  rewrite Hproject, Hgradle.
  rewrite Hbump_project by reflexivity.
  cbn [current next pbx buildGradle packageJSON world].
  rewrite Hbump by reflexivity.
  cbn [current next pbx buildGradle packageJSON world].
  rewrite Hset_project.
  cbn [current next pbx buildGradle packageJSON world].
  rewrite Hset.
  cbn [current next pbx buildGradle packageJSON world ToString].
  rewrite Hprint, Hprint1, Hkprint, Hkprint1.
  rewrite (setVersion_loaded target _ _ old) by reflexivity.
  cbn [fst snd PackageJSONManager.content PackageJSONManager.set_content
       current next pbx buildGradle packageJSON world].
  assert (Hafter : exists ch rest, after = ch :: rest).
  { unfold after. destruct pre; cbn; eauto. }
  destruct Hafter as (ch & rest & Hafter).
  assert (Hproject_after : exists ch' rest', project_after = ch' :: rest').
  { unfold project_after. cbn [with_value map fst fields_text].
    destruct vb; cbn; eauto. }
  destruct Hproject_after as (ch' & rest' & Hproject_after).
  unfold write, PackageJSONManager.write, bind, gets, call_basePath,
    PackageJSONManager.call_basePath, writeFile, modify, ret.
  subst m2 m1 p1.
  cbn [fst snd set_content content basePath PackageJSONManager.content
       PackageJSONManager.basePath].
  rewrite Hafter, Hproject_after.
  cbn [fst snd pbx buildGradle packageJSON world count_resolve set_content
       PackageJSONManager.count_resolve PackageJSONManager.content
       PackageJSONManager.set_content
       PackageJSONManager.basePath PackageJSONManager.resolved
       basePath content resolved].
  unfold write_disk, log_line. cbn [disk written console].
  rewrite <- !app_assoc. reflexivity.
Qed.

End WholeRun.

Lemma run_bumps_the_whole_project_witness :
  let project_after :=
    "CURRENT_PROJECT_VERSION = 25;" ++ Demo.newline
    ++ "MARKETING_VERSION = 1.10.7;" ++ Demo.newline
    ++ "CURRENT_PROJECT_VERSION = 25;" ++ Demo.newline
    ++ "MARKETING_VERSION = 1.10.7;" ++ Demo.newline in
  let after :=
    "    versionCode 24" ++ Demo.newline ++ "    versionName "
    ++ dquote :: "1.10.7" ++ dquote :: Demo.newline in
  let bumped := {| version := "1.10.7"; members := [] |} in
  let configs :=
    {| type := Some "patch"; semver := None;
       skipSemverFor := []; skipCodeFor := [];
       versionFile := None; root := "/app";
       pbxprojPath := Ok Demo.pbxproj_path;
       buildGradlePath := Ok Demo.gradle_path |} in
  @ProjectFilesManager.run Demo.runtime configs
    (@ProjectFilesManager.new Demo.runtime configs Demo.world)
  = (Ok tt,
     {| ProjectFilesManager.pbx :=
          {| basePath := Ok Demo.pbxproj_path; content := Some project_after;
             resolved := 2 |};
        ProjectFilesManager.buildGradle :=
          {| basePath := Ok Demo.gradle_path; content := Some after;
             resolved := 2 |};
        ProjectFilesManager.packageJSON :=
          {| PackageJSONManager.basePath := Ok "/app/package.json";
             PackageJSONManager.content := Some bumped;
             PackageJSONManager.resolved := 2 |};
        ProjectFilesManager.world :=
          {| disk :=
               <["/app/package.json" := Demo.stringify_manifest bumped]>
                 (<[Demo.gradle_path := after]>
                    (<[Demo.pbxproj_path := project_after]> Demo.files));
             written :=
               [(Demo.pbxproj_path, project_after);
                (Demo.gradle_path, after);
                ("/app/package.json", Demo.stringify_manifest bumped)];
             console :=
               ["iOS project.pbxproj code: 24 -> 25";
                "Android build.gradle code: 23 -> 24";
                "iOS project.pbxproj version: 1.10.6 -> 1.10.7";
                "Android gradle.build version: "
                ++ dquote :: "1.10.6" ++ dquote :: " -> 1.10.7";
                "package.json: 1.10.6 -> 1.10.7"] |} |}).
Proof.
  intros project_after after bumped configs.
  apply (@run_bumps_the_whole_project Demo.runtime configs Demo.world
           {| version := "1.10.6"; members := [] |}
           (Demo.manifest_text "1.10.6") "/app/package.json"
           Demo.pbxproj_path Demo.gradle_path
           [] "24"
           [(Demo.newline ++ "MARKETING_VERSION = 1.10.6;" ++ Demo.newline,
             "24")]
           (Demo.newline ++ "MARKETING_VERSION = 1.10.6;" ++ Demo.newline)
           24
           ("CURRENT_PROJECT_VERSION = 25;" ++ Demo.newline) "1.10.6"
           [(Demo.newline ++ "CURRENT_PROJECT_VERSION = 25;" ++ Demo.newline,
             "1.10.6")]
           Demo.newline
           "    " "23" (Demo.newline ++ "    ") "1.10.6" Demo.newline "1.10.7"
           dquote 23).
  - reflexivity.
  - reflexivity.
  - reflexivity.
  - reflexivity.
  - reflexivity.
  - reflexivity.
  - reflexivity.
  - vm_compute. reflexivity.
  - vm_compute. reflexivity.
  - vm_compute. reflexivity.
  - reflexivity.
  - cbn. intuition discriminate.
  - reflexivity.
  - vm_compute. reflexivity.
  - repeat split; try discriminate; vm_compute; reflexivity.
  - vm_compute. reflexivity.
  - unfold safe_integer, MAX_SAFE_INTEGER. simpl. lia.
  - vm_compute. reflexivity.
  - repeat split; try (vm_compute; reflexivity); cbn; tauto.
  - reflexivity.
  - vm_compute. reflexivity.
  - vm_compute. reflexivity.
  - vm_compute. reflexivity.
  - vm_compute. reflexivity.
  - discriminate.
  - reflexivity.
  - reflexivity.
  - vm_compute. reflexivity.
  - unfold safe_integer, MAX_SAFE_INTEGER. simpl. lia.
  - now right.
  - discriminate.
  - vm_compute. reflexivity.
  - cbn. tauto.
Defined.
